(** * Lorenz attractor: integrator, trail buffer, projection and rasteriser

    A shallow embedding of the Go program (lorenz.go: the animation
    generator; the second program of the repository: the chaos showcase with
    [NextPoint], the logistic map and the escape-time iteration), the
    properties of its natural-language specification, and further
    properties of the code.

    Conventions of the embedding.
    - Go's [float64] is Rocq's primitive binary64 [float]; every arithmetic
      operator is one IEEE-754 operation rounded to nearest-even, in the
      order the source writes them (no fused multiply-add).
    - Go's [int] is the 64-bit two's-complement integer: a [Z] kept in
      [-2^63, 2^63) by [wrap] after every operation.
    - A slice is a [list]; an index outside it is a run-time panic.
      Memory is unbounded: an allocation fails only where the size is
      negative or where Go's library checks it ([image.NewPaletted],
      [image.NewRGBA]).
    - A three-clause [for] loop and the bare [for] of [drawLine] take a
      bound on their number of iterations (fuel); [range] loops fold over
      the list they range over.
    - Real numbers appear in the proofs only, to bound the roundings of the
      colour computation. *)

From Stdlib Require Import ZArith Lia Floats Ascii DecimalString Reals Lra.
From Stdlib Require Uint63.
From stdpp Require Import base list strings.

Open Scope Z_scope.

(** ** Machine integers *)

Definition min_int : Z := - 2 ^ 63.
Definition max_int : Z := 2 ^ 63 - 1.

(** Reduction of an exact result to the 64-bit two's-complement range. *)
Definition wrap (z : Z) : Z := (z + 2 ^ 63) mod 2 ^ 64 - 2 ^ 63.

Definition int_add (a b : Z) : Z := wrap (a + b).
Definition int_sub (a b : Z) : Z := wrap (a - b).
Definition int_mul (a b : Z) : Z := wrap (a * b).
Definition int_neg (a : Z) : Z := wrap (- a).

Definition is_int (z : Z) : Prop := min_int <= z <= max_int.

(** ** Floating point conversions *)

(** [float64(i)] for an [int] i: the nearest binary64 value, ties to even. *)
Definition float64_of_int (z : Z) : float :=
  SF2Prim (binary_normalize prec emax z 0 false).

(** Integer part of a finite binary64 value, rounded toward zero. *)
Definition trunc_float (f : float) : option Z :=
  match Prim2SF f with
  | S754_zero _ => Some 0
  | S754_finite s m e =>
      let a := if 0 <=? e then Z.shiftl (Zpos m) e else Z.shiftr (Zpos m) (- e) in
      Some (if s then - a else a)
  | S754_infinity _ | S754_nan => None
  end.

(** [int(f)] for a [float64] f: truncation toward zero.  Go leaves the
    result open when the value does not fit; the model takes what amd64's
    CVTTSD2SQ delivers there, the "integer indefinite" value -2^63. *)
Definition int_of_float64 (f : float) : Z :=
  match trunc_float f with
  | Some z => if (min_int <=? z) && (z <=? max_int) then z else min_int
  | None => min_int
  end.

(** [uint8(f)] for a [float64] f: truncation toward zero, then the low
    eight bits of the integer (the amd64 code converts to a wider integer
    and keeps its low byte). *)
Definition uint8_of_float64 (f : float) : Z :=
  int_of_float64 f mod 256.

(** ** Integrator (lorenz.go) *)

Record Point3D := mkPoint3D { X : float; Y : float; Zc : float }.

Record LorenzSystem := mkLorenzSystem {
  l_sigma : float; l_rho : float; l_beta : float;
  l_dt : float;
  l_x : float; l_y : float; l_z : float;
  l_trail : list Point3D;
  l_maxTrailLength : Z
}.

Definition set_x (l : LorenzSystem) (v : float) : LorenzSystem :=
  mkLorenzSystem (l_sigma l) (l_rho l) (l_beta l) (l_dt l)
    v (l_y l) (l_z l) (l_trail l) (l_maxTrailLength l).
Definition set_y (l : LorenzSystem) (v : float) : LorenzSystem :=
  mkLorenzSystem (l_sigma l) (l_rho l) (l_beta l) (l_dt l)
    (l_x l) v (l_z l) (l_trail l) (l_maxTrailLength l).
Definition set_z (l : LorenzSystem) (v : float) : LorenzSystem :=
  mkLorenzSystem (l_sigma l) (l_rho l) (l_beta l) (l_dt l)
    (l_x l) (l_y l) v (l_trail l) (l_maxTrailLength l).
Definition set_trail (l : LorenzSystem) (t : list Point3D) : LorenzSystem :=
  mkLorenzSystem (l_sigma l) (l_rho l) (l_beta l) (l_dt l)
    (l_x l) (l_y l) (l_z l) t (l_maxTrailLength l).

(** [NewLorenzSystem(maxTrail)].  [make([]Point3D, 0, maxTrail)] panics on
    a negative capacity ([None]); the literal 0.01 is the binary64 value
    written out in hexadecimal. *)
Definition NewLorenzSystem (maxTrail : Z) : option LorenzSystem :=
  if maxTrail <? 0 then None
  else Some {| l_sigma := 10%float; l_rho := 28%float; l_beta := (8 / 3)%float;
               l_dt := 0x1.47ae147ae147bp-7%float;
               l_x := 1%float; l_y := 1%float; l_z := 1%float;
               l_trail := []; l_maxTrailLength := maxTrail |}.

(** [Step]: the receiver is mutated field by field, in the order of the
    source; the result is the returned point and the receiver afterwards. *)
Definition Step (l : LorenzSystem) : Point3D * LorenzSystem :=
  let dx := (l_sigma l * (l_y l - l_x l))%float in
  let dy := (l_x l * (l_rho l - l_z l) - l_y l)%float in
  let dz := (l_x l * l_y l - l_beta l * l_z l)%float in
  let l := set_x l (l_x l + dx * l_dt l)%float in
  let l := set_y l (l_y l + dy * l_dt l)%float in
  let l := set_z l (l_z l + dz * l_dt l)%float in
  let point := {| X := l_x l; Y := l_y l; Zc := l_z l |} in
  let l := set_trail l (l_trail l ++ [point]) in
  let l := if Z.of_nat (length (l_trail l)) >? l_maxTrailLength l
           then set_trail l (drop 1 (l_trail l)) else l in
  (point, l).

Definition GetTrail (l : LorenzSystem) : list Point3D := l_trail l.

(** [n] successive calls of [Step]: the points returned, in order, and the
    system after the last call. *)
Fixpoint run_steps (n : nat) (l : LorenzSystem) : list Point3D * LorenzSystem :=
  match n with
  | O => ([], l)
  | S k => let '(p, l1) := Step l in
           let '(ps, l2) := run_steps k l1 in
           (p :: ps, l2)
  end.

(** ** Integrator of the showcase program *)

Record LorenzAttractor := mkLorenzAttractor {
  a_sigma : float; a_rho : float; a_beta : float;
  a_dt : float;
  a_x : float; a_y : float; a_z : float
}.

Definition NewLorenzAttractor : LorenzAttractor :=
  {| a_sigma := 10%float; a_rho := 28%float; a_beta := (8 / 3)%float;
     a_dt := 0x1.47ae147ae147bp-7%float;
     a_x := 1%float; a_y := 1%float; a_z := 1%float |}.

Definition NextPoint (l : LorenzAttractor) : Point3D * LorenzAttractor :=
  let dx := (a_sigma l * (a_y l - a_x l))%float in
  let dy := (a_x l * (a_rho l - a_z l) - a_y l)%float in
  let dz := (a_x l * a_y l - a_beta l * a_z l)%float in
  let l := mkLorenzAttractor (a_sigma l) (a_rho l) (a_beta l) (a_dt l)
             (a_x l + dx * a_dt l)%float (a_y l) (a_z l) in
  let l := mkLorenzAttractor (a_sigma l) (a_rho l) (a_beta l) (a_dt l)
             (a_x l) (a_y l + dy * a_dt l)%float (a_z l) in
  let l := mkLorenzAttractor (a_sigma l) (a_rho l) (a_beta l) (a_dt l)
             (a_x l) (a_y l) (a_z l + dz * a_dt l)%float in
  ({| X := a_x l; Y := a_y l; Zc := a_z l |}, l).

(** ** Forward Euler step, as the specification words it *)

(** Right-hand side of the Lorenz equations at the point [p]. *)
Definition lorenz_derivative (sigma rho beta : float) (p : Point3D) : Point3D :=
  {| X := (sigma * (Y p - X p))%float;
     Y := (X p * (rho - Zc p) - Y p)%float;
     Zc := (X p * Y p - beta * Zc p)%float |}.

(** One explicit Euler step: all three derivatives are taken at [p]. *)
Definition euler_step (sigma rho beta dt : float) (p : Point3D) : Point3D :=
  let d := lorenz_derivative sigma rho beta p in
  {| X := (X p + X d * dt)%float;
     Y := (Y p + Y d * dt)%float;
     Zc := (Zc p + Zc d * dt)%float |}.

Definition position (l : LorenzSystem) : Point3D :=
  {| X := l_x l; Y := l_y l; Zc := l_z l |}.
Definition a_position (l : LorenzAttractor) : Point3D :=
  {| X := a_x l; Y := a_y l; Zc := a_z l |}.

(** ** Projection *)

(** [Project3DTo2D]: the two rotation arguments are received and never
    read.  0.8 is the binary64 value written out in hexadecimal. *)
Definition Project3DTo2D (p : Point3D) (width height : Z)
    (rotationX rotationY : float) : Z * Z :=
  let scaleX := (float64_of_int width / 50)%float in
  let scaleZ := (float64_of_int height / 60)%float in
  let centerX := (float64_of_int width / 2)%float in
  let centerZ := (float64_of_int height * 0x1.999999999999ap-1)%float in
  let projX := (X p * scaleX + centerX)%float in
  let projZ := (centerZ - Zc p * scaleZ)%float in
  (int_of_float64 projX, int_of_float64 projZ).

(** ** Paletted images (Go's image package, as the program uses it) *)

Record Point := mkPoint { pt_X : Z; pt_Y : Z }.
Record Rectangle := mkRectangle { Min : Point; Max : Point }.

(** [image.Rect]: the corners are swapped where needed so that Min <= Max. *)
Definition Rect (x0 y0 x1 y1 : Z) : Rectangle :=
  let '(x0, x1) := if x0 >? x1 then (x1, x0) else (x0, x1) in
  let '(y0, y1) := if y0 >? y1 then (y1, y0) else (y0, y1) in
  {| Min := mkPoint x0 y0; Max := mkPoint x1 y1 |}.

Definition Dx (r : Rectangle) : Z := int_sub (pt_X (Max r)) (pt_X (Min r)).
Definition Dy (r : Rectangle) : Z := int_sub (pt_Y (Max r)) (pt_Y (Min r)).

(** [Point{x, y}.In(r)]. *)
Definition point_In (x y : Z) (r : Rectangle) : bool :=
  (pt_X (Min r) <=? x) && (x <? pt_X (Max r)) &&
  (pt_Y (Min r) <=? y) && (y <? pt_Y (Max r)).

(** The index plane of an [image.Paletted]: one colour index (a [uint8])
    per pixel, row by row.  The 256-entry palette that [CreateFrame]
    attaches to the image maps indices to colours; no drawing code reads
    it, and the model leaves it out. *)
Record Paletted := mkPaletted {
  Pix : list Z;
  Stride : Z;
  Bounds : Rectangle
}.

(** [image.NewPaletted(r, palette)]: panics ([None]) when the rectangle
    has a negative side or more pixels than an [int] can count. *)
Definition NewPaletted (r : Rectangle) : option Paletted :=
  let w := Dx r in
  let h := Dy r in
  if (w <? 0) || (h <? 0) || (max_int <? w * h) then None
  else Some {| Pix := replicate (Z.to_nat (w * h)) 0; Stride := w; Bounds := r |}.

Definition PixOffset (p : Paletted) (x y : Z) : Z :=
  int_add (int_mul (int_sub y (pt_Y (Min (Bounds p)))) (Stride p))
          (int_mul (int_sub x (pt_X (Min (Bounds p)))) 1).

(** [p.SetColorIndex(x, y, index)]: nothing happens outside the rectangle;
    inside, the store [p.Pix[i] = index] panics ([None]) when [i] is not
    an index of [Pix]. *)
Definition SetColorIndex (p : Paletted) (x y index : Z) : option Paletted :=
  if negb (point_In x y (Bounds p)) then Some p
  else
    let i := PixOffset p x y in
    if (0 <=? i) && (i <? Z.of_nat (length (Pix p)))
    then Some {| Pix := <[Z.to_nat i := index]> (Pix p);
                 Stride := Stride p; Bounds := Bounds p |}
    else None.

(** [p.ColorIndexAt(x, y)]: 0 outside the rectangle. *)
Definition ColorIndexAt (p : Paletted) (x y : Z) : option Z :=
  if negb (point_In x y (Bounds p)) then Some 0
  else
    let i := PixOffset p x y in
    if (0 <=? i) && (i <? Z.of_nat (length (Pix p)))
    then Pix p !! Z.to_nat i
    else None.

(** ** Drawing computations *)

(** The image being drawn on, with the calls of [SetColorIndex] issued on
    it so far, oldest first (a record kept for the proofs; the program
    has no such list). *)
Record canvas := mkCanvas {
  image : Paletted;
  history : list (Z * Z * Z)
}.

Inductive outcome (A : Type) : Type :=
| Returns (a : A) (c : canvas)   (* the call returned [a] *)
| Panics                        (* a run-time panic was raised *)
| OutOfFuel (c : canvas).       (* a loop used up its iterations *)
Arguments Returns {A} a c.
Arguments Panics {A}.
Arguments OutOfFuel {A} c.

Definition Draw (A : Type) : Type := canvas -> outcome A.

#[export] Instance Draw_ret : MRet Draw := fun A a c => Returns a c.
#[export] Instance Draw_bind : MBind Draw := fun A B f m c =>
  match m c with
  | Returns a c' => f a c'
  | Panics => Panics
  | OutOfFuel c' => OutOfFuel c'
  end.

Definition out_of_fuel {A} : Draw A := fun c => OutOfFuel c.
Definition panic {A} : Draw A := fun _ => Panics.

(** [img.Bounds()]. *)
Definition bounds : Draw Rectangle := fun c => Returns (Bounds (image c)) c.

(** [img.SetColorIndex(x, y, index)], recorded in the history. *)
Definition setColorIndex (x y index : Z) : Draw unit := fun c =>
  match SetColorIndex (image c) x y index with
  | Some im => Returns tt {| image := im; history := history c ++ [(x, y, index)] |}
  | None => Panics
  end.

(** [for i := i0; cond(i); i++ { body(i) }]. *)
Fixpoint for_loop (fuel : nat) (cond : Z -> bool) (i : Z)
    (body : Z -> Draw unit) : Draw unit :=
  match fuel with
  | O => out_of_fuel
  | S fuel' =>
      if cond i
      then body i ;; for_loop fuel' cond (int_add i 1) body
      else mret tt
  end.

(** [for i, a := range l { body(i, a) }], from index [i] on. *)
Fixpoint range_loop {A} (i : Z) (l : list A) (body : Z -> A -> Draw unit) : Draw unit :=
  match l with
  | [] => mret tt
  | a :: l' => body i a ;; range_loop (i + 1) l' body
  end.

(** [s[i]] for a slice [s]: a panic outside [0, len(s)). *)
Definition index {A} (s : list A) (i : Z) : Draw A :=
  if (0 <=? i) && (i <? Z.of_nat (length s))
  then match s !! Z.to_nat i with Some a => mret a | None => panic end
  else panic.

(** ** Rasteriser *)

Definition abs (x : Z) : Z := if x <? 0 then int_neg x else x.

(** The guard in front of every pixel store of the program. *)
Definition in_image (b : Rectangle) (x y : Z) : bool :=
  (x >=? 0) && (x <? Dx b) && (y >=? 0) && (y <? Dy b).

(** The loop of [drawLine]; [x1], [y1] and [err] are its variables. *)
Fixpoint drawLine_loop (fuel : nat) (x1 y1 x2 y2 dx dy sx sy err colorIndex : Z)
    : Draw unit :=
  match fuel with
  | O => out_of_fuel
  | S fuel' =>
      b ← bounds;
      (if in_image b x1 y1 then setColorIndex x1 y1 colorIndex else mret tt) ;;
      if (x1 =? x2) && (y1 =? y2) then mret tt
      else
        let e2 := int_mul 2 err in
        let '(err, x1) := if e2 >? int_neg dy
                          then (int_sub err dy, int_add x1 sx) else (err, x1) in
        let '(err, y1) := if e2 <? dx
                          then (int_add err dx, int_add y1 sy) else (err, y1) in
        drawLine_loop fuel' x1 y1 x2 y2 dx dy sx sy err colorIndex
  end.

Definition drawLine (fuel : nat) (x1 y1 x2 y2 colorIndex : Z) : Draw unit :=
  let dx := abs (int_sub x2 x1) in
  let dy := abs (int_sub y2 y1) in
  let sx := if x1 <? x2 then 1 else -1 in
  let sy := if y1 <? y2 then 1 else -1 in
  let err := int_sub dx dy in
  drawLine_loop fuel x1 y1 x2 y2 dx dy sx sy err colorIndex.

Definition drawCircle (fuel : nat) (centerX centerY radius colorIndex : Z) : Draw unit :=
  for_loop fuel (fun y => y <=? radius) (int_neg radius) (fun y =>
    for_loop fuel (fun x => x <=? radius) (int_neg radius) (fun x =>
      if int_add (int_mul x x) (int_mul y y) <=? int_mul radius radius then
        let px := int_add centerX x in
        let py := int_add centerY y in
        b ← bounds;
        if in_image b px py then setColorIndex px py colorIndex else mret tt
      else mret tt)).

(** The 3x5 bitmaps of [drawChar], row by row. *)
Definition glyph (char : ascii) : list (list bool) :=
  match char with
  | "L"%char => [ [true; false; false];
                  [true; false; false];
                  [true; false; false];
                  [true; false; false];
                  [true; true; true] ]
  | "o"%char => [ [false; true; false];
                  [true; false; true];
                  [true; false; true];
                  [true; false; true];
                  [false; true; false] ]
  | "r"%char => [ [false; false; false];
                  [true; false; false];
                  [true; true; false];
                  [true; false; false];
                  [true; false; false] ]
  | "e"%char => [ [false; true; false];
                  [true; false; true];
                  [true; true; true];
                  [true; false; false];
                  [false; true; true] ]
  | "n"%char => [ [false; false; false];
                  [true; true; false];
                  [true; false; true];
                  [true; false; true];
                  [true; false; true] ]
  | "z"%char => [ [false; false; false];
                  [true; true; true];
                  [false; false; true];
                  [false; true; false];
                  [true; true; true] ]
  | " "%char => [ [false; false; false];
                  [false; false; false];
                  [false; false; false];
                  [false; false; false];
                  [false; false; false] ]
  | _ =>        [ [false; false; false];
                  [false; false; false];
                  [false; true; false];
                  [false; false; false];
                  [false; false; false] ]
  end.

Definition drawChar (x y : Z) (char : ascii) (colorIndex : Z) : Draw unit :=
  let pattern := glyph char in
  range_loop 0 pattern (fun row line =>
    range_loop 0 line (fun col (pixel : bool) =>
      if pixel then
        let px := int_add x col in
        let py := int_add y row in
        b ← bounds;
        if in_image b px py then setColorIndex px py colorIndex else mret tt
      else mret tt)).

(** [drawText]: the text is a string of one-byte (ASCII) characters, as
    the two strings the program draws are, so that the byte offset [i] of
    [range text] is the position of the character. *)
Definition drawText (x y : Z) (text : string) (colorIndex : Z) : Draw unit :=
  range_loop 0 (String.list_ascii_of_string text) (fun i char =>
    drawChar (int_add x (int_mul i 6)) y char colorIndex).

(** ** Frame builder *)

(** The colour index of the trail segment that ends at point [i] of a
    trail of [n] points. *)
Definition segmentColorIndex (i n : Z) : Z :=
  let intensity := (float64_of_int i / float64_of_int n)%float in
  uint8_of_float64 (intensity * 254 + 1)%float.

(** [fmt.Sprintf("Frame: %d", frameNum)]. *)
Definition frameLabel (frameNum : Z) : string :=
  ("Frame: " ++ NilZero.string_of_int (Z.to_int frameNum))%string.

Definition len {A} (s : list A) : Z := Z.of_nat (length s).

(** [CreateFrame]: the outcome carries the image returned. *)
Definition CreateFrame (fuel : nat) (lorenz : LorenzSystem) (width height : Z)
    (rotationX rotationY : float) (frameNum : Z) : outcome unit :=
  match NewPaletted (Rect 0 0 width height) with
  | None => Panics
  | Some img =>
      (for_loop fuel (fun y => y <? height) 0 (fun y =>
         for_loop fuel (fun x => x <? width) 0 (fun x =>
           setColorIndex x y 0)) ;;
       let trail := GetTrail lorenz in
       if len trail <? 2 then mret tt
       else
         for_loop fuel (fun i => i <? len trail) 1 (fun i =>
           p1 ← index trail (int_sub i 1);
           p2 ← index trail i;
           let '(x1, y1) := Project3DTo2D p1 width height rotationX rotationY in
           let '(x2, y2) := Project3DTo2D p2 width height rotationX rotationY in
           let colorIndex := segmentColorIndex i (len trail) in
           drawLine fuel x1 y1 x2 y2 colorIndex) ;;
         (if len trail >? 0 then
            current ← index trail (int_sub (len trail) 1);
            let '(x, y) := Project3DTo2D current width height rotationX rotationY in
            drawCircle fuel x y 3 255
          else mret tt) ;;
         drawText 10 20 (frameLabel frameNum) 200 ;;
         drawText 10 35 "Lorenz Attractor Animation" 150)
      {| image := img; history := [] |}
  end.

(** ** Repeated calls of the showcase integrator *)

(** [n] successive calls of [NextPoint]: the points returned, in order,
    and the attractor after the last call. *)
Fixpoint run_next (n : nat) (a : LorenzAttractor) : list Point3D * LorenzAttractor :=
  match n with
  | O => ([], a)
  | S k => let '(p, a1) := NextPoint a in
           let '(ps, a2) := run_next k a1 in
           (p :: ps, a2)
  end.

(** ** Logistic map and escape-time iteration (showcase program) *)

(** What a function with a loop of its own comes to. *)
Inductive result (A : Type) : Type :=
| Value (a : A)      (* the call returned [a] *)
| Panicked           (* a run-time panic was raised *)
| Exhausted.         (* the loop used up its iterations *)
Arguments Value {A} a.
Arguments Panicked {A}.
Arguments Exhausted {A}.

(** [s[i] = a] for a slice [s]: a panic outside [0, len(s)). *)
Definition store {A} (s : list A) (i : Z) (a : A) : option (list A) :=
  if (0 <=? i) && (i <? len s) then Some (<[Z.to_nat i := a]> s) else None.

Definition LogisticMap (r x : float) : float := (r * x * (1 - x))%float.

(** The loop of [GenerateLogisticSequence]; [i], [x] and the contents of
    [sequence] are its variables. *)
Fixpoint GenerateLogisticSequence_loop (fuel : nat) (r : float) (iterations i : Z)
    (x : float) (sequence : list float) : result (list float) :=
  match fuel with
  | O => Exhausted
  | S fuel' =>
      if i <? iterations then
        let x := LogisticMap r x in
        match store sequence i x with
        | Some sequence =>
            GenerateLogisticSequence_loop fuel' r iterations (int_add i 1) x sequence
        | None => Panicked
        end
      else Value sequence
  end.

(** [GenerateLogisticSequence]: [make([]float64, iterations)] panics on a
    negative length and gives a slice of zeros otherwise. *)
Definition GenerateLogisticSequence (fuel : nat) (r x0 : float) (iterations : Z)
    : result (list float) :=
  if iterations <? 0 then Panicked
  else GenerateLogisticSequence_loop fuel r iterations 0 x0
         (replicate (Z.to_nat iterations) 0%float).

(** A [complex128]; the product is the one the compiler emits, four
    multiplications, one subtraction and one addition. *)
Record complex128 := mkComplex { real : float; imag : float }.

Definition complex_add (a b : complex128) : complex128 :=
  {| real := (real a + real b)%float; imag := (imag a + imag b)%float |}.

Definition complex_mul (a b : complex128) : complex128 :=
  {| real := (real a * real b - imag a * imag b)%float;
     imag := (real a * imag b + imag a * real b)%float |}.

(** The loop of [MandelbrotSet]; [i] and [z] are its variables. *)
Fixpoint MandelbrotSet_loop (fuel : nat) (c : complex128) (maxIter i : Z)
    (z : complex128) : result Z :=
  match fuel with
  | O => Exhausted
  | S fuel' =>
      if i <? maxIter then
        if (4 <? real z * real z + imag z * imag z)%float then Value i
        else MandelbrotSet_loop fuel' c maxIter (int_add i 1)
               (complex_add (complex_mul z z) c)
      else Value maxIter
  end.

Definition MandelbrotSet (fuel : nat) (c : complex128) (maxIter : Z) : result Z :=
  MandelbrotSet_loop fuel c maxIter 0 (mkComplex 0 0).

(** A [color.RGBA]: four [uint8]. *)
Record RGBA := mkRGBA { red : Z; green : Z; blue : Z; alpha : Z }.

(** [a / b] on [int]: a panic ([None]) when [b] is 0; the quotient is
    truncated toward zero, and -2^63 / -1 wraps around. *)
Definition int_div (a b : Z) : option Z :=
  if b =? 0 then None else Some (wrap (Z.quot a b)).

(** [a % b] on [int], for a divisor that is not 0. *)
Definition int_rem (a b : Z) : Z := Z.rem a b.

(** [uint8(i)] for an [int] i: its low eight bits. *)
Definition uint8_of_int (i : Z) : Z := i mod 256.

(** The colour [CreateMandelbrotImage] gives a pixel from the iteration
    count of its point (the two branches of the body of its inner loop). *)
Definition mandelbrot_colour (iter maxIter : Z) : option RGBA :=
  if iter =? maxIter then Some (mkRGBA 0 0 0 255)
  else
    match int_div (int_mul iter 255) maxIter with
    | None => None
    | Some q =>
        let r := uint8_of_int q in
        let g := uint8_of_int (int_rem (int_mul iter 7) 255) in
        let b := uint8_of_int (int_rem (int_mul iter 13) 255) in
        Some (mkRGBA r g b 255)
    end.

(** The body of the inner loop of [CreateMandelbrotImage] for the point
    [c], from the call of [MandelbrotSet] to the colour that is set. *)
Definition mandelbrot_pixel (fuel : nat) (c : complex128) (maxIter : Z) : result RGBA :=
  match MandelbrotSet fuel c maxIter with
  | Value iter =>
      match mandelbrot_colour iter maxIter with
      | Some colour => Value colour
      | None => Panicked
      end
  | Panicked => Panicked
  | Exhausted => Exhausted
  end.

(** ** RGBA images (Go's image package, as the showcase uses it) *)

(** An [image.RGBA]: four bytes per pixel, row by row. *)
Record RGBAImage := mkRGBAImage {
  rgba_Pix : list Z;
  rgba_Stride : Z;
  rgba_Rect : Rectangle
}.

(** [bits.Mul64(x, y)]: the 128-bit product of two [uint64], as its high
    and low words. *)
Definition Mul64 (x y : Z) : Z * Z := ((x * y) / 2 ^ 64, (x * y) mod 2 ^ 64).

(** [mul3NonNeg(x, y, z)] of the image package: the product, or -1 when
    an argument is negative or the computation overflows.  The product
    of x and y is formed first and must fit 64 bits by itself, whatever
    z is. *)
Definition mul3NonNeg (x y z : Z) : Z :=
  if (x <? 0) || (y <? 0) || (z <? 0) then -1
  else
    let '(hi, lo) := Mul64 x y in
    if negb (hi =? 0) then -1
    else
      let '(hi, lo) := Mul64 lo z in
      if negb (hi =? 0) then -1
      else
        let a := wrap lo in
        if a <? 0 then -1 else a.

(** [pixelBufferLength(bytesPerPixel, r, name)]: the length of the [Pix]
    slice of a new image, a panic ([None]) where [mul3NonNeg] gives -1. *)
Definition pixelBufferLength (bytesPerPixel : Z) (r : Rectangle) : option Z :=
  let totalLength := mul3NonNeg bytesPerPixel (Dx r) (Dy r) in
  if totalLength <? 0 then None else Some totalLength.

(** [image.NewRGBA(r)]: [Pix] is [make([]uint8, pixelBufferLength(4, r,
    "RGBA"))], [Stride] is [4 * r.Dx()]. *)
Definition NewRGBA (r : Rectangle) : option RGBAImage :=
  match pixelBufferLength 4 r with
  | None => None
  | Some n => Some {| rgba_Pix := replicate (Z.to_nat n) 0;
                      rgba_Stride := int_mul 4 (Dx r); rgba_Rect := r |}
  end.

Definition RGBA_PixOffset (p : RGBAImage) (x y : Z) : Z :=
  int_add (int_mul (int_sub y (pt_Y (Min (rgba_Rect p)))) (rgba_Stride p))
          (int_mul (int_sub x (pt_X (Min (rgba_Rect p)))) 4).

(** [p.Set(x, y, c)] for a [color.RGBA] c: nothing happens outside the
    rectangle; inside, the four stores through [p.Pix[i : i+4 : i+4]]
    panic ([None]) when the slice expression is out of range. *)
Definition RGBA_Set (p : RGBAImage) (x y : Z) (c : RGBA) : option RGBAImage :=
  if negb (point_In x y (rgba_Rect p)) then Some p
  else
    let i := RGBA_PixOffset p x y in
    if (0 <=? i) && (i <=? int_add i 4) && (int_add i 4 <=? len (rgba_Pix p))
    then Some {| rgba_Pix := <[Z.to_nat (i + 3) := alpha c]>
                             (<[Z.to_nat (i + 2) := blue c]>
                             (<[Z.to_nat (i + 1) := green c]>
                             (<[Z.to_nat i := red c]> (rgba_Pix p))));
                 rgba_Stride := rgba_Stride p; rgba_Rect := rgba_Rect p |}
    else None.

(** [p.RGBAAt(x, y)]: the zero colour outside the rectangle. *)
Definition RGBAAt (p : RGBAImage) (x y : Z) : option RGBA :=
  if negb (point_In x y (rgba_Rect p)) then Some (mkRGBA 0 0 0 0)
  else
    let i := RGBA_PixOffset p x y in
    if (0 <=? i) && (i <=? int_add i 4) && (int_add i 4 <=? len (rgba_Pix p))
    then match rgba_Pix p !! Z.to_nat i, rgba_Pix p !! Z.to_nat (i + 1),
               rgba_Pix p !! Z.to_nat (i + 2), rgba_Pix p !! Z.to_nat (i + 3) with
         | Some r, Some g, Some b, Some a => Some (mkRGBA r g b a)
         | _, _, _, _ => None
         end
    else None.

(** Computations on an RGBA image. *)
Definition Paint (A : Type) : Type := RGBAImage -> result (A * RGBAImage).

#[export] Instance Paint_ret : MRet Paint := fun A a img => Value (a, img).
#[export] Instance Paint_bind : MBind Paint := fun A B f m img =>
  match m img with
  | Value (a, img') => f a img'
  | Panicked => Panicked
  | Exhausted => Exhausted
  end.

(** [img.Set(x, y, c)]. *)
Definition paint_set (x y : Z) (c : RGBA) : Paint unit := fun img =>
  match RGBA_Set img x y c with
  | Some img' => Value (tt, img')
  | None => Panicked
  end.

(** A call that does not touch the image. *)
Definition paint_call {A} (r : result A) : Paint A := fun img =>
  match r with
  | Value a => Value (a, img)
  | Panicked => Panicked
  | Exhausted => Exhausted
  end.

(** [for i := i0; cond(i); i++ { body(i) }] on an RGBA image. *)
Fixpoint paint_for (fuel : nat) (cond : Z -> bool) (i : Z)
    (body : Z -> Paint unit) : Paint unit :=
  match fuel with
  | O => fun _ => Exhausted
  | S fuel' =>
      if cond i
      then body i ;; paint_for fuel' cond (int_add i 1) body
      else mret tt
  end.

(** ** Images of the showcase program *)

(** The point of the complex plane [CreateMandelbrotImage] takes for the
    pixel (px, py). *)
Definition mandelbrot_point (px py width height : Z) : complex128 :=
  let xmin := (-2.5)%float in
  let xmax := 1%float in
  let ymin := (-1.25)%float in
  let ymax := 1.25%float in
  let x := (xmin + (xmax - xmin) * float64_of_int px / float64_of_int width)%float in
  let y := (ymin + (ymax - ymin) * float64_of_int py / float64_of_int height)%float in
  mkComplex x y.

Definition CreateMandelbrotImage (fuel : nat) (width height maxIter : Z)
    : result RGBAImage :=
  match NewRGBA (Rect 0 0 width height) with
  | None => Panicked
  | Some img =>
      match
        paint_for fuel (fun py => py <? height) 0 (fun py =>
          paint_for fuel (fun px => px <? width) 0 (fun px =>
            let c := mandelbrot_point px py width height in
            colour ← paint_call (mandelbrot_pixel fuel c maxIter);
            paint_set px py colour)) img
      with
      | Value (_, img) => Value img
      | Panicked => Panicked
      | Exhausted => Exhausted
      end
  end.

(** [math.Min] and [math.Max]. *)
Definition math_Min (x y : float) : float :=
  if (x =? neg_infinity)%float || (y =? neg_infinity)%float then neg_infinity
  else if is_nan x || is_nan y then nan
  else if (x =? 0)%float && (x =? y)%float then (if get_sign x then x else y)
  else if (x <? y)%float then x else y.

Definition math_Max (x y : float) : float :=
  if (x =? infinity)%float || (y =? infinity)%float then infinity
  else if is_nan x || is_nan y then nan
  else if (x =? 0)%float && (x =? y)%float then (if get_sign x then y else x)
  else if (y <? x)%float then x else y.

(** The loop of [CreateLorenzImage] that skips the transient. *)
Fixpoint skip_loop (fuel : nat) (i : Z) (lorenz : LorenzAttractor)
    : result LorenzAttractor :=
  match fuel with
  | O => Exhausted
  | S fuel' =>
      if i <? 1000 then skip_loop fuel' (int_add i 1) (snd (NextPoint lorenz))
      else Value lorenz
  end.

(** The colour of a plotted point, from its y coordinate. *)
Definition lorenz_colour (point : Point3D) : RGBA :=
  let intensity := uint8_of_float64 (math_Max 0 (math_Min 255 ((Y point + 30) * 3))) in
  mkRGBA intensity (intensity / 2) ((255 - intensity) mod 256) 255.

(** The loop of [CreateLorenzImage] that plots the points. *)
Fixpoint plot_loop (fuel : nat) (width height iterations : Z)
    (scaleX scaleY centerX centerY : float) (i : Z)
    (lorenz : LorenzAttractor) (img : RGBAImage) : result RGBAImage :=
  match fuel with
  | O => Exhausted
  | S fuel' =>
      if i <? iterations then
        let '(point, lorenz) := NextPoint lorenz in
        let x := int_of_float64 (X point * scaleX + centerX) in
        let y := int_of_float64 (Zc point * scaleY + centerY) in
        if (x >=? 0) && (x <? width) && (y >=? 0) && (y <? height) then
          match RGBA_Set img x y (lorenz_colour point) with
          | Some img =>
              plot_loop fuel' width height iterations scaleX scaleY centerX centerY
                (int_add i 1) lorenz img
          | None => Panicked
          end
        else
          plot_loop fuel' width height iterations scaleX scaleY centerX centerY
            (int_add i 1) lorenz img
      else Value img
  end.

Definition CreateLorenzImage (fuel : nat) (width height iterations : Z)
    : result RGBAImage :=
  match NewRGBA (Rect 0 0 width height) with
  | None => Panicked
  | Some img =>
      match
        paint_for fuel (fun y => y <? height) 0 (fun y =>
          paint_for fuel (fun x => x <? width) 0 (fun x =>
            paint_set x y (mkRGBA 0 0 0 255))) img
      with
      | Value (_, img) =>
          match skip_loop fuel 0 NewLorenzAttractor with
          | Value lorenz =>
              let scaleX := (float64_of_int width / 60)%float in
              let scaleY := (float64_of_int height / 60)%float in
              let centerX := (float64_of_int width / 2)%float in
              let centerY := (float64_of_int height / 2)%float in
              plot_loop fuel width height iterations scaleX scaleY centerX centerY
                0 lorenz img
          | Panicked => Panicked
          | Exhausted => Exhausted
          end
      | Panicked => Panicked
      | Exhausted => Exhausted
      end
  end.

(** ** The animation, up to the encoding of the file *)

(** [for i := 0; i < n; i++ { lorenz.Step() }]. *)
Fixpoint step_loop (fuel : nat) (n i : Z) (lorenz : LorenzSystem)
    : result LorenzSystem :=
  match fuel with
  | O => Exhausted
  | S fuel' =>
      if i <? n then step_loop fuel' n (int_add i 1) (snd (Step lorenz))
      else Value lorenz
  end.

(** The loop over the frames of [CreateLorenzAnimation]; [frame],
    [lorenz], [images] and [delays] are its variables ([inner] bounds the
    loops of the calls made in its body). *)
Fixpoint frame_loop (fuel inner : nat) (width height frames frame : Z)
    (lorenz : LorenzSystem) (images : list Paletted) (delays : list Z)
    : result (list Paletted * list Z) :=
  match fuel with
  | O => Exhausted
  | S fuel' =>
      if frame <? frames then
        let rotationX := 0%float in
        let rotationY := 0%float in
        match step_loop inner 10 0 lorenz with
        | Value lorenz =>
            match CreateFrame inner lorenz width height rotationX rotationY frame with
            | Returns _ c =>
                frame_loop fuel' inner width height frames (int_add frame 1) lorenz
                  (images ++ [image c]) (delays ++ [1])
            | Panics => Panicked
            | OutOfFuel _ => Exhausted
            end
        | Panicked => Panicked
        | Exhausted => Exhausted
        end
      else Value (images, delays)
  end.

(** [CreateLorenzAnimation] up to its call of [gif.EncodeAll]: the
    images and the delays it hands over.  The progress messages and the
    file are left out. *)
Definition CreateLorenzAnimation_frames (fuel : nat) (width height frames : Z)
    : result (list Paletted * list Z) :=
  match NewLorenzSystem 2000 with
  | None => Panicked
  | Some lorenz =>
      match step_loop fuel 1000 0 lorenz with
      | Value lorenz => frame_loop fuel fuel width height frames 0 lorenz [] []
      | Panicked => Panicked
      | Exhausted => Exhausted
      end
  end.

(** * Vocabulary of the properties *)

(** The invariant of an image made by [NewPaletted]: a rectangle whose
    sides an [int] can measure, one byte per pixel. *)
Definition wf_image (im : Paletted) : Prop :=
  let r := Bounds im in
  let w := pt_X (Max r) - pt_X (Min r) in
  let h := pt_Y (Max r) - pt_Y (Min r) in
  is_int (pt_X (Min r)) /\ is_int (pt_Y (Min r)) /\
  is_int (pt_X (Max r)) /\ is_int (pt_Y (Max r)) /\
  0 <= w <= max_int /\ 0 <= h <= max_int /\ w * h <= max_int /\
  Stride im = w /\ len (Pix im) = w * h.

(** The image after a list of stores. *)
Definition replay (calls : list (Z * Z * Z)) (im : Paletted) : option Paletted :=
  foldl (fun o '(x, y, k) =>
           match o with Some im => SetColorIndex im x y k | None => None end)
        (Some im) calls.

(** The computation returned a value satisfying [Q], or ran out of fuel;
    [c'] is the canvas it left. *)
Definition stopped {A} (o : outcome A) (Q : A -> Prop) (c' : canvas) : Prop :=
  o = OutOfFuel c' \/ exists a, o = Returns a c' /\ Q a.

(** [paints P Q r m]: on a well-formed image of rectangle [r] the
    computation [m] never panics; whether it returns or is cut short, the
    calls it added to the history all satisfy [P], they account for the
    whole change of the image, and the image is still well formed on [r]. *)
Definition paints (P : Z * Z * Z -> Prop) {A} (Q : A -> Prop) (r : Rectangle)
    (m : Draw A) : Prop :=
  forall c, wf_image (image c) -> Bounds (image c) = r ->
    exists c' new, stopped (m c) Q c' /\
      wf_image (image c') /\ Bounds (image c') = r /\
      history c' = history c ++ new /\ Forall P new /\
      replay new (image c) = Some (image c').

(** The calls the program's guard lets through. *)
Definition in_bounds (r : Rectangle) (call : Z * Z * Z) : Prop :=
  let '(x, y, _) := call in 0 <= x < Dx r /\ 0 <= y < Dy r.

(** What C6 asks of one call on the canvas [c]: no panic; every store it
    issued, also when it never returns, lies within the guard; the image
    keeps its rectangle, and no pixel outside the guard has changed. *)
Definition drawn_within (c : canvas) {A} (o : outcome A) : Prop :=
  exists c' new,
    (o = OutOfFuel c' \/ exists a, o = Returns a c') /\
    history c' = history c ++ new /\
    Forall (in_bounds (Bounds (image c))) new /\
    wf_image (image c') /\ Bounds (image c') = Bounds (image c) /\
    (forall x y,
       ~ (0 <= x < Dx (Bounds (image c)) /\ 0 <= y < Dy (Bounds (image c))) ->
       ColorIndexAt (image c') x y = ColorIndexAt (image c) x y).

(** [returns Q r m]: on a well-formed image of rectangle [r] the
    computation [m] returns, with a value satisfying [Q]. *)
Definition returns {A} (Q : A -> Prop) (r : Rectangle) (m : Draw A) : Prop :=
  forall c, wf_image (image c) -> Bounds (image c) = r ->
    exists a c', m c = Returns a c' /\ Q a /\
                 wf_image (image c') /\ Bounds (image c') = r.

(** A blank image, 8 wide and 3 high, to run the drawing code on. *)
Definition canvas_8x3 : canvas :=
  {| image := {| Pix := replicate 24 0; Stride := 8; Bounds := Rect 0 0 8 3 |};
     history := [] |}.

(** One pass through the body of the loop, on its three variables. *)
Definition line_step (dx dy sx sy : Z) (st : Z * Z * Z) : Z * Z * Z :=
  let '(x1, y1, err) := st in
  let e2 := int_mul 2 err in
  let '(err, x1) := if e2 >? int_neg dy
                    then (int_sub err dy, int_add x1 sx) else (err, x1) in
  let '(err, y1) := if e2 <? dx
                    then (int_add err dx, int_add y1 sy) else (err, y1) in
  (x1, y1, err).

(** The invariant of the loop of [drawLine] from (xa, ya), for the
    differences [dx], [dy] and directions [sx], [sy]: [a] steps were taken
    along x and [b] along y. *)
Definition line_inv (xa ya dx dy sx sy a b x y err : Z) : Prop :=
  0 <= a <= dx /\ 0 <= b <= dy /\
  x = xa + sx * a /\ y = ya + sy * b /\
  err = dx - dy - a * dy + b * dx /\
  - 2 * dy <= err <= 2 * dx.

(** The two loops that clear the image. *)
Definition fill (fuel : nat) (width height : Z) : Draw unit :=
  for_loop fuel (fun y => y <? height) 0 (fun y =>
    for_loop fuel (fun x => x <? width) 0 (fun x => setColorIndex x y 0)).

(** The real number [2^e]. *)
Definition bpow (e : Z) : R := powerRZ 2 e.
Arguments bpow : simpl never.

(** The exponent binary64 gives a number of magnitude [e]: 53 bits of
    mantissa, nothing below [2^-1074]. *)
Definition fexp64 (e : Z) : Z := Z.max (e - 53) (-1074).

(** The real number a finite binary float stands for (0 for the others). *)
Definition SF2R (x : spec_float) : R :=
  match x with
  | S754_finite s m e => ((if s then - IZR (Zpos m) else IZR (Zpos m)) * bpow e)%R
  | _ => 0%R
  end.

(** [x] is +0 or a positive finite number. *)
Definition fin_nonneg (x : spec_float) : Prop :=
  match x with
  | S754_zero false | S754_finite false _ _ => True
  | _ => False
  end.

(** [r] is [x] rounded, down or up, to a multiple of [2^E]. *)
Definition faithful (x : R) (E : Z) (r : R) : Prop :=
  (exists m2 : Z, r = IZR m2 * bpow E)%R /\ (r - bpow E <= x < r + bpow E)%R.

(** The orbit of 0 under z -> z*z + c, and the escape test. *)
Definition mandel_next (c z : complex128) : complex128 :=
  complex_add (complex_mul z z) c.
Definition mandel_orbit (c : complex128) (n : nat) : complex128 :=
  Nat.iter n (mandel_next c) (mkComplex 0 0).
Definition escaped (z : complex128) : bool :=
  (4 <? real z * real z + imag z * imag z)%float.

(** Consecutive entries of [t] are one Euler step apart. *)
Definition orbit_segment (sigma rho beta dt : float) (t : list Point3D) : Prop :=
  forall (i : nat) (p q : Point3D),
    t !! i = Some p -> t !! S i = Some q -> q = euler_step sigma rho beta dt p.

(** [draws r m l]: on a well-formed image of rectangle [r] the
    computation [m] returns, and the calls of [SetColorIndex] it issued
    are exactly [l], in this order. *)
Definition draws (r : Rectangle) (m : Draw unit) (l : list (Z * Z * Z)) : Prop :=
  forall c, wf_image (image c) -> Bounds (image c) = r ->
    exists c', m c = Returns tt c' /\
      wf_image (image c') /\ Bounds (image c') = r /\
      history c' = history c ++ l /\
      replay l (image c) = Some (image c').

(** The store at (x, y), when the guard of the program lets it through. *)
Definition guarded (r : Rectangle) (x y k : Z) : list (Z * Z * Z) :=
  if in_image r x y then [(x, y, k)] else [].

(** The stores of [drawChar], bitmap row after bitmap row. *)
Definition char_calls (r : Rectangle) (x y : Z) (char : ascii) (k : Z)
    : list (Z * Z * Z) :=
  mjoin (imap (fun (row : nat) (line : list bool) =>
    mjoin (imap (fun (col : nat) (pixel : bool) =>
      if pixel
      then guarded r (int_add x (Z.of_nat col)) (int_add y (Z.of_nat row)) k
      else []) line)) (glyph char)).

(** The stores of [drawText], character after character. *)
Definition text_calls (r : Rectangle) (x y : Z) (text : list ascii) (k : Z)
    : list (Z * Z * Z) :=
  mjoin (imap (fun (i : nat) (char : ascii) =>
    char_calls r (int_add x (int_mul (Z.of_nat i) 6)) y char k) text).

(** The bitmap of the [default] branch of [drawChar]: one dot. *)
Definition dot : list (list bool) :=
  [ [false; false; false];
    [false; false; false];
    [false; true; false];
    [false; false; false];
    [false; false; false] ].

(** The characters [drawChar] has a bitmap for. *)
Definition in_table (char : ascii) : Prop :=
  char = "L"%char \/ char = "o"%char \/ char = "r"%char \/ char = "e"%char \/
  char = "n"%char \/ char = "z"%char \/ char = " "%char.

(** A store that passes the guard and carries a [uint8]. *)
Definition byte_in_bounds (r : Rectangle) (call : Z * Z * Z) : Prop :=
  in_bounds r call /\ 0 <= call.2 <= 255.

(** What [CreateFrame] does on the image it has made. *)
Definition frame_body (fuel : nat) (lorenz : LorenzSystem) (width height : Z)
    (rotationX rotationY : float) (frameNum : Z) : Draw unit :=
  fill fuel width height ;;
  let trail := GetTrail lorenz in
  if len trail <? 2 then mret tt
  else
    for_loop fuel (fun i => i <? len trail) 1 (fun i =>
      p1 ← index trail (int_sub i 1);
      p2 ← index trail i;
      let '(x1, y1) := Project3DTo2D p1 width height rotationX rotationY in
      let '(x2, y2) := Project3DTo2D p2 width height rotationX rotationY in
      let colorIndex := segmentColorIndex i (len trail) in
      drawLine fuel x1 y1 x2 y2 colorIndex) ;;
    (if len trail >? 0 then
       current ← index trail (int_sub (len trail) 1);
       let '(x, y) := Project3DTo2D current width height rotationX rotationY in
       drawCircle fuel x y 3 255
     else mret tt) ;;
    drawText 10 20 (frameLabel frameNum) 200 ;;
    drawText 10 35 "Lorenz Attractor Animation" 150.

(** The stores of [drawCircle] where no coordinate wraps around: row
    after row of the square around the centre, the points of the disc
    that pass the guard. *)
Definition circle_calls (r : Rectangle) (centerX centerY radius k : Z)
    : list (Z * Z * Z) :=
  seqZ (- radius) (2 * radius + 1) ≫= fun y =>
  seqZ (- radius) (2 * radius + 1) ≫= fun x =>
  if x * x + y * y <=? radius * radius
  then guarded r (centerX + x) (centerY + y) k else [].

(** The pixel (px, py) is one of the disc around (cx, cy). *)
Definition in_disc (cx cy radius px py : Z) : Prop :=
  (px - cx) * (px - cx) + (py - cy) * (py - cy) <= radius * radius.

(** The invariant of the loop of [drawLine] with the number [n] of
    passes made: one step along the longer side of the bounding box in
    every pass, and a deviation from the straight line, [b*dx - a*dy],
    of half the longer side at most. *)
Definition line_inv2 (xa ya dx dy sx sy n a b x y err : Z) : Prop :=
  line_inv xa ya dx dy sx sy a b x y err /\
  (dy <= dx -> a = n) /\ (dx <= dy -> b = n) /\
  - Z.max dx dy <= 2 * (b * dx - a * dy) <= Z.max dx dy.

(** [p] is a point Bresenham's algorithm may visit in pass [n] on the way
    from (x1, y1) to (x2, y2): [n] steps along the longer side, and off
    the straight line by half a pixel at most, measured along the shorter
    side. *)
Definition on_line (x1 y1 x2 y2 n : Z) (p : Z * Z) : Prop :=
  let dx := Z.abs (x2 - x1) in
  let dy := Z.abs (y2 - y1) in
  let sx := if x1 <? x2 then 1 else -1 in
  let sy := if y1 <? y2 then 1 else -1 in
  exists a b : Z,
    p = (x1 + sx * a, y1 + sy * b) /\
    0 <= a <= dx /\ 0 <= b <= dy /\
    (dy <= dx -> a = n) /\ (dx <= dy -> b = n) /\
    Z.abs (2 * (b * dx - a * dy)) <= Z.max dx dy.

(** The stores for a list of points: those that pass the guard. *)
Definition stores (r : Rectangle) (k : Z) (path : list (Z * Z)) : list (Z * Z * Z) :=
  path ≫= fun p => guarded r p.1 p.2 k.

(** [f] is not a number ([f != f], as [math.IsNaN] has it). *)
Definition NaN (f : float) : Prop := is_nan f = true.

(** All three coordinates of [p] are NaN. *)
Definition lost (p : Point3D) : Prop := NaN (X p) /\ NaN (Y p) /\ NaN (Zc p).

(** The invariant of an image made by [NewRGBA]. *)
Definition wf_rgba (im : RGBAImage) : Prop :=
  let r := rgba_Rect im in
  let w := pt_X (Max r) - pt_X (Min r) in
  let h := pt_Y (Max r) - pt_Y (Min r) in
  is_int (pt_X (Min r)) /\ is_int (pt_Y (Min r)) /\
  is_int (pt_X (Max r)) /\ is_int (pt_Y (Max r)) /\
  0 <= w <= max_int /\ 0 <= h <= max_int /\ 4 * w * h <= max_int /\
  (0 < h -> rgba_Stride im = 4 * w) /\ len (rgba_Pix im) = 4 * w * h.

(** The colours [CreateLorenzImage] uses: opaque black for the
    background, and for a plotted point a red byte r with r/2 of green
    and 255 - r of blue, opaque. *)
Definition lorenz_palette (c : RGBA) : Prop :=
  c = mkRGBA 0 0 0 255 \/
  exists r, 0 <= r <= 255 /\ c = mkRGBA r (r / 2) (255 - r) 255.

(** The first [n] points after [p] of the trajectory with the parameters
    of [NewLorenzSystem]. *)
Fixpoint orbit_from (n : nat) (p : Point3D) : list Point3D :=
  match n with
  | O => []
  | S k => let q := euler_step 10 28 (8 / 3) 0x1.47ae147ae147bp-7 p in
           q :: orbit_from k q
  end.

(** Both coordinates are within [B] of 0. *)
Definition within (B : Z) (xy : Z * Z) : bool :=
  (Z.abs xy.1 <=? B) && (Z.abs xy.2 <=? B).

(** The parameters [NewLorenzSystem] sets. *)
Definition classic (l : LorenzSystem) : Prop :=
  l_sigma l = 10%float /\ l_rho l = 28%float /\ l_beta l = (8 / 3)%float /\
  l_dt l = 0x1.47ae147ae147bp-7%float.

(** A frame with the two texts in it. *)
Definition titled (width height : Z) (im : Paletted) : Prop :=
  Bounds im = Rect 0 0 width height /\
  ColorIndexAt im 11 22 = Some 200 /\ ColorIndexAt im 10 35 = Some 150.

(** * Properties *)

(** Boolean tests of the program, read as propositions. *)
Ltac btp :=
  repeat match goal with
  | H : (_ && _) = true |- _ => apply andb_true_iff in H; destruct H
  | H : (_ >? _) = true |- _ => apply Z.gtb_lt in H
  | H : (_ >? _) = false |- _ => rewrite Z.gtb_ltb in H; apply Z.ltb_ge in H
  | H : (_ >=? _) = true |- _ => apply Z.geb_le in H
  | H : (_ >=? _) = false |- _ => rewrite Z.geb_leb in H; apply Z.leb_gt in H
  | H : (_ <? _) = true |- _ => apply Z.ltb_lt in H
  | H : (_ <? _) = false |- _ => apply Z.ltb_ge in H
  | H : (_ <=? _) = true |- _ => apply Z.leb_le in H
  | H : (_ <=? _) = false |- _ => apply Z.leb_gt in H
  | H : (_ =? _) = true |- _ => apply Z.eqb_eq in H
  | H : (_ =? _) = false |- _ => apply Z.eqb_neq in H
  end.

(** ** Integrator *)

Lemma Step_point (l : LorenzSystem) :
  fst (Step l) = euler_step (l_sigma l) (l_rho l) (l_beta l) (l_dt l) (position l).
Proof. reflexivity. Qed.

Lemma Step_position (l : LorenzSystem) :
  position (snd (Step l)) = fst (Step l).
Proof. unfold Step; simpl. by destruct (_ >? _). Qed.

Lemma Step_params (l : LorenzSystem) :
  let l' := snd (Step l) in
  l_sigma l' = l_sigma l /\ l_rho l' = l_rho l /\ l_beta l' = l_beta l /\
  l_dt l' = l_dt l /\ l_maxTrailLength l' = l_maxTrailLength l.
Proof. unfold Step; simpl. by destruct (_ >? _). Qed.

(** The trail after one step: the new point is appended, and the oldest
    entry leaves when the capacity is exceeded. *)
Lemma Step_trail (l : LorenzSystem) :
  l_trail (snd (Step l)) =
    if len (l_trail l) + 1 >? l_maxTrailLength l
    then drop 1 (l_trail l ++ [fst (Step l)])
    else l_trail l ++ [fst (Step l)].
Proof.
  unfold Step, len; simpl. rewrite length_app; simpl.
  replace (Z.of_nat (length (l_trail l) + 1)) with (Z.of_nat (length (l_trail l)) + 1) by lia.
  by destruct (_ >? _).
Qed.

(** C1: one integrator step takes the three derivatives at the pre-step
    state and returns, and stores, the forward Euler update of that state;
    [Step] and [NextPoint] both do. *)
Theorem C1_step_is_forward_euler :
  (forall l : LorenzSystem,
     let p := euler_step (l_sigma l) (l_rho l) (l_beta l) (l_dt l) (position l) in
     fst (Step l) = p /\ position (snd (Step l)) = p) /\
  (forall a : LorenzAttractor,
     let p := euler_step (a_sigma a) (a_rho a) (a_beta a) (a_dt a) (a_position a) in
     fst (NextPoint a) = p /\ a_position (snd (NextPoint a)) = p) /\
  (forall sigma rho beta dt x y z,
     euler_step sigma rho beta dt (mkPoint3D x y z) =
       mkPoint3D (x + sigma * (y - x) * dt)
                 (y + (x * (rho - z) - y) * dt)
                 (z + (x * y - beta * z) * dt))%float.
Proof.
  split; [|split].
  - intros l p. split; [apply Step_point|]. rewrite Step_position. apply Step_point.
  - intros a p. split; reflexivity.
  - reflexivity.
Qed.

(** The update is simultaneous: with the new x fed into dy (an in-place,
    one variable after the other update) the second step from the initial
    state would already differ. *)
Example sequential_update_differs :
  let l := snd (Step (mkLorenzSystem 10 28 (8 / 3) 0x1.47ae147ae147bp-7 1 1 1 [] 0)) in
  let x' := (l_x l + l_sigma l * (l_y l - l_x l) * l_dt l)%float in
  Y (fst (Step l)) <> (l_y l + (x' * (l_rho l - l_z l) - l_y l) * l_dt l)%float.
Proof. vm_compute. discriminate. Qed.

(** C10: the point [Step] returns is the position the system now holds,
    and with a capacity of at least one it is the newest trail entry. *)
Theorem C10_returned_point_is_state_and_newest (l : LorenzSystem) :
  let '(p, l') := Step l in
  p = position l' /\
  (1 <= l_maxTrailLength l -> last (GetTrail l') = Some p).
Proof.
  destruct (Step l) as [p l'] eqn:E.
  assert (Hp : p = fst (Step l)) by (by rewrite E).
  assert (Hl : l' = snd (Step l)) by (by rewrite E).
  split.
  - by rewrite Hp, Hl, Step_position.
  - intros Hcap. unfold GetTrail. rewrite Hl, Step_trail, <- Hp.
    destruct (_ >? _) eqn:G.
    + destruct (l_trail l) as [|q t] eqn:T.
      * unfold len in G; simpl in G. btp. lia.
      * simpl. rewrite drop_0. apply last_snoc.
    + apply last_snoc.
Qed.

Lemma C10_witness :
  let l := mkLorenzSystem 10 28 (8 / 3) 0x1.47ae147ae147bp-7 1 1 1 [] 1 in
  1 <= l_maxTrailLength l /\
  let '(p, l') := Step l in
  p = position l' /\ (1 <= l_maxTrailLength l -> last (GetTrail l') = Some p).
Proof.
  split; [simpl; lia|].
  apply (C10_returned_point_is_state_and_newest
           (mkLorenzSystem 10 28 (8 / 3) 0x1.47ae147ae147bp-7 1 1 1 [] 1)).
Defined.

Lemma run_steps_S (n : nat) (l : LorenzSystem) :
  run_steps (S n) l =
    (fst (Step l) :: fst (run_steps n (snd (Step l))),
     snd (run_steps n (snd (Step l)))).
Proof.
  cbn [run_steps]. destruct (Step l) as [p l1]. cbn [fst snd].
  by destruct (run_steps n l1).
Qed.

(** The capacity never changes. *)
Lemma run_steps_maxTrailLength (n : nat) (l : LorenzSystem) :
  l_maxTrailLength (snd (run_steps n l)) = l_maxTrailLength l.
Proof.
  revert l. induction n as [|n IH]; intros l; [done|].
  rewrite run_steps_S. cbn [snd]. rewrite IH. apply Step_params.
Qed.

Lemma run_steps_length (n : nat) (l : LorenzSystem) :
  length (fst (run_steps n l)) = n.
Proof.
  revert l. induction n as [|n IH]; intros l; [done|].
  rewrite run_steps_S. cbn [fst length]. by rewrite IH.
Qed.

(** The trail is a window on the stream of generated points: after [n]
    steps it is what is left of the old trail followed by the new points,
    cut at the front down to the capacity. *)
Lemma run_steps_trail (n : nat) (l : LorenzSystem) :
  0 <= l_maxTrailLength l ->
  len (l_trail l) <= l_maxTrailLength l ->
  l_trail (snd (run_steps n l)) =
    drop (Z.to_nat (len (l_trail l ++ fst (run_steps n l)) - l_maxTrailLength l))
         (l_trail l ++ fst (run_steps n l)).
Proof.
  revert l. induction n as [|n IH]; intros l Hcap Hlen.
  - cbn [run_steps fst snd]. rewrite app_nil_r.
    replace (Z.to_nat _) with O by lia. by rewrite drop_0.
  - rewrite run_steps_S. cbn [fst snd].
    set (p := fst (Step l)). set (l1 := snd (Step l)).
    assert (Hm : l_maxTrailLength l1 = l_maxTrailLength l) by apply Step_params.
    assert (Ht : l_trail l1 =
                 drop (Z.to_nat (len (l_trail l) + 1 - l_maxTrailLength l))
                      (l_trail l ++ [p])).
    { unfold l1. rewrite Step_trail. fold p. destruct (_ >? _) eqn:G; btp.
      - by replace (Z.to_nat _) with 1%nat by lia.
      - replace (Z.to_nat _) with 0%nat by lia. by rewrite drop_0. }
    assert (Hlen1 : len (l_trail l1) <= l_maxTrailLength l).
    { rewrite Ht. unfold len in *. rewrite length_drop, length_app. simpl. lia. }
    rewrite (IH l1) by (rewrite Hm; done). rewrite Hm, Ht. unfold len in *.
    set (ps := fst (run_steps n l1)).
    set (d := Z.to_nat (Z.of_nat (length (l_trail l)) + 1 - l_maxTrailLength l)).
    assert (Hd : (d <= length (l_trail l ++ [p]))%nat)
      by (rewrite length_app; simpl; lia).
    replace (l_trail l ++ p :: ps) with ((l_trail l ++ [p]) ++ ps)
      by (by rewrite <- app_assoc).
    rewrite <- (drop_app_le (l_trail l ++ [p]) ps d Hd).
    rewrite drop_drop. f_equal.
    rewrite !length_app, length_drop, !length_app. simpl. lia.
Qed.

(** C2: on a fresh system of capacity N >= 0 the trail holds min(n, N)
    points after n steps, so never more than N. *)
Theorem C2_trail_length (N : Z) (n : nat) :
  0 <= N ->
  exists l0, NewLorenzSystem N = Some l0 /\
    let l := snd (run_steps n l0) in
    len (GetTrail l) = Z.min (Z.of_nat n) N /\ len (GetTrail l) <= N.
Proof.
  intros HN. unfold NewLorenzSystem.
  destruct (N <? 0) eqn:G; [btp; lia|].
  eexists; split; [reflexivity|]. simpl.
  match goal with |- context [run_steps n ?l] => set (l0 := l) end.
  pose proof (run_steps_length n l0) as Hn.
  unfold GetTrail. rewrite (run_steps_trail n l0) by (unfold len; simpl; lia).
  unfold len. rewrite length_drop, length_app, Hn. simpl. lia.
Qed.

Lemma C2_witness :
  0 <= 3 /\
  exists l0, NewLorenzSystem 3 = Some l0 /\
    let l := snd (run_steps 5 l0) in
    len (GetTrail l) = Z.min (Z.of_nat 5) 3 /\ len (GetTrail l) <= 3.
Proof. split; [lia|]. apply (C2_trail_length 3 5). lia. Defined.

(** C3: once more than N >= 1 points were generated, the trail is the
    last N of them in generation order, and its oldest entry is point
    number n - N + 1 (index n - N counting from 0). *)
Theorem C3_trail_is_fifo_window (N : Z) (n : nat) :
  1 <= N -> N < Z.of_nat n ->
  exists l0, NewLorenzSystem N = Some l0 /\
    let '(generated, l) := run_steps n l0 in
    GetTrail l = drop (n - Z.to_nat N) generated /\
    len (GetTrail l) = N /\
    head (GetTrail l) = generated !! (n - Z.to_nat N)%nat /\
    is_Some (head (GetTrail l)).
Proof.
  intros HN Hn. unfold NewLorenzSystem.
  destruct (N <? 0) eqn:G; [btp; lia|].
  eexists; split; [reflexivity|].
  match goal with |- context [run_steps n ?l] => set (l0 := l) end.
  pose proof (run_steps_trail n l0) as H.
  pose proof (run_steps_length n l0) as Hlen.
  destruct (run_steps n l0) as [generated l]. cbn [fst snd] in *.
  unfold GetTrail. rewrite H by (unfold len; simpl; lia).
  unfold len in *. cbn [l0 l_trail l_maxTrailLength app]. rewrite Hlen.
  replace (Z.to_nat (Z.of_nat n - N)) with (n - Z.to_nat N)%nat by lia.
  assert (Hk : (n - Z.to_nat N < length generated)%nat) by lia.
  destruct (lookup_lt_is_Some_2 generated _ Hk) as [p Hp].
  rewrite length_drop, Hlen, Hp.
  assert (Hh : head (drop (n - Z.to_nat N) generated) = Some p).
  { rewrite <- (take_drop_middle generated _ p Hp) at 1.
    rewrite drop_app_length'; [done|].
    rewrite length_take. lia. }
  rewrite Hh. repeat split; [lia|by eexists].
Qed.

Lemma C3_witness :
  1 <= 2 /\ 2 < Z.of_nat 5 /\
  exists l0, NewLorenzSystem 2 = Some l0 /\
    let '(generated, l) := run_steps 5 l0 in
    GetTrail l = drop (5 - Z.to_nat 2) generated /\
    len (GetTrail l) = 2 /\
    head (GetTrail l) = generated !! (5 - Z.to_nat 2)%nat /\
    is_Some (head (GetTrail l)).
Proof. split; [lia|]. split; [lia|]. apply (C3_trail_is_fifo_window 2 5); lia. Defined.

(** ** Projection *)

(** C4: the projection is a function of the point and the image size
    alone; the two rotation arguments do not reach the result. *)
Theorem C4_projection_ignores_rotation (p : Point3D) (width height : Z)
    (rotationX rotationY rotationX' rotationY' : float) :
  Project3DTo2D p width height rotationX rotationY =
  Project3DTo2D p width height rotationX' rotationY'.
Proof. reflexivity. Qed.

(** ** Machine arithmetic within range *)

Lemma wrap_id (z : Z) : is_int z -> wrap z = z.
Proof.
  unfold is_int, min_int, max_int, wrap. intros H.
  rewrite Z.mod_small; lia.
Qed.

Lemma wrap_is_int (z : Z) : is_int (wrap z).
Proof.
  unfold is_int, min_int, max_int, wrap.
  pose proof (Z.mod_pos_bound (z + 2 ^ 63) (2 ^ 64)). lia.
Qed.

(** ** Well-formed images *)

Lemma wf_Dx (im : Paletted) :
  wf_image im -> Dx (Bounds im) = pt_X (Max (Bounds im)) - pt_X (Min (Bounds im)).
Proof. intros H. unfold Dx, int_sub. apply wrap_id. unfold wf_image, is_int, min_int, max_int in *. lia. Qed.

Lemma wf_Dy (im : Paletted) :
  wf_image im -> Dy (Bounds im) = pt_Y (Max (Bounds im)) - pt_Y (Min (Bounds im)).
Proof. intros H. unfold Dy, int_sub. apply wrap_id. unfold wf_image, is_int, min_int, max_int in *. lia. Qed.

Lemma PixOffset_wf (im : Paletted) (x y : Z) :
  wf_image im -> point_In x y (Bounds im) = true ->
  PixOffset im x y =
    (y - pt_Y (Min (Bounds im))) * Stride im + (x - pt_X (Min (Bounds im))) /\
  0 <= x - pt_X (Min (Bounds im)) < Stride im /\
  0 <= PixOffset im x y < len (Pix im).
Proof.
  intros (HmX & HmY & HMX & HMY & Hw & Hh & Hwh & HS & HL) Hin.
  unfold point_In in Hin. btp.
  set (mx := pt_X (Min (Bounds im))) in *. set (my := pt_Y (Min (Bounds im))) in *.
  set (Mx := pt_X (Max (Bounds im))) in *. set (My := pt_Y (Max (Bounds im))) in *.
  assert (Hrow : 0 <= (y - my) * (Mx - mx) <= (My - my - 1) * (Mx - mx)) by nia.
  assert (Hoff : 0 <= (y - my) * (Mx - mx) + (x - mx) < (Mx - mx) * (My - my)) by nia.
  unfold PixOffset. fold mx my. rewrite HS, HL. unfold int_add, int_mul, int_sub.
  unfold is_int, min_int, max_int in *.
  rewrite (wrap_id (y - my)) by (unfold is_int, min_int, max_int; lia).
  rewrite (wrap_id (x - mx)) by (unfold is_int, min_int, max_int; lia).
  rewrite (wrap_id ((y - my) * _)) by (unfold is_int, min_int, max_int; nia).
  rewrite (wrap_id ((x - mx) * 1)) by (unfold is_int, min_int, max_int; lia).
  rewrite wrap_id by (unfold is_int, min_int, max_int; nia).
  lia.
Qed.

(** On a well-formed image [SetColorIndex] cannot panic, and the image
    stays well formed, on the same rectangle. *)
Lemma SetColorIndex_wf (im : Paletted) (x y k : Z) :
  wf_image im ->
  exists im', SetColorIndex im x y k = Some im' /\ wf_image im' /\
              Bounds im' = Bounds im.
Proof.
  intros Hwf. unfold SetColorIndex.
  destruct (point_In x y (Bounds im)) eqn:Hin; simpl; [|by eauto].
  destruct (PixOffset_wf im x y Hwf Hin) as (_ & _ & Hr).
  unfold len in Hr.
  destruct (0 <=? PixOffset im x y) eqn:G1; btp; [|lia].
  destruct (PixOffset im x y <? Z.of_nat (length (Pix im))) eqn:G2; btp; [|lia].
  simpl. eexists; split; [reflexivity|]. split; [|done].
  unfold wf_image, len in *; simpl. rewrite length_insert. done.
Qed.

(** A store changes no other pixel. *)
Lemma SetColorIndex_other (im im' : Paletted) (x y k x' y' : Z) :
  wf_image im -> SetColorIndex im x y k = Some im' ->
  (x', y') <> (x, y) ->
  ColorIndexAt im' x' y' = ColorIndexAt im x' y'.
Proof.
  intros Hwf Hset Hne. unfold SetColorIndex in Hset.
  destruct (point_In x y (Bounds im)) eqn:Hin; simpl in Hset; [|by inversion Hset].
  destruct (PixOffset_wf im x y Hwf Hin) as (Ho & Hx & Hr).
  destruct ((0 <=? PixOffset im x y) && _) eqn:G; [|done].
  inversion Hset; subst im'; clear Hset.
  unfold ColorIndexAt; simpl.
  destruct (point_In x' y' (Bounds im)) eqn:Hin'; simpl; [|done].
  destruct (PixOffset_wf im x' y' Hwf Hin') as (Ho' & Hx' & Hr').
  change (PixOffset {| Pix := <[Z.to_nat (PixOffset im x y):=k]> (Pix im);
                       Stride := Stride im; Bounds := Bounds im |} x' y')
    with (PixOffset im x' y').
  rewrite length_insert.
  destruct ((0 <=? PixOffset im x' y') && _) eqn:G'; [|done].
  apply list_lookup_insert_ne.
  intros Heq. apply Hne.
  assert (PixOffset im x y = PixOffset im x' y') as E by lia.
  rewrite Ho, Ho' in E.
  assert (y - pt_Y (Min (Bounds im)) = y' - pt_Y (Min (Bounds im))) by nia.
  f_equal; lia.
Qed.

(** A store is read back. *)
Lemma SetColorIndex_same (im im' : Paletted) (x y k : Z) :
  wf_image im -> SetColorIndex im x y k = Some im' ->
  point_In x y (Bounds im) = true ->
  ColorIndexAt im' x y = Some k.
Proof.
  intros Hwf Hset Hin. unfold SetColorIndex in Hset. rewrite Hin in Hset. simpl in Hset.
  destruct (PixOffset_wf im x y Hwf Hin) as (Ho & Hx & Hr).
  destruct ((0 <=? PixOffset im x y) && _) eqn:G; [|done].
  inversion Hset; subst im'; clear Hset.
  unfold ColorIndexAt; simpl. rewrite Hin; simpl.
  change (PixOffset {| Pix := <[Z.to_nat (PixOffset im x y):=k]> (Pix im);
                       Stride := Stride im; Bounds := Bounds im |} x y)
    with (PixOffset im x y).
  rewrite length_insert, G.
  apply list_lookup_insert_eq. unfold len in Hr. lia.
Qed.

(** ** What a drawing computation does to a well-formed image *)

Lemma replay_app (a b : list (Z * Z * Z)) (im im' : Paletted) :
  replay a im = Some im' -> replay (a ++ b) im = replay b im'.
Proof. unfold replay. rewrite foldl_app. by intros ->. Qed.

Section Paints.
Context (P : Z * Z * Z -> Prop) (r : Rectangle).

Lemma paints_ret {A} (Q : A -> Prop) (a : A) : Q a -> paints P Q r (mret a).
Proof.
intros Ha c Hwf Hb. exists c, []. rewrite app_nil_r.
split; [right; by exists a|]. split_and!; done || constructor.
Qed.

Lemma paints_out_of_fuel {A} (Q : A -> Prop) : paints P Q r out_of_fuel.
Proof.
intros c Hwf Hb. exists c, []. rewrite app_nil_r.
split; [by left|]. split_and!; done || constructor.
Qed.

Lemma paints_bind {A B} (Q : A -> Prop) (R : B -> Prop) (m : Draw A) (f : A -> Draw B) :
paints P Q r m -> (forall a, Q a -> paints P R r (f a)) ->
paints P R r (m ≫= f).
Proof.
intros Hm Hf c Hwf Hb.
destruct (Hm c Hwf Hb) as (c1 & n1 & Hs & Hwf1 & Hb1 & Hh1 & HP1 & Hr1).
unfold mbind, Draw_bind. destruct Hs as [-> | (a & -> & Ha)].
- exists c1, n1. split; [by left|]. split_and!; done || constructor.
- destruct (Hf a Ha c1 Hwf1 Hb1) as (c2 & n2 & Hs & Hwf2 & Hb2 & Hh2 & HP2 & Hr2).
exists c2, (n1 ++ n2). split; [done|]. split_and!; try done.
+ by rewrite Hh2, Hh1, app_assoc.
+ by apply Forall_app.
+ by rewrite (replay_app _ _ _ _ Hr1).
Qed.

Lemma paints_bounds : paints P (fun b => b = r) r bounds.
Proof.
intros c Hwf Hb. exists c, []. rewrite app_nil_r.
split; [right; by exists (Bounds (image c))|]. split_and!; done || constructor.
Qed.

Lemma paints_setColorIndex (x y k : Z) :
P (x, y, k) -> paints P (fun _ => True) r (setColorIndex x y k).
Proof.
intros HP c Hwf Hb.
destruct (SetColorIndex_wf (image c) x y k Hwf) as (im' & Hset & Hwf' & Hb').
unfold setColorIndex. rewrite Hset.
eexists _, [(x, y, k)]. split; [right; by exists tt|].
simpl. split_and!; try done.
- by rewrite Hb'.
- by apply Forall_singleton.
Qed.

Lemma paints_for_loop (fuel : nat) (cond : Z -> bool) (i : Z) (body : Z -> Draw unit) :
(forall j, paints P (fun _ => True) r (body j)) ->
paints P (fun _ => True) r (for_loop fuel cond i body).
Proof.
intros Hbody. revert i. induction fuel as [|fuel IH]; intros i; simpl.
- apply paints_out_of_fuel.
- destruct (cond i); [|by apply paints_ret].
eapply paints_bind; [apply Hbody|]. intros _ _. apply IH.
Qed.
End Paints.

Lemma paints_guarded_store (r : Rectangle) (x y k : Z) :
  paints (in_bounds r) (fun _ => True) r
    (b ← bounds; if in_image b x y then setColorIndex x y k else mret tt).
Proof.
  eapply paints_bind; [apply paints_bounds|]. intros b ->.
  destruct (in_image r x y) eqn:G; [|by apply paints_ret].
  apply paints_setColorIndex. unfold in_image in G. btp. simpl. lia.
Qed.

Lemma paints_drawLine_loop (r : Rectangle) (fuel : nat)
    (x1 y1 x2 y2 dx dy sx sy err k : Z) :
  paints (in_bounds r) (fun _ => True) r
    (drawLine_loop fuel x1 y1 x2 y2 dx dy sx sy err k).
Proof.
  revert x1 y1 err. induction fuel as [|fuel IH]; intros x1 y1 err; simpl.
  - apply paints_out_of_fuel.
  - eapply paints_bind; [apply paints_bounds|]. intros b ->.
    apply (paints_bind _ _ (fun _ => True)).
    + destruct (in_image r x1 y1) eqn:G; [|by apply paints_ret].
      apply paints_setColorIndex. unfold in_image in G. btp. simpl. lia.
    + intros _ _. destruct ((x1 =? x2) && (y1 =? y2)); [by apply paints_ret|].
      destruct (_ >? _), (_ <? _); apply IH.
Qed.

Lemma paints_drawLine (r : Rectangle) (fuel : nat) (x1 y1 x2 y2 k : Z) :
  paints (in_bounds r) (fun _ => True) r (drawLine fuel x1 y1 x2 y2 k).
Proof. apply paints_drawLine_loop. Qed.

Lemma paints_drawCircle (r : Rectangle) (fuel : nat) (centerX centerY radius k : Z) :
  paints (in_bounds r) (fun _ => True) r (drawCircle fuel centerX centerY radius k).
Proof.
  unfold drawCircle. apply paints_for_loop. intros y.
  apply paints_for_loop. intros x.
  destruct (_ <=? _); [|by apply paints_ret].
  apply paints_guarded_store.
Qed.

(** *** Pixels the calls leave alone *)

Lemma replay_cons (im im1 : Paletted) (x y k : Z) (l : list (Z * Z * Z)) :
  SetColorIndex im x y k = Some im1 ->
  replay ((x, y, k) :: l) im = replay l im1.
Proof. intros H. unfold replay. simpl. by rewrite H. Qed.

Lemma replay_other (new : list (Z * Z * Z)) (im im' : Paletted) (x y : Z) :
  wf_image im -> replay new im = Some im' ->
  (forall k, (x, y, k) ∉ new) ->
  ColorIndexAt im' x y = ColorIndexAt im x y.
Proof.
  revert im. induction new as [|[[a b] k] new IH]; intros im Hwf Hr Hnot.
  - by inversion Hr.
  - destruct (SetColorIndex_wf im a b k Hwf) as (im1 & Hset & Hwf1 & _).
    rewrite (replay_cons _ _ _ _ _ _ Hset) in Hr.
    rewrite (IH im1 Hwf1 Hr).
    + apply (SetColorIndex_other im im1 a b k x y Hwf Hset).
      intros E. inversion E; subst. apply (Hnot k). left.
    + intros k' Hin. apply (Hnot k'). by right.
Qed.

Lemma paints_drawn_within {A} (m : Draw A) (c : canvas) :
  wf_image (image c) ->
  paints (in_bounds (Bounds (image c))) (fun _ => True) (Bounds (image c)) m ->
  drawn_within c (m c).
Proof.
  intros Hwf Hm.
  destruct (Hm c Hwf eq_refl) as (c' & new & Hs & Hwf' & Hb' & Hh & HP & Hr).
  exists c', new. split_and!; try done.
  - destruct Hs as [-> | (a & -> & _)]; [by left|right; by exists a].
  - intros x y Hout. apply (replay_other new); [done..|].
    intros k Hin. rewrite Forall_forall in HP. apply Hout, (HP _ Hin).
Qed.

(** *** Computations that return *)

Section Returns.
Context (r : Rectangle).

Lemma returns_ret {A} (Q : A -> Prop) (a : A) : Q a -> returns Q r (mret a).
Proof. intros Ha c Hwf Hb. by exists a, c. Qed.

Lemma returns_bind {A B} (Q : A -> Prop) (R : B -> Prop)
(m : Draw A) (f : A -> Draw B) :
returns Q r m -> (forall a, Q a -> returns R r (f a)) ->
returns R r (m ≫= f).
Proof.
intros Hm Hf c Hwf Hb.
destruct (Hm c Hwf Hb) as (a & c1 & E & Ha & Hwf1 & Hb1).
unfold mbind, Draw_bind. rewrite E. by apply Hf.
Qed.

Lemma returns_bounds : returns (fun b => b = r) r bounds.
Proof. intros c Hwf Hb. by exists (Bounds (image c)), c. Qed.

Lemma returns_setColorIndex (x y k : Z) :
returns (fun _ => True) r (setColorIndex x y k).
Proof.
intros c Hwf Hb.
destruct (SetColorIndex_wf (image c) x y k Hwf) as (im' & Hset & Hwf' & Hb').
unfold setColorIndex. rewrite Hset. eexists tt, _. split_and!; try done.
simpl. by rewrite Hb'.
Qed.

Lemma returns_guarded_store (x y k : Z) :
returns (fun _ => True) r
(b ← bounds; if in_image b x y then setColorIndex x y k else mret tt).
Proof.
eapply returns_bind; [apply returns_bounds|]. intros b ->.
destruct (in_image r x y); [apply returns_setColorIndex|by apply returns_ret].
Qed.

(** A counting loop whose test fails from [hi] on, [hi] within reach of
the counter, returns once the fuel covers the distance to [hi]. *)
Lemma returns_for_loop (cond : Z -> bool) (hi : Z) (body : Z -> Draw unit)
(fuel : nat) (i : Z) :
(forall y, cond y = true -> y < hi) -> hi <= max_int ->
(forall j, returns (fun _ => True) r (body j)) ->
is_int i -> (Z.to_nat (hi - i) < fuel)%nat ->
returns (fun _ => True) r (for_loop fuel cond i body).
Proof.
intros Hcond Hhi Hbody. revert i.
induction fuel as [|fuel IH]; intros i Hi Hfuel; [lia|]. simpl.
destruct (cond i) eqn:G; [|by apply returns_ret].
apply Hcond in G.
eapply returns_bind; [apply Hbody|]. intros _ _.
unfold int_add. rewrite wrap_id by (unfold is_int, min_int, max_int in *; lia).
apply IH; [unfold is_int, min_int, max_int in *; lia|lia].
Qed.
End Returns.

Lemma returns_drawCircle (r : Rectangle) (fuel : nat) (centerX centerY radius k : Z) :
  radius < max_int ->
  (Z.to_nat (radius + 1 - int_neg radius) < fuel)%nat ->
  returns (fun _ => True) r (drawCircle fuel centerX centerY radius k).
Proof.
  intros Hrad Hfuel. unfold drawCircle.
  assert (Hc : forall y, (y <=? radius) = true -> y < radius + 1) by (intros; btp; lia).
  apply (returns_for_loop r _ (radius + 1)); [done|lia| |apply wrap_is_int|done].
  intros y. apply (returns_for_loop r _ (radius + 1)); [done|lia| |apply wrap_is_int|done].
  intros x. destruct (_ <=? _); [apply returns_guarded_store|by apply returns_ret].
Qed.

(** C6: every store [drawLine] and [drawCircle] issue passes the guard
    0 <= x < width, 0 <= y < height, whatever the arguments and however
    long the loops run; nothing panics and no pixel outside the guard
    changes.  A circle of any centre returns (its radius below the largest
    [int]), so also one centred outside the image and reaching into it. *)
Theorem C6_stores_stay_in_bounds (c : canvas) :
  wf_image (image c) ->
  (forall fuel x1 y1 x2 y2 k, drawn_within c (drawLine fuel x1 y1 x2 y2 k c)) /\
  (forall fuel centerX centerY radius k,
     drawn_within c (drawCircle fuel centerX centerY radius k c)) /\
  (forall centerX centerY radius k, radius < max_int ->
     exists fuel c', drawCircle fuel centerX centerY radius k c = Returns tt c').
Proof.
  intros Hwf. split_and!.
  - intros. apply paints_drawn_within; [done|apply paints_drawLine].
  - intros. apply paints_drawn_within; [done|apply paints_drawCircle].
  - intros cx cy radius k Hrad.
    exists (S (Z.to_nat (radius + 1 - int_neg radius))).
    destruct (returns_drawCircle (Bounds (image c)) _ cx cy radius k Hrad
                (Nat.lt_succ_diag_r _) c Hwf eq_refl) as ([] & c' & E & _).
    by exists c'.
Qed.

Lemma canvas_8x3_wf : wf_image (image canvas_8x3).
Proof. unfold wf_image, is_int, min_int, max_int, len; simpl. lia. Qed.

Lemma C6_witness :
  wf_image (image canvas_8x3) /\
  (forall fuel x1 y1 x2 y2 k,
     drawn_within canvas_8x3 (drawLine fuel x1 y1 x2 y2 k canvas_8x3)) /\
  (forall fuel centerX centerY radius k,
     drawn_within canvas_8x3 (drawCircle fuel centerX centerY radius k canvas_8x3)) /\
  (forall centerX centerY radius k, radius < max_int ->
     exists fuel c', drawCircle fuel centerX centerY radius k canvas_8x3 = Returns tt c').
Proof.
  split; [apply canvas_8x3_wf|].
  apply (C6_stores_stay_in_bounds canvas_8x3 canvas_8x3_wf).
Defined.

(** ** The loop of drawLine *)

Lemma drawLine_loop_S (fuel : nat) (x1 y1 x2 y2 dx dy sx sy err k : Z) (c : canvas) :
  drawLine_loop (S fuel) x1 y1 x2 y2 dx dy sx sy err k c =
    match (if in_image (Bounds (image c)) x1 y1
           then setColorIndex x1 y1 k c else Returns tt c) with
    | Returns _ c1 =>
        if (x1 =? x2) && (y1 =? y2) then Returns tt c1
        else let '(x1', y1', err') := line_step dx dy sx sy (x1, y1, err) in
             drawLine_loop fuel x1' y1' x2 y2 dx dy sx sy err' k c1
    | Panics => Panics
    | OutOfFuel c1 => OutOfFuel c1
    end.
Proof.
  cbn [drawLine_loop]. unfold mbind, Draw_bind, bounds, line_step; cbn beta iota.
  destruct (in_image (Bounds (image c)) x1 y1).
  - destruct (setColorIndex x1 y1 k c); try done.
    destruct ((x1 =? x2) && (y1 =? y2)); [done|].
    by destruct (_ >? _), (_ <? _).
  - unfold mret, Draw_ret.
    destruct ((x1 =? x2) && (y1 =? y2)); [done|].
    by destruct (_ >? _), (_ <? _).
Qed.

(** The endpoints (-2^62, 0) and (2^62, 0): the difference 2^63 wraps to
    -2^63, which [abs] leaves negative; [2 * err] wraps to 0 and neither
    test of the body holds, so the loop variables never move. *)
Lemma line_step_stuck :
  line_step (abs (int_sub (2 ^ 62) (- 2 ^ 62))) (abs (int_sub 0 0)) 1 (-1)
            (- 2 ^ 62, 0, int_sub (abs (int_sub (2 ^ 62) (- 2 ^ 62))) (abs (int_sub 0 0)))
  = (- 2 ^ 62, 0, int_sub (abs (int_sub (2 ^ 62) (- 2 ^ 62))) (abs (int_sub 0 0))).
Proof. vm_compute. reflexivity. Qed.

Lemma drawLine_stuck (fuel : nat) (k : Z) (c : canvas) :
  drawLine fuel (- 2 ^ 62) 0 (2 ^ 62) 0 k c = OutOfFuel c.
Proof.
  unfold drawLine.
  change (if - 2 ^ 62 <? 2 ^ 62 then 1 else -1) with 1.
  change (if 0 <? 0 then 1 else -1) with (-1).
  induction fuel as [|fuel IH]; [done|].
  rewrite drawLine_loop_S.
  assert (G : in_image (Bounds (image c)) (- 2 ^ 62) 0 = false) by done.
  rewrite G.
  change ((- 2 ^ 62 =? 2 ^ 62) && (0 =? 0)) with false. cbn iota.
  rewrite line_step_stuck. apply IH.
Qed.

(** C9, as stated, fails: between (-2^62, 0) and (2^62, 0) the loop of
    [drawLine] never reaches the second endpoint, on any image and with
    any number of iterations. *)
Lemma C9_counterexample :
  ~ exists (fuel : nat) (c c' : canvas),
      drawLine fuel (- 2 ^ 62) 0 (2 ^ 62) 0 1 c = Returns tt c'.
Proof. intros (fuel & c & c' & H). by rewrite drawLine_stuck in H. Qed.

(** *** Termination between endpoints that are not too far apart *)

Section Bresenham.
Context (xa ya x2 y2 : Z).
Hypothesis Hxa : is_int xa.
Hypothesis Hya : is_int ya.
Hypothesis Hx2 : is_int x2.
Hypothesis Hy2 : is_int y2.
Hypothesis Hfarx : Z.abs (x2 - xa) < 2 ^ 61.
Hypothesis Hfary : Z.abs (y2 - ya) < 2 ^ 61.

Let dx := Z.abs (x2 - xa).
Let dy := Z.abs (y2 - ya).
Let sx := if xa <? x2 then 1 else -1.
Let sy := if ya <? y2 then 1 else -1.

Local Abbreviation inv := (line_inv xa ya dx dy sx sy).

Lemma program_dx : abs (int_sub x2 xa) = dx.
Proof.
unfold abs, int_sub, int_neg, dx.
unfold is_int, min_int, max_int in *.
rewrite wrap_id by (unfold is_int, min_int, max_int; lia).
destruct (x2 - xa <? 0) eqn:G; btp; [|lia].
rewrite wrap_id by (unfold is_int, min_int, max_int; lia). lia.
Qed.

Lemma program_dy : abs (int_sub y2 ya) = dy.
Proof.
unfold abs, int_sub, int_neg, dy.
unfold is_int, min_int, max_int in *.
rewrite wrap_id by (unfold is_int, min_int, max_int; lia).
destruct (y2 - ya <? 0) eqn:G; btp; [|lia].
rewrite wrap_id by (unfold is_int, min_int, max_int; lia). lia.
Qed.

Lemma line_target : x2 = xa + sx * dx /\ y2 = ya + sy * dy.
Proof.
unfold sx, sy, dx, dy.
destruct (xa <? x2) eqn:G1, (ya <? y2) eqn:G2; btp; lia.
Qed.

Lemma line_inv_init : inv 0 0 xa ya (int_sub dx dy).
Proof.
unfold line_inv, int_sub.
rewrite wrap_id by (unfold is_int, min_int, max_int, dx, dy in *; lia).
unfold dx, dy in *. lia.
Qed.

Lemma line_at_end (a b x y err : Z) :
inv a b x y err ->
((x =? x2) && (y =? y2) = true <-> a = dx /\ b = dy).
Proof.
intros (Ha & Hb & -> & -> & _). destruct line_target as [Ex Ey].
rewrite andb_true_iff, !Z.eqb_eq.
assert (sx = 1 \/ sx = -1) as [Hs|Hs] by (unfold sx; destruct (xa <? x2); auto);
assert (sy = 1 \/ sy = -1) as [Ht|Ht] by (unfold sy; destruct (ya <? y2); auto);
rewrite Hs, Ht in *; lia.
Qed.

(** Away from the end the body keeps the invariant and takes a step
along x, along y, or both. *)
Lemma line_step_inv (a b x y err : Z) :
inv a b x y err -> ~ (a = dx /\ b = dy) ->
exists a' b' x' y' err',
line_step dx dy sx sy (x, y, err) = (x', y', err') /\
inv a' b' x' y' err' /\
0 <= (dx - a') + (dy - b') < (dx - a) + (dy - b).
Proof.
intros (Ha & Hb & Hx & Hy & He & Hr) Hend.
assert (Hdx : 0 <= dx < 2 ^ 61) by (unfold dx; lia).
assert (Hdy : 0 <= dy < 2 ^ 61) by (unfold dy; lia).
assert (Hsx : sx = 1 \/ sx = -1) by (unfold sx; destruct (xa <? x2); auto).
assert (Hsy : sy = 1 \/ sy = -1) by (unfold sy; destruct (ya <? y2); auto).
destruct line_target as [Ex Ey].
(* no step along x is asked for once x has arrived, nor along y *)
assert (Hnox : a = dx -> b < dy -> 2 * err <= - dy) by (intros; subst a; nia).
assert (Hnoy : b = dy -> a < dx -> dx <= 2 * err) by (intros; subst b; nia).
assert (Hxr : forall t, 0 <= t <= dx -> is_int (xa + sx * t)).
{ intros t Ht. unfold is_int, min_int, max_int in *. unfold dx in *.
destruct Hsx as [-> | ->]; lia. }
assert (Hyr : forall t, 0 <= t <= dy -> is_int (ya + sy * t)).
{ intros t Ht. unfold is_int, min_int, max_int in *. unfold dy in *.
destruct Hsy as [-> | ->]; lia. }
unfold line_step, int_mul, int_neg, int_sub, int_add.
rewrite (wrap_id (2 * err)) by (unfold is_int, min_int, max_int; lia).
rewrite (wrap_id (- dy)) by (unfold is_int, min_int, max_int; lia).
destruct (2 * err >? - dy) eqn:G1; btp.
- assert (a < dx) by lia.
rewrite (wrap_id (err - dy)) by (unfold is_int, min_int, max_int; lia).
assert (Ex' : x + sx = xa + sx * (a + 1)) by lia.
rewrite Ex', (wrap_id _ (Hxr (a + 1) ltac:(lia))).
destruct (2 * err <? dx) eqn:G2; btp.
+ assert (b < dy) by lia.
  rewrite (wrap_id (err - dy + dx)) by (unfold is_int, min_int, max_int; lia).
  assert (Ey' : y + sy = ya + sy * (b + 1)) by lia.
  rewrite Ey', (wrap_id _ (Hyr (b + 1) ltac:(lia))).
  exists (a + 1), (b + 1). do 3 eexists. split; [reflexivity|].
  split; [|lia]. unfold line_inv. split_and!; try lia.
+ exists (a + 1), b. do 3 eexists. split; [reflexivity|].
  split; [|lia]. unfold line_inv. split_and!; try lia.
- destruct (2 * err <? dx) eqn:G2; btp.
+ assert (b < dy) by lia.
  rewrite (wrap_id (err + dx)) by (unfold is_int, min_int, max_int; lia).
  assert (Ey' : y + sy = ya + sy * (b + 1)) by lia.
  rewrite Ey', (wrap_id _ (Hyr (b + 1) ltac:(lia))).
  exists a, (b + 1). do 3 eexists. split; [reflexivity|].
  split; [|lia]. unfold line_inv. split_and!; try lia.
+ exfalso. apply Hend. lia.
Qed.

Lemma returns_drawLine_loop (r : Rectangle) (k : Z) (fuel : nat) (a b x y err : Z) :
inv a b x y err ->
(Z.to_nat ((dx - a) + (dy - b)) < fuel)%nat ->
returns (fun _ => True) r (drawLine_loop fuel x y x2 y2 dx dy sx sy err k).
Proof.
revert a b x y err. induction fuel as [|fuel IH]; intros a b x y err Hinv Hfuel; [lia|].
intros c Hwf Hb. rewrite drawLine_loop_S.
assert (Hstore : exists c1,
(if in_image (Bounds (image c)) x y then setColorIndex x y k c else Returns tt c)
  = Returns tt c1 /\ wf_image (image c1) /\ Bounds (image c1) = r).
{ destruct (in_image (Bounds (image c)) x y).
- destruct (returns_setColorIndex r x y k c Hwf Hb) as ([] & c1 & E & _ & H).
  by exists c1.
- by exists c. }
destruct Hstore as (c1 & -> & Hwf1 & Hb1).
destruct ((x =? x2) && (y =? y2)) eqn:G.
- by exists tt, c1.
- assert (Hend : ~ (a = dx /\ b = dy)).
{ intros E. apply (line_at_end _ _ _ _ _ Hinv) in E. congruence. }
destruct (line_step_inv a b x y err Hinv Hend)
  as (a' & b' & x' & y' & err' & -> & Hinv' & Hm).
apply (IH a' b' x' y' err' Hinv'); [lia|done..].
Qed.

Lemma returns_drawLine (r : Rectangle) (k : Z) (fuel : nat) :
(Z.to_nat (dx + dy) < fuel)%nat ->
returns (fun _ => True) r (drawLine fuel xa ya x2 y2 k).
Proof.
intros Hfuel. unfold drawLine. rewrite program_dx, program_dy.
apply (returns_drawLine_loop r k fuel 0 0); [apply line_inv_init|lia].
Qed.
End Bresenham.

(** C9, amended: between endpoints less than 2^61 apart in x and in y,
    the loop of [drawLine] reaches the second endpoint and returns, after
    at most |x2 - x1| + |y2 - y1| + 1 iterations. *)
Theorem C9_drawLine_terminates (c : canvas) (x1 y1 x2 y2 k : Z) :
  wf_image (image c) ->
  is_int x1 -> is_int y1 -> is_int x2 -> is_int y2 ->
  Z.abs (x2 - x1) < 2 ^ 61 -> Z.abs (y2 - y1) < 2 ^ 61 ->
  forall fuel, (Z.to_nat (Z.abs (x2 - x1) + Z.abs (y2 - y1)) < fuel)%nat ->
  exists c', drawLine fuel x1 y1 x2 y2 k c = Returns tt c'.
Proof.
  intros Hwf Hx1 Hy1 Hx2 Hy2 Hfx Hfy fuel Hfuel.
  destruct (returns_drawLine x1 y1 x2 y2 Hx1 Hy1 Hx2 Hy2 Hfx Hfy
              (Bounds (image c)) k fuel Hfuel c Hwf eq_refl) as ([] & c' & E & _).
  by exists c'.
Qed.

Lemma C9_witness :
  (Z.abs (-1 - 5) < 2 ^ 61 /\ Z.abs (0 - 2) < 2 ^ 61) /\
  exists c', drawLine 9 5 2 (-1) 0 7 canvas_8x3 = Returns tt c'.
Proof.
  split; [simpl; lia|].
  apply (C9_drawLine_terminates canvas_8x3 5 2 (-1) 0 7 canvas_8x3_wf);
    unfold is_int, min_int, max_int; simpl; lia.
Defined.

(** ** A horizontal line *)

Lemma Rect_origin (w h : Z) :
  0 <= w -> 0 <= h -> Rect 0 0 w h = mkRectangle (mkPoint 0 0) (mkPoint w h).
Proof.
  intros Hw Hh. unfold Rect.
  destruct (0 >? w) eqn:G1; btp; [lia|]. destruct (0 >? h) eqn:G2; btp; [lia|]. done.
Qed.

(** A store inside the image returns, is recorded, and changes the one
    pixel. *)
Lemma store_exact (c : canvas) (x y k : Z) :
  wf_image (image c) -> point_In x y (Bounds (image c)) = true ->
  exists c1, setColorIndex x y k c = Returns tt c1 /\
    wf_image (image c1) /\ Bounds (image c1) = Bounds (image c) /\
    history c1 = history c ++ [(x, y, k)] /\
    forall x' y', ColorIndexAt (image c1) x' y' =
                  if (x' =? x) && (y' =? y) then Some k
                  else ColorIndexAt (image c) x' y'.
Proof.
  intros Hwf Hin.
  destruct (SetColorIndex_wf (image c) x y k Hwf) as (im' & Hset & Hwf' & Hb').
  unfold setColorIndex. rewrite Hset. eexists. split; [reflexivity|].
  simpl. split_and!; try done.
  intros x' y'. destruct ((x' =? x) && (y' =? y)) eqn:G.
  - btp. subst. by apply (SetColorIndex_same (image c)).
  - apply (SetColorIndex_other (image c) im' x y k); [done..|].
    intros E. inversion E; subst. rewrite !Z.eqb_refl in G. done.
Qed.

(** One pass of the loop of [drawLine] at a point inside the image that
    is not the second endpoint. *)
Lemma drawLine_loop_inside (fuel : nat) (x1 y1 x2 y2 dx dy sx sy err k : Z)
    (x1' y1' err' : Z) (c : canvas) :
  wf_image (image c) ->
  in_image (Bounds (image c)) x1 y1 = true ->
  point_In x1 y1 (Bounds (image c)) = true ->
  (x1 =? x2) && (y1 =? y2) = false ->
  line_step dx dy sx sy (x1, y1, err) = (x1', y1', err') ->
  exists c1,
    drawLine_loop (S fuel) x1 y1 x2 y2 dx dy sx sy err k c =
    drawLine_loop fuel x1' y1' x2 y2 dx dy sx sy err' k c1 /\
    wf_image (image c1) /\ Bounds (image c1) = Bounds (image c) /\
    history c1 = history c ++ [(x1, y1, k)] /\
    forall x' y', ColorIndexAt (image c1) x' y' =
                  if (x' =? x1) && (y' =? y1) then Some k
                  else ColorIndexAt (image c) x' y'.
Proof.
  intros Hwf Hg Hin Hend Hstep.
  destruct (store_exact c x1 y1 k Hwf Hin) as (c1 & E & H).
  exists c1. split; [|done].
  by rewrite drawLine_loop_S, Hg, E, Hend, Hstep.
Qed.

(** C5: on an image at least 6 wide and 1 high, the line from (0,0) to
    (5,0) stores at (0,0), (1,0), ..., (5,0), once each and in this order,
    and nowhere else; these six pixels take the colour index, every other
    pixel keeps its own. *)
Theorem C5_line_0_0_to_5_0 (c : canvas) (w h k : Z) (fuel : nat) :
  wf_image (image c) -> Bounds (image c) = Rect 0 0 w h ->
  6 <= w -> 1 <= h -> (6 <= fuel)%nat ->
  exists c', drawLine fuel 0 0 5 0 k c = Returns tt c' /\
    history c' = history c ++
      [(0, 0, k); (1, 0, k); (2, 0, k); (3, 0, k); (4, 0, k); (5, 0, k)] /\
    forall x y, ColorIndexAt (image c') x y =
                if (y =? 0) && (0 <=? x) && (x <=? 5) then Some k
                else ColorIndexAt (image c) x y.
Proof.
  intros Hwf Hb Hw Hh Hfuel.
  rewrite Rect_origin in Hb by lia.
  assert (HDx : Dx (Bounds (image c)) = w) by (rewrite wf_Dx, Hb; simpl; [lia|done]).
  assert (HDy : Dy (Bounds (image c)) = h) by (rewrite wf_Dy, Hb; simpl; [lia|done]).
  assert (Hg : forall b x, b = Bounds (image c) -> 0 <= x <= 5 ->
                 in_image b x 0 = true /\ point_In x 0 b = true).
  { intros b x -> Hx. unfold in_image, point_In. rewrite HDx, HDy, Hb. simpl.
    split; repeat (apply andb_true_intro; split); lia. }
  do 6 (destruct fuel as [|fuel]; [lia|]). clear Hfuel.
  unfold drawLine.
  change (abs (int_sub 5 0)) with 5. change (abs (int_sub 0 0)) with 0.
  change (if 0 <? 5 then 1 else -1) with 1. change (if 0 <? 0 then 1 else -1) with (-1).
  change (int_sub 5 0) with 5.
  destruct (drawLine_loop_inside (S (S (S (S (S fuel))))) 0 0 5 0 5 0 1 (-1) 5 k 1 0 5 c)
    as (c1 & -> & Hwf1 & Hb1 & Hh1 & Hp1);
    [done|apply Hg; [done|lia]..|done|done|].
  destruct (drawLine_loop_inside (S (S (S (S fuel)))) 1 0 5 0 5 0 1 (-1) 5 k 2 0 5 c1)
    as (c2 & -> & Hwf2 & Hb2 & Hh2 & Hp2);
    [done|apply Hg; [done|lia]..|done|done|]. rewrite Hb1 in Hb2.
  destruct (drawLine_loop_inside (S (S (S fuel))) 2 0 5 0 5 0 1 (-1) 5 k 3 0 5 c2)
    as (c3 & -> & Hwf3 & Hb3 & Hh3 & Hp3);
    [done|apply Hg; [done|lia]..|done|done|]. rewrite Hb2 in Hb3.
  destruct (drawLine_loop_inside (S (S fuel)) 3 0 5 0 5 0 1 (-1) 5 k 4 0 5 c3)
    as (c4 & -> & Hwf4 & Hb4 & Hh4 & Hp4);
    [done|apply Hg; [done|lia]..|done|done|]. rewrite Hb3 in Hb4.
  destruct (drawLine_loop_inside (S fuel) 4 0 5 0 5 0 1 (-1) 5 k 5 0 5 c4)
    as (c5 & -> & Hwf5 & Hb5 & Hh5 & Hp5);
    [done|apply Hg; [done|lia]..|done|done|]. rewrite Hb4 in Hb5.
  destruct (store_exact c5 5 0 k Hwf5) as (c6 & E & Hwf6 & Hb6 & Hh6 & Hp6);
    [apply Hg; [done|lia]|].
  exists c6. split_and!.
  - rewrite drawLine_loop_S. destruct (Hg _ 5 Hb5) as [-> _]; [lia|].
    by rewrite E.
  - rewrite Hh6, Hh5, Hh4, Hh3, Hh2, Hh1, <- !app_assoc. done.
  - intros x y. rewrite Hp6, Hp5, Hp4, Hp3, Hp2, Hp1.
    repeat match goal with
           | |- context [?a =? ?b] => destruct (Z.eqb_spec a b)
           | |- context [?a <=? ?b] => destruct (Z.leb_spec a b)
           end; simpl; try done; lia.
Qed.

Lemma C5_witness :
  (6 <= 8 /\ 1 <= 3 /\ (6 <= 6)%nat) /\
  exists c', drawLine 6 0 0 5 0 7 canvas_8x3 = Returns tt c' /\
    history c' = history canvas_8x3 ++
      [(0, 0, 7); (1, 0, 7); (2, 0, 7); (3, 0, 7); (4, 0, 7); (5, 0, 7)] /\
    forall x y, ColorIndexAt (image c') x y =
                if (y =? 0) && (0 <=? x) && (x <=? 5) then Some 7
                else ColorIndexAt (image canvas_8x3) x y.
Proof.
  split; [lia|].
  apply (C5_line_0_0_to_5_0 canvas_8x3 8 3 7 6 canvas_8x3_wf); [done|lia..].
Defined.

(** ** Frames of a short trail *)

(** The sizes [image.NewPaletted] accepts. *)
Lemma NewPaletted_Rect (w h : Z) :
  - max_int <= w <= max_int -> - max_int <= h <= max_int ->
  Z.abs w * Z.abs h <= max_int ->
  exists img, NewPaletted (Rect 0 0 w h) = Some img /\
    wf_image img /\ Bounds img = Rect 0 0 w h /\
    Pix img = replicate (Z.to_nat (Z.abs w * Z.abs h)) 0.
Proof.
  intros Hw Hh Hwh. unfold NewPaletted.
  assert (HDx : Dx (Rect 0 0 w h) = Z.abs w).
  { unfold Dx, int_sub, Rect. destruct (0 >? w) eqn:G1, (0 >? h) eqn:G2; btp; simpl;
      rewrite wrap_id; unfold is_int, min_int, max_int in *; lia. }
  assert (HDy : Dy (Rect 0 0 w h) = Z.abs h).
  { unfold Dy, int_sub, Rect. destruct (0 >? w) eqn:G1, (0 >? h) eqn:G2; btp; simpl;
      rewrite wrap_id; unfold is_int, min_int, max_int in *; lia. }
  rewrite HDx, HDy.
  destruct (Z.abs w <? 0) eqn:G1; btp; [lia|].
  destruct (Z.abs h <? 0) eqn:G2; btp; [lia|].
  destruct (max_int <? Z.abs w * Z.abs h) eqn:G3; btp; [lia|]. simpl.
  eexists. split; [reflexivity|]. split_and!; try done.
  unfold wf_image, len, is_int, min_int, max_int in *. simpl.
  rewrite length_replicate.
  unfold Rect. destruct (0 >? w) eqn:G4, (0 >? h) eqn:G5; btp; simpl; nia.
Qed.

(** Stores of index 0 leave an all-zero index plane all zero. *)
Lemma replay_zero (new : list (Z * Z * Z)) (im im' : Paletted) :
  Forall (fun call => call.2 = 0) new ->
  Forall (fun k => k = 0) (Pix im) ->
  replay new im = Some im' ->
  Forall (fun k => k = 0) (Pix im').
Proof.
  revert im. induction new as [|[[x y] k] new IH]; intros im Hnew Hz Hr.
  - injection Hr as <-. done.
  - apply Forall_cons in Hnew as [Hk Hnew]. simpl in Hk. subst k.
    destruct (SetColorIndex im x y 0) as [im1|] eqn:E.
    + rewrite (replay_cons _ _ _ _ _ _ E) in Hr. apply (IH im1); [done| |done].
      unfold SetColorIndex in E. destruct (negb _); [by injection E as <-|].
      destruct (_ && _); [|done]. injection E as <-. simpl.
      by apply Forall_insert.
    + unfold replay in Hr. simpl in Hr. rewrite E in Hr.
      clear -Hr. induction new as [|[[a b] k] new IH]; [done|by apply IH].
Qed.

Lemma ColorIndexAt_zero (im : Paletted) (x y : Z) :
  wf_image im -> Forall (fun k => k = 0) (Pix im) ->
  ColorIndexAt im x y = Some 0.
Proof.
  intros Hwf Hz. unfold ColorIndexAt.
  destruct (point_In x y (Bounds im)) eqn:Hin; simpl; [|done].
  destruct (PixOffset_wf im x y Hwf Hin) as (_ & _ & Hr). unfold len in Hr.
  destruct (0 <=? PixOffset im x y) eqn:G1; btp; [|lia].
  destruct (PixOffset im x y <? Z.of_nat (length (Pix im))) eqn:G2; btp; [|lia].
  simpl.
  destruct (lookup_lt_is_Some_2 (Pix im) (Z.to_nat (PixOffset im x y))) as [v Hv]; [lia|].
  rewrite Hv. f_equal. rewrite Forall_forall in Hz.
  apply Hz, list_elem_of_lookup. eauto.
Qed.

Lemma fill_clears (fuel : nat) (width height : Z) (c : canvas) :
  wf_image (image c) -> Forall (fun k => k = 0) (Pix (image c)) ->
  width <= max_int -> height <= max_int ->
  (Z.to_nat (Z.max width height) < fuel)%nat ->
  exists c', fill fuel width height c = Returns tt c' /\
    wf_image (image c') /\ Bounds (image c') = Bounds (image c) /\
    Forall (fun k => k = 0) (Pix (image c')).
Proof.
  intros Hwf Hz Hw Hh Hfuel.
  assert (Hint0 : is_int 0) by (unfold is_int, min_int, max_int; lia).
  assert (Hret : returns (fun _ => True) (Bounds (image c)) (fill fuel width height)).
  { unfold fill.
    apply (returns_for_loop _ _ height); [intros; btp; lia|done| |done|lia].
    intros y. apply (returns_for_loop _ _ width); [intros; btp; lia|done| |done|lia].
    intros x. apply returns_setColorIndex. }
  assert (Hpaint : paints (fun call => call.2 = 0) (fun _ => True)
                     (Bounds (image c)) (fill fuel width height)).
  { unfold fill. apply paints_for_loop. intros y. apply paints_for_loop. intros x.
    by apply paints_setColorIndex. }
  destruct (Hret c Hwf eq_refl) as ([] & c' & E & _ & Hwf' & Hb').
  destruct (Hpaint c Hwf eq_refl) as (c'' & new & Hs & _ & _ & _ & Hnew & Hr).
  assert (c'' = c') as ->.
  { rewrite E in Hs. destruct Hs as [Hs | (a & Hs & _)]; [done|by inversion Hs]. }
  exists c'. split_and!; try done. by apply (replay_zero new (image c)).
Qed.

(** C8: with a trail of fewer than two points [CreateFrame] returns, for
    every width and height of which [image.NewPaletted] makes an image
    (negative ones included: [image.Rect] swaps the corners), an image of
    that size whose every pixel has the background index 0. *)
Theorem C8_short_trail_blank_frame (fuel : nat) (lorenz : LorenzSystem)
    (width height : Z) (rotationX rotationY : float) (frameNum : Z) :
  len (GetTrail lorenz) < 2 ->
  - max_int <= width <= max_int -> - max_int <= height <= max_int ->
  Z.abs width * Z.abs height <= max_int ->
  (Z.to_nat (Z.max width height) < fuel)%nat ->
  exists c',
    CreateFrame fuel lorenz width height rotationX rotationY frameNum = Returns tt c' /\
    Bounds (image c') = Rect 0 0 width height /\
    len (Pix (image c')) = Z.abs width * Z.abs height /\
    Forall (fun k => k = 0) (Pix (image c')) /\
    forall x y, ColorIndexAt (image c') x y = Some 0.
Proof.
  intros Htrail Hw Hh Hwh Hfuel. unfold CreateFrame.
  destruct (NewPaletted_Rect width height Hw Hh Hwh) as (img & -> & Hwf & Hb & Hpix).
  fold (fill fuel width height).
  destruct (fill_clears fuel width height {| image := img; history := [] |})
    as (c' & E & Hwf' & Hb' & Hz); simpl; try done; try lia.
  { rewrite Hpix. apply Forall_replicate. done. }
  unfold mbind, Draw_bind. rewrite E.
  destruct (len (GetTrail lorenz) <? 2) eqn:G; btp; [|lia].
  exists c'. simpl in Hb'. split_and!; try done.
  - congruence.
  - destruct Hwf' as (_ & _ & _ & _ & _ & _ & _ & _ & ->).
    rewrite Hb', Hb. unfold Rect.
    destruct (0 >? width) eqn:G4, (0 >? height) eqn:G5; btp; simpl; nia.
  - intros x y. by apply ColorIndexAt_zero.
Qed.

Lemma C8_witness :
  (len (GetTrail (mkLorenzSystem 10 28 (8 / 3) 0x1.47ae147ae147bp-7 1 1 1 [] 5)) < 2 /\
   Z.abs 4 * Z.abs 3 <= max_int) /\
  exists c',
    CreateFrame 5 (mkLorenzSystem 10 28 (8 / 3) 0x1.47ae147ae147bp-7 1 1 1 [] 5)
      4 3 0 0 0 = Returns tt c' /\
    Bounds (image c') = Rect 0 0 4 3 /\
    len (Pix (image c')) = Z.abs 4 * Z.abs 3 /\
    Forall (fun k => k = 0) (Pix (image c')) /\
    forall x y, ColorIndexAt (image c') x y = Some 0.
Proof.
  split; [unfold len, max_int; simpl; lia|].
  apply (C8_short_trail_blank_frame 5
           (mkLorenzSystem 10 28 (8 / 3) 0x1.47ae147ae147bp-7 1 1 1 [] 5) 4 3 0 0 0);
    unfold len, max_int; simpl; lia.
Defined.

(** ** Binary64 rounding

    The operations of [float] are specified by [SpecFloat]; what follows
    reads its rounding function as a rounding of real numbers, far enough
    to bound the colour index of a trail segment. *)

Lemma bpow_pos (e : Z) : (0 < bpow e)%R.
Proof. apply powerRZ_lt. lra. Qed.

Lemma bpow_add (a b : Z) : bpow (a + b) = (bpow a * bpow b)%R.
Proof. apply powerRZ_add. lra. Qed.

Lemma bpow_IZR (k : Z) : 0 <= k -> bpow k = IZR (2 ^ k).
Proof.
  intros Hk. unfold bpow. rewrite <- (Z2Nat.id k Hk) at 1.
  rewrite <- pow_powerRZ. rewrite pow_IZR. by rewrite Z2Nat.id.
Qed.

Lemma bpow_le (a b : Z) : a <= b -> (bpow a <= bpow b)%R.
Proof.
  intros H. replace b with (a + (b - a)) by lia. rewrite bpow_add.
  rewrite (bpow_IZR (b - a)) by lia.
  assert (0 < 2 ^ (b - a)) by (apply Z.pow_pos_nonneg; lia).
  assert (1 <= 2 ^ (b - a)) by lia.
  apply IZR_le in H1. pose proof (bpow_pos a). nra.
Qed.

Lemma fexp_64 (e : Z) : fexp prec emax e = fexp64 e.
Proof. reflexivity. Qed.

Lemma digits2_bounds (m : positive) :
  2 ^ (Zpos (digits2_pos m) - 1) <= Zpos m < 2 ^ Zpos (digits2_pos m).
Proof.
  induction m as [m IH|m IH|]; cbn [digits2_pos].
  - rewrite Pos2Z.inj_succ, (Pos2Z.inj_xI m).
    replace (Z.succ (Z.pos (digits2_pos m)) - 1) with (Z.succ (Z.pos (digits2_pos m) - 1)) by lia.
    rewrite !Z.pow_succ_r by lia. lia.
  - rewrite Pos2Z.inj_succ, (Pos2Z.inj_xO m).
    replace (Z.succ (Z.pos (digits2_pos m)) - 1) with (Z.succ (Z.pos (digits2_pos m) - 1)) by lia.
    rewrite !Z.pow_succ_r by lia. lia.
  - simpl. lia.
Qed.

Lemma Zdigits2_bounds (m : Z) :
  0 < m -> 0 < Zdigits2 m /\ 2 ^ (Zdigits2 m - 1) <= m < 2 ^ Zdigits2 m.
Proof.
  destruct m as [|p|p]; try lia. intros _. simpl. split; [lia|apply digits2_bounds].
Qed.

Lemma Zdigits2_le (m k : Z) : 0 < m -> 0 <= k -> m < 2 ^ k -> Zdigits2 m <= k.
Proof.
  intros Hm Hk Hlt. destruct (Zdigits2_bounds m Hm) as [Hd [Hlo _]].
  destruct (Z_le_gt_dec (Zdigits2 m) k) as [|Hgt]; [done|].
  assert (2 ^ k <= 2 ^ (Zdigits2 m - 1)) by (apply Z.pow_le_mono_r; lia). lia.
Qed.

Lemma shr_1_m (mrs : shr_record) :
  0 <= shr_m mrs -> shr_m (shr_1 mrs) = shr_m mrs / 2.
Proof.
  destruct mrs as [m r s]. simpl. intros Hm.
  destruct m as [|[p|p|]|p]; simpl; try lia.
  - done.
  - rewrite (Pos2Z.inj_xI p). apply Z.div_unique with 1; lia.
  - rewrite (Pos2Z.inj_xO p). apply Z.div_unique with 0; lia.
  - done.
Qed.

Lemma iter_shr_m (p : positive) (mrs : shr_record) :
  0 <= shr_m mrs ->
  shr_m (SpecFloat.iter_pos shr_1 p mrs) = shr_m mrs / 2 ^ Zpos p.
Proof.
  revert mrs. induction p as [p IH|p IH|]; intros mrs Hm; cbn [SpecFloat.iter_pos].
  - assert (H1 : 0 <= shr_m (shr_1 mrs)) by (rewrite shr_1_m by done; apply Z.div_pos; lia).
    assert (H2 : 0 <= shr_m (SpecFloat.iter_pos shr_1 p (shr_1 mrs)))
      by (rewrite IH by done; apply Z.div_pos; lia).
    rewrite IH, IH, shr_1_m by done.
    rewrite !Z.div_div by lia. f_equal.
    rewrite (Pos2Z.inj_xI p), Z.pow_add_r, Z.pow_mul_r by lia.
    change (2 ^ 2) with 4. change (2 ^ 1) with 2.
    replace (4 ^ Z.pos p) with (2 ^ Z.pos p * 2 ^ Z.pos p); [lia|].
    rewrite <- Z.pow_mul_l. done.
  - assert (H2 : 0 <= shr_m (SpecFloat.iter_pos shr_1 p mrs))
      by (rewrite IH by done; apply Z.div_pos; lia).
    rewrite IH, IH by done. rewrite !Z.div_div by lia. f_equal.
    rewrite (Pos2Z.inj_xO p), Z.pow_mul_r by lia. change (2 ^ 2) with 4.
    rewrite <- Z.pow_mul_l. done.
  - rewrite shr_1_m by done. done.
Qed.

Lemma shr_m_of_loc (m : Z) (l : location) : shr_m (shr_record_of_loc m l) = m.
Proof. by destruct l as [|[]]. Qed.

Lemma shr_spec (mrs : shr_record) (e n : Z) :
  0 <= shr_m mrs ->
  shr_m (fst (shr mrs e n)) = shr_m mrs / 2 ^ Z.max n 0 /\
  snd (shr mrs e n) = e + Z.max n 0.
Proof.
  intros Hm. unfold shr. destruct n as [|p|p]; simpl.
  - rewrite Z.div_1_r. lia.
  - rewrite iter_shr_m by done. replace (Z.max (Z.pos p) 0) with (Z.pos p) by lia. done.
  - rewrite Z.div_1_r. lia.
Qed.

Lemma rne_bounds (m : Z) (l : location) :
  m <= round_nearest_even m l <= m + 1.
Proof. destruct l as [|[]]; simpl; try lia. destruct (Z.even m); lia. Qed.

(** [binary_round_aux] is faithful: on the grid of the exponent it
    settles on, the result is the integer part of the exact value or the
    next integer. *)
Lemma bra_spec (m e : Z) (l : location) :
  0 < m ->
  Z.max (fexp64 (Zdigits2 m + e)) e <= 970 ->
  exists m2,
    m / 2 ^ (Z.max (fexp64 (Zdigits2 m + e)) e - e) <= m2
      <= m / 2 ^ (Z.max (fexp64 (Zdigits2 m + e)) e - e) + 1 /\
    fin_nonneg (binary_round_aux prec emax false m e l) /\
    SF2R (binary_round_aux prec emax false m e l) =
      (IZR m2 * bpow (Z.max (fexp64 (Zdigits2 m + e)) e))%R.
Proof.
  intros Hm He. unfold binary_round_aux, shr_fexp.
  change (fexp prec emax) with fexp64.
  set (E := fexp64 (Zdigits2 m + e)) in *.
  destruct (Zdigits2_bounds m Hm) as (Hd & Hlo & Hhi).
  set (d := Zdigits2 m) in *.
  assert (HE : d + e - 53 <= E /\ -1074 <= E) by (unfold E, fexp64; lia).
  pose proof (shr_spec (shr_record_of_loc m l) e (E - e)) as [H1 H2];
    [rewrite shr_m_of_loc; lia|].
  rewrite shr_m_of_loc in H1.
  destruct (shr (shr_record_of_loc m l) e (E - e)) as [mrs1 e1]. simpl in H1, H2.
  replace (Z.max E e - e) with (Z.max (E - e) 0) by lia.
  set (k := Z.max (E - e) 0) in *.
  assert (He1 : e1 = Z.max E e) by lia. clear H2.
  set (m1 := shr_m mrs1) in *.
  pose proof (rne_bounds m1 (loc_of_shr_record mrs1)) as Hrne.
  set (m2 := round_nearest_even m1 (loc_of_shr_record mrs1)) in *.
  assert (Hm1 : 0 <= m1 < 2 ^ 53).
  { rewrite H1. split; [apply Z.div_pos; lia|].
    apply Z.div_lt_upper_bound; [lia|].
    rewrite <- Z.pow_add_r by lia.
    assert (2 ^ d <= 2 ^ (k + 53)) by (apply Z.pow_le_mono_r; lia). lia. }
  exists m2. split; [lia|].
  pose proof (shr_spec (shr_record_of_loc m2 loc_Exact) e1
                (fexp64 (Zdigits2 m2 + e1) - e1)) as [H3 H4];
    [rewrite shr_m_of_loc; lia|].
  rewrite shr_m_of_loc in H3.
  destruct (shr (shr_record_of_loc m2 loc_Exact) e1 _) as [mrs3 e3]. simpl in H3, H4.
  rewrite <- He1.
  assert (Hcases : m2 = 0 \/ 0 < m2 < 2 ^ 53 \/ m2 = 2 ^ 53) by lia.
  destruct Hcases as [Hz | [Hmid | Htop]].
  - (* the result is zero *)
    rewrite Hz in H3. rewrite Z.div_0_l in H3 by lia.
    rewrite H3, Hz. simpl. split; [done|lra].
  - (* no renormalisation *)
    assert (Hd2 : Zdigits2 m2 <= 53) by (apply Zdigits2_le; lia).
    assert (Hk2 : Z.max (fexp64 (Zdigits2 m2 + e1) - e1) 0 = 0)
      by (unfold fexp64; lia).
    rewrite Hk2 in H3, H4. rewrite Z.div_1_r in H3. rewrite H3.
    destruct m2 as [|p2|p2]; try lia.
    replace (e3 <=? emax - prec) with true
      by (symmetry; apply Z.leb_le; unfold emax, prec; lia).
    simpl. split; [done|]. by replace e3 with e1 by lia.
  - (* the mantissa reached 2^53: one more shift, exact *)
    assert (Hd2 : Zdigits2 m2 = 54) by (rewrite Htop; reflexivity).
    assert (Hk2 : Z.max (fexp64 (Zdigits2 m2 + e1) - e1) 0 = 1)
      by (rewrite Hd2; unfold fexp64; lia).
    rewrite Hk2 in H3, H4. rewrite H3, Htop.
    change (2 ^ 53 / 2 ^ 1) with (Z.pos (2 ^ 52)).
    replace (e3 <=? emax - prec) with true
      by (symmetry; apply Z.leb_le; unfold emax, prec; lia).
    simpl. split; [done|].
    rewrite H4, bpow_add.
    replace (bpow 1) with 2%R by (unfold bpow; simpl; lra).
    replace (2 ^ 53) with (Z.pos (2 ^ 52) * 2) by reflexivity.
    rewrite mult_IZR. lra.
Qed.

Lemma bpow_lt_inv (a b : Z) : (bpow a < bpow b)%R -> a < b.
Proof.
  intros H. destruct (Z_lt_ge_dec a b) as [|Hge]; [done|].
  assert (b <= a) as Hle by lia. apply bpow_le in Hle. lra.
Qed.

(** A multiple of [2^E] above [x] is not below the rounded value. *)
Lemma faithful_upper (x r : R) (E g : Z) :
  faithful x E r -> (x < IZR g * bpow E)%R -> (r <= IZR g * bpow E)%R.
Proof.
  intros [[m2 ->] [H1 H2]] Hx. pose proof (bpow_pos E) as Hp.
  assert (IZR (m2 - 1) < IZR g)%R as Hlt by (rewrite minus_IZR; nra).
  apply lt_IZR in Hlt. assert (m2 <= g) as Hle by lia. apply IZR_le in Hle. nra.
Qed.

(** A multiple of [2^E] that is not above [x] is not above the rounded
    value. *)
Lemma faithful_lower (x r : R) (E g : Z) :
  faithful x E r -> (IZR g * bpow E <= x)%R -> (IZR g * bpow E <= r)%R.
Proof.
  intros [[m2 ->] [H1 H2]] Hx. pose proof (bpow_pos E) as Hp.
  assert (IZR g < IZR (m2 + 1))%R as Hlt by (rewrite plus_IZR; nra).
  apply lt_IZR in Hlt. assert (g <= m2) as Hle by lia. apply IZR_le in Hle. nra.
Qed.

Lemma bra_faithful (m e : Z) (l : location) (x : R) :
  0 < m ->
  (IZR m * bpow e <= x < (IZR m + 1) * bpow e)%R ->
  Z.max (fexp64 (Zdigits2 m + e)) e <= 970 ->
  fin_nonneg (binary_round_aux prec emax false m e l) /\
  faithful x (Z.max (fexp64 (Zdigits2 m + e)) e)
           (SF2R (binary_round_aux prec emax false m e l)).
Proof.
  intros Hm Hx He.
  destruct (bra_spec m e l Hm He) as (m2 & Hm2 & Hfin & Hval).
  split; [done|]. rewrite Hval.
  set (E := Z.max (fexp64 (Zdigits2 m + e)) e) in *.
  set (k := E - e) in *.
  assert (Hk : 0 <= k) by (unfold k, E; lia).
  split; [by exists m2|].
  assert (HE : bpow E = (bpow e * IZR (2 ^ k))%R).
  { replace E with (e + k) by (unfold k; lia). by rewrite bpow_add, (bpow_IZR k). }
  assert (Hpow : 0 < 2 ^ k) by (apply Z.pow_pos_nonneg; lia).
  pose proof (Z.mul_div_le m (2 ^ k) Hpow) as Hlo.
  pose proof (Z.mul_succ_div_gt m (2 ^ k) Hpow) as Hhi.
  set (m1 := m / 2 ^ k) in *.
  assert (H1 : (IZR (2 ^ k) * IZR m1 <= IZR m)%R) by (rewrite <- mult_IZR; by apply IZR_le).
  assert (H2 : (IZR m + 1 <= IZR (2 ^ k) * (IZR m1 + 1))%R).
  { replace (IZR m + 1)%R with (IZR (m + 1)) by (by rewrite plus_IZR).
    replace (IZR m1 + 1)%R with (IZR (Z.succ m1)) by (by rewrite succ_IZR).
    rewrite <- mult_IZR. apply IZR_le. lia. }
  assert (H3 : (IZR m1 <= IZR m2 <= IZR m1 + 1)%R).
  { split; [apply IZR_le; lia|].
    replace (IZR m1 + 1)%R with (IZR (m1 + 1)) by (by rewrite plus_IZR).
    apply IZR_le; lia. }
  pose proof (bpow_pos e) as Hpe.
  assert (Hp2 : (0 < IZR (2 ^ k))%R) by (by apply IZR_lt).
  assert (H4 : ((IZR m2 - 1) * IZR (2 ^ k) <= IZR m)%R) by nra.
  assert (H5 : (IZR m + 1 <= (IZR m2 + 1) * IZR (2 ^ k))%R) by nra.
  rewrite HE. destruct Hx as [Hx1 Hx2]. split.
  - apply Rle_trans with (IZR m * bpow e)%R; [|done]. nra.
  - apply Rlt_le_trans with ((IZR m + 1) * bpow e)%R; [done|]. nra.
Qed.

Lemma iter_xO (m d : positive) : Zpos (Pos.iter xO m d) = Zpos m * 2 ^ Zpos d.
Proof.
  induction d as [|d IH] using Pos.peano_ind.
  - simpl. lia.
  - rewrite Pos.iter_succ, Pos2Z.inj_succ, Z.pow_succ_r by lia.
    rewrite (Pos2Z.inj_xO (Pos.iter xO m d)), IH. lia.
Qed.

Lemma Zdigits2_unique (x a : Z) :
  0 < x -> 2 ^ (a - 1) <= x < 2 ^ a -> Zdigits2 x = a.
Proof.
  intros Hx [Hlo Hhi]. destruct (Zdigits2_bounds x Hx) as (Hd & Hl & Hh).
  assert (0 < a).
  { destruct (Z_lt_ge_dec 0 a) as [|Hge]; [done|].
    assert (a = 0 \/ a < 0) as [-> | Hneg] by lia; [simpl in Hhi; lia|].
    rewrite (Z.pow_neg_r 2 a Hneg) in Hhi. lia. }
  assert (Zdigits2 x - 1 < a) by (apply (Z.pow_lt_mono_r_iff 2); lia).
  assert (a - 1 < Zdigits2 x) by (apply (Z.pow_lt_mono_r_iff 2); lia).
  lia.
Qed.

(** The magnitude of a positive integer times a power of two. *)
Lemma F2R_magnitude (m e : Z) :
  0 < m ->
  (bpow (Zdigits2 m + e - 1) <= IZR m * bpow e < bpow (Zdigits2 m + e))%R.
Proof.
  intros Hm. destruct (Zdigits2_bounds m Hm) as (Hd & Hl & Hh).
  replace (Zdigits2 m + e - 1) with ((Zdigits2 m - 1) + e) by lia.
  rewrite !bpow_add, (bpow_IZR (Zdigits2 m - 1)), (bpow_IZR (Zdigits2 m)) by lia.
  apply IZR_le in Hl. apply IZR_lt in Hh. pose proof (bpow_pos e). nra.
Qed.

(** [binary_round], on the exact value [m * 2^e]. *)
Lemma binary_round_faithful (m : positive) (e : Z) :
  fexp64 (Zpos (digits2_pos m) + e) <= 970 ->
  fin_nonneg (binary_round prec emax false m e) /\
  faithful (IZR (Zpos m) * bpow e) (fexp64 (Zpos (digits2_pos m) + e))
           (SF2R (binary_round prec emax false m e)).
Proof.
  intros He. unfold binary_round, shl_align.
  change (fexp prec emax) with fexp64.
  set (E := fexp64 (Zpos (digits2_pos m) + e)) in *.
  destruct (E - e) as [|dd|dd] eqn:Hd.
  - assert (Z.max (fexp64 (Zdigits2 (Zpos m) + e)) e = E) as HE by (simpl; fold E; lia).
    rewrite <- HE. apply bra_faithful; [lia| |lia].
    pose proof (bpow_pos e). lra.
  - assert (Z.max (fexp64 (Zdigits2 (Zpos m) + e)) e = E) as HE by (simpl; fold E; lia).
    rewrite <- HE. apply bra_faithful; [lia| |lia].
    pose proof (bpow_pos e). lra.
  - assert (Hval : (IZR (Zpos (Pos.iter xO m dd)) * bpow E = IZR (Zpos m) * bpow e)%R).
    { rewrite iter_xO, mult_IZR. replace e with (E + Zpos dd) by lia.
      rewrite bpow_add, (bpow_IZR (Zpos dd)) by lia. lra. }
    assert (Hdig : Zdigits2 (Zpos (Pos.iter xO m dd)) = Zpos (digits2_pos m) + Zpos dd).
    { apply Zdigits2_unique; [lia|]. rewrite iter_xO.
      pose proof (digits2_bounds m) as [Hl Hh].
      replace (Z.pos (digits2_pos m) + Z.pos dd - 1)
        with ((Z.pos (digits2_pos m) - 1) + Z.pos dd) by lia.
      rewrite !Z.pow_add_r by lia.
      assert (0 < 2 ^ Z.pos dd) by (apply Z.pow_pos_nonneg; lia). nia. }
    assert (Z.max (fexp64 (Zdigits2 (Zpos (Pos.iter xO m dd)) + E)) E = E) as HE.
    { rewrite Hdig. replace (Z.pos (digits2_pos m) + Z.pos dd + E)
        with (Z.pos (digits2_pos m) + e) by lia. fold E. lia. }
    rewrite <- HE at 2. rewrite <- Hval. apply bra_faithful; [lia| |lia].
    pose proof (bpow_pos E). lra.
Qed.

Lemma faithful_upper_grid (x r : R) (E t g : Z) :
  faithful x E r -> E <= t -> (x < IZR g * bpow t)%R -> (r <= IZR g * bpow t)%R.
Proof.
  intros Hf Ht Hx.
  assert (Hg : (IZR g * bpow t = IZR (g * 2 ^ (t - E)) * bpow E)%R).
  { rewrite mult_IZR. replace t with ((t - E) + E) at 1 by lia.
    rewrite bpow_add, (bpow_IZR (t - E)) by lia. lra. }
  rewrite Hg in *. by apply (faithful_upper x).
Qed.

Lemma faithful_lower_grid (x r : R) (E t g : Z) :
  faithful x E r -> E <= t -> (IZR g * bpow t <= x)%R -> (IZR g * bpow t <= r)%R.
Proof.
  intros Hf Ht Hx.
  assert (Hg : (IZR g * bpow t = IZR (g * 2 ^ (t - E)) * bpow E)%R).
  { rewrite mult_IZR. replace t with ((t - E) + E) at 1 by lia.
    rewrite bpow_add, (bpow_IZR (t - E)) by lia. lra. }
  rewrite Hg in *. by apply (faithful_lower x).
Qed.

Lemma fin_nonneg_pos (x : spec_float) :
  fin_nonneg x -> (0 < SF2R x)%R -> exists m e, x = S754_finite false m e.
Proof.
  destruct x as [[]|[]| |[] m e]; simpl; try done; try lra. intros _ _. by exists m, e.
Qed.

(** A valid binary64 float that is not tiny has a full 53-bit mantissa. *)
Lemma valid_normal (m : positive) (e : Z) :
  valid_binary (S754_finite false m e) = true ->
  (bpow (-1000) <= IZR (Zpos m) * bpow e)%R ->
  Zpos (digits2_pos m) = 53.
Proof.
  unfold valid_binary, bounded, canonical_mantissa. change (fexp prec emax) with fexp64.
  intros Hv Hx. apply andb_prop in Hv as [Hc _]. apply Z.eqb_eq in Hc.
  pose proof (F2R_magnitude (Zpos m) e ltac:(lia)) as [_ Hhi]. simpl in Hhi.
  assert (-1000 < Z.pos (digits2_pos m) + e) by (apply bpow_lt_inv; lra).
  rewrite fexp_64 in Hc. unfold fexp64 in Hc. lia.
Qed.

(** *** Conversion of an integer *)

Lemma Prim2SF_float64_of_int (i : Z) :
  0 <= i < 2 ^ 63 ->
  Prim2SF (SF2Prim (binary_normalize prec emax i 0 false)) =
  binary_normalize prec emax i 0 false.
Proof.
  intros Hi. apply Prim2SF_SF2Prim.
  assert (E : Uint63Axioms.to_Z (Uint63Axioms.of_Z i) = i).
  { rewrite Uint63.of_Z_spec. apply Z.mod_small. done. }
  rewrite <- E, <- of_uint63_spec. apply Prim2SF_valid.
Qed.

Lemma binary_normalize_bounds (i : Z) :
  1 <= i < 2 ^ 63 ->
  fin_nonneg (binary_normalize prec emax i 0 false) /\
  (IZR i * (1 - bpow (-52)) <= SF2R (binary_normalize prec emax i 0 false)
     <= IZR i * (1 + bpow (-52)))%R.
Proof.
  intros Hi. destruct i as [|p|p]; try lia. cbn [binary_normalize].
  assert (Hd : 1 <= Zpos (digits2_pos p) <= 63).
  { pose proof (Zdigits2_le (Zpos p) 63 ltac:(lia) ltac:(lia) ltac:(lia)). simpl in *. lia. }
  assert (HE : fexp64 (Zpos (digits2_pos p) + 0) = Zpos (digits2_pos p) - 53)
    by (unfold fexp64; lia).
  destruct (binary_round_faithful p 0) as [Hfin [_ [H1 H2]]]; [lia|].
  split; [done|]. rewrite HE in *.
  pose proof (F2R_magnitude (Zpos p) 0 ltac:(lia)) as [Hmag _]. simpl in Hmag.
  replace (Z.pos (digits2_pos p) + 0 - 1) with ((Z.pos (digits2_pos p) - 53) + 52) in Hmag by lia.
  rewrite bpow_add in Hmag.
  assert (Hu : (bpow 52 * bpow (-52) = 1)%R) by (rewrite <- bpow_add; reflexivity).
  pose proof (bpow_pos (Z.pos (digits2_pos p) - 53)).
  pose proof (bpow_pos (-52)). pose proof (bpow_pos 52).
  change (bpow 0) with 1%R in *.
  set (x := IZR (Z.pos p)) in *. set (b := bpow (Z.pos (digits2_pos p) - 53)) in *.
  assert (b <= x * bpow (-52))%R by nra.
  split; nra.
Qed.

(** *** Division *)

Lemma bpow_m40_lt_1 : (bpow (-40) < 1)%R.
Proof.
  assert (bpow 40 * bpow (-40) = 1)%R by (rewrite <- bpow_add; reflexivity).
  assert (2 <= bpow 40)%R by (rewrite (bpow_IZR 40) by lia; apply IZR_le; lia).
  pose proof (bpow_pos (-40)). nra.
Qed.

Lemma SFdiv_below (mA mB : positive) (eA eB : Z) :
  Zpos (digits2_pos mA) = 53 -> Zpos (digits2_pos mB) = 53 ->
  -200 <= eA <= 200 -> -200 <= eB <= 200 ->
  (IZR (Zpos mA) * bpow eA < (1 + bpow (-40)) * (IZR (Zpos mB) * bpow eB))%R ->
  fin_nonneg (SFdiv prec emax (S754_finite false mA eA) (S754_finite false mB eB)) /\
  (SF2R (SFdiv prec emax (S754_finite false mA eA) (S754_finite false mB eB))
     <= 1 + bpow (-40))%R.
Proof.
  intros HdA HdB HeA HeB Hlt.
  unfold SFdiv, SFdiv_core_binary. cbn [Zdigits2 xorb]. rewrite HdA, HdB.
  change (fexp prec emax) with fexp64.
  replace (Z.min (fexp64 (53 + eA - (53 + eB))) (eA - eB)) with (eA - eB - 53)
    by (unfold fexp64; lia).
  replace (eA - eB - (eA - eB - 53)) with 53 by lia.
  pose proof (digits2_bounds mA) as [HA1 HA2]. rewrite HdA in HA1, HA2.
  pose proof (digits2_bounds mB) as [HB1 HB2]. rewrite HdB in HB1, HB2.
  change (53 - 1) with 52 in *.
  pose proof (Z_div_mod (Z.shiftl (Zpos mA) 53) (Zpos mB) ltac:(lia)) as Hdm.
  change Z.div_eucl with IntDef.Z.div_eucl in Hdm.
  destruct (IntDef.Z.div_eucl (Z.shiftl (Zpos mA) 53) (Zpos mB)) as [q r].
  rewrite Z.shiftl_mul_pow2 in Hdm by lia. destruct Hdm as [Hq Hr].
  set (e' := eA - eB - 53). set (l := new_location (Zpos mB) r).
  (* the quotient has at least 53 bits *)
  assert (Hq52 : 2 ^ 52 <= q) by nia.
  pose proof (bpow_pos eA) as HpA. pose proof (bpow_pos eB) as HpB.
  pose proof (bpow_pos e') as Hpe. pose proof (bpow_pos (-40)) as Hpv.
  pose proof bpow_m40_lt_1 as Hv1.
  assert (HmA : (0 < IZR (Zpos mA))%R) by (by apply IZR_lt).
  assert (HmB : (0 < IZR (Zpos mB))%R) by (by apply IZR_lt).
  set (a := (IZR (Zpos mA) * bpow eA)%R) in *.
  set (b := (IZR (Zpos mB) * bpow eB)%R) in *.
  assert (Hb : (0 < b)%R) by (unfold b; nra).
  assert (HeAB : bpow eA = (bpow e' * bpow eB * IZR (2 ^ 53))%R).
  { rewrite <- (bpow_IZR 53), <- !bpow_add by lia. f_equal. unfold e'. lia. }
  (* the exact quotient [x], with [x * b = a] *)
  set (t := (/ IZR (Zpos mB))%R).
  assert (Ht : (0 < t)%R) by (by apply Rinv_0_lt_compat).
  assert (Ht1 : (t * IZR (Zpos mB) = 1)%R) by (apply Rinv_l; lra).
  set (x := ((IZR q + IZR r * t) * bpow e')%R).
  assert (Hqr : (IZR (Zpos mA) * IZR (2 ^ 53) = IZR (Zpos mB) * IZR q + IZR r)%R)
    by (rewrite <- !mult_IZR, <- plus_IZR; by f_equal).
  assert (Hr0 : (0 <= IZR r < IZR (Zpos mB))%R) by (split; [apply IZR_le|apply IZR_lt]; lia).
  assert (Hxb : (x * b = a)%R).
  { unfold x, a, b. rewrite HeAB.
    transitivity ((IZR (Zpos mB) * IZR q + IZR r * (t * IZR (Zpos mB))) * bpow e' * bpow eB)%R;
      [ring|]. rewrite Ht1, Rmult_1_r, <- Hqr. ring. }
  assert (Hrt : (0 <= IZR r * t < 1)%R) by (split; nra).
  assert (Hcell : (IZR q * bpow e' <= x < (IZR q + 1) * bpow e')%R) by (unfold x; split; nra).
  assert (Hx2 : (x < 1 + bpow (-40))%R).
  { destruct (Rlt_le_dec x (1 + bpow (-40))) as [|Hge]; [done|]. exfalso. nra. }
  (* the grid of the result is at or below 2^-52 *)
  assert (Hq0 : 0 < q) by lia.
  pose proof (F2R_magnitude q e' Hq0) as [Hmag _].
  assert (Hdq : Zdigits2 q + e' - 1 < 1).
  { apply bpow_lt_inv. change (bpow 1) with (powerRZ 2 1). simpl. lra. }
  assert (HeA' : eA - eB <= 1).
  { assert (52 + eA < 54 + eB); [|lia]. apply bpow_lt_inv.
    rewrite !bpow_add, (bpow_IZR 52), (bpow_IZR 54) by lia.
    apply IZR_le in HA1. apply IZR_lt in HB2.
    replace (2 ^ 54) with (2 * 2 ^ 53) by reflexivity. rewrite mult_IZR.
    assert (a < 2 * b)%R by nra. unfold a, b in *.
    apply Rle_lt_trans with (IZR (Z.pos mA) * bpow eA)%R; [nra|].
    apply Rlt_le_trans with (2 * (IZR (Z.pos mB) * bpow eB))%R; [done|]. nra. }
  set (E := Z.max (fexp64 (Zdigits2 q + e')) e').
  assert (HE : E <= -40) by (unfold E, fexp64, e'; lia).
  destruct (bra_faithful q e' l x Hq0 Hcell) as [Hfin Hf]; [fold E; lia|].
  split; [done|]. fold E in Hf.
  assert (Hg : (1 + bpow (-40) = IZR (2 ^ 40 + 1) * bpow (-40))%R).
  { rewrite plus_IZR, <- (bpow_IZR 40) by lia.
    rewrite Rmult_plus_distr_r, <- bpow_add. change (bpow (40 + -40)) with 1%R. lra. }
  rewrite Hg. apply (faithful_upper_grid x _ E); [done|lia|]. by rewrite <- Hg.
Qed.

(** *** Multiplication by 254 and addition of 1 *)

Lemma bpow_m40_small : (bpow (-40) * 1024 <= 1)%R.
Proof.
  replace 1024%R with (bpow 10) by (rewrite (bpow_IZR 10) by lia; reflexivity).
  rewrite <- bpow_add. change 1%R with (bpow 0). apply bpow_le. lia.
Qed.

Lemma SFmul_254_below (q : spec_float) :
  fin_nonneg q -> (SF2R q <= 1 + bpow (-40))%R ->
  fin_nonneg (SFmul prec emax q (S754_finite false 8936830510563328 (-45))) /\
  (SF2R (SFmul prec emax q (S754_finite false 8936830510563328 (-45)))
     <= IZR 509 * bpow (-1))%R.
Proof.
  intros Hfin Hq. pose proof bpow_m40_small as Hv. pose proof (bpow_pos (-40)) as Hpv.
  assert (Hhalf : (bpow (-1) = / 2)%R) by (unfold bpow; simpl; lra).
  destruct q as [[]|[]| |[] mq eq]; simpl in Hfin; try done.
  - cbn [SFmul xorb SF2R fin_nonneg]. split; [done|]. rewrite Hhalf. lra.
  - cbn [SFmul xorb]. simpl in Hq.
    set (m := Zpos (mq * 8936830510563328)). set (e := eq + -45).
    assert (Hm : 0 < m) by (unfold m; lia).
    assert (H254 : (IZR 8936830510563328 * bpow (-45) = 254)%R).
    { replace 8936830510563328 with (254 * 2 ^ 45) by reflexivity.
      rewrite mult_IZR, <- (bpow_IZR 45), Rmult_assoc, <- bpow_add by lia.
      change (bpow (45 + -45)) with 1%R. lra. }
    assert (Hx : (IZR m * bpow e = 254 * (IZR (Zpos mq) * bpow eq))%R).
    { unfold m, e. rewrite Pos2Z.inj_mul, mult_IZR, bpow_add, <- H254. ring. }
    pose proof (bpow_pos eq) as Hpe. pose proof (bpow_pos e) as Hpe'.
    assert (Hmq : (1 <= IZR (Zpos mq))%R) by (apply IZR_le; lia).
    assert (Heq : eq < 1).
    { apply bpow_lt_inv. replace (bpow 1) with 2%R by (unfold bpow; simpl; lra). nra. }
    pose proof (F2R_magnitude m e Hm) as [Hmag _].
    assert (Hd : Zdigits2 m + e - 1 < 8).
    { apply bpow_lt_inv. rewrite (bpow_IZR 8) by lia. change (IZR (2 ^ 8)) with 256%R. nra. }
    set (E := Z.max (fexp64 (Zdigits2 m + e)) e).
    assert (HE : E <= -1) by (unfold E, fexp64, e; lia).
    destruct (bra_faithful m e loc_Exact (IZR m * bpow e) Hm) as [Hf1 Hf2];
      [nra|fold E; lia|].
    split; [done|]. fold E in Hf2.
    apply (faithful_upper_grid (IZR m * bpow e) _ E); [done|lia|]. rewrite Hx, Hhalf. nra.
Qed.

Lemma shl_align_value (m : positive) (e ez : Z) :
  ez <= e ->
  (IZR (Zpos (fst (shl_align m e ez))) * bpow ez = IZR (Zpos m) * bpow e)%R.
Proof.
  intros Hle. unfold shl_align. destruct (ez - e) as [|d|d] eqn:Hd; simpl.
  - by replace ez with e by lia.
  - lia.
  - rewrite iter_xO, mult_IZR. replace e with (ez + Zpos d) by lia.
    rewrite bpow_add, (bpow_IZR (Zpos d)) by lia. lra.
Qed.

Lemma SFadd_1_bounds (p : spec_float) :
  fin_nonneg p -> (SF2R p <= IZR 509 * bpow (-1))%R ->
  fin_nonneg (SFadd prec emax p (S754_finite false 4503599627370496 (-52))) /\
  (1 <= SF2R (SFadd prec emax p (S754_finite false 4503599627370496 (-52)))
     <= IZR 1023 * bpow (-2))%R.
Proof.
  intros Hfin Hp.
  assert (Hhalf : (bpow (-1) = / 2)%R) by (unfold bpow; simpl; lra).
  assert (Hquarter : (bpow (-2) = / 4)%R) by (unfold bpow; simpl; lra).
  assert (H1 : (IZR 4503599627370496 * bpow (-52) = 1)%R).
  { replace 4503599627370496 with (2 ^ 52) by reflexivity.
    rewrite <- (bpow_IZR 52), <- bpow_add by lia. reflexivity. }
  destruct p as [[]|[]| |[] mp ep]; simpl in Hfin; try done.
  - cbn [SFadd SF2R]. rewrite H1, Hquarter. split; [done|lra].
  - cbn [SFadd cond_Zopp]. simpl in Hp.
    set (ez := Z.min ep (-52)).
    pose proof (shl_align_value mp ep ez ltac:(unfold ez; lia)) as Ha.
    pose proof (shl_align_value 4503599627370496 (-52) ez ltac:(unfold ez; lia)) as Hb.
    set (a := fst (shl_align mp ep ez)) in *.
    set (b := fst (shl_align 4503599627370496 (-52) ez)) in *.
    change (Zpos a + Zpos b) with (Zpos (a + b)). cbn [binary_normalize].
    assert (Hx : (IZR (Zpos (a + b)) * bpow ez = IZR (Zpos mp) * bpow ep + 1)%R).
    { rewrite Pos2Z.inj_add, plus_IZR, Rmult_plus_distr_r, Ha, Hb, H1. done. }
    pose proof (bpow_pos ep) as Hpe.
    assert (Hmp : (0 < IZR (Zpos mp))%R) by (by apply IZR_lt).
    pose proof (F2R_magnitude (Zpos (a + b)) ez ltac:(lia)) as [Hmag _].
    cbn [Zdigits2] in Hmag.
    assert (Hd : Zpos (digits2_pos (a + b)) + ez - 1 < 8).
    { apply bpow_lt_inv. rewrite (bpow_IZR 8) by lia. change (IZR (2 ^ 8)) with 256%R. nra. }
    set (E := fexp64 (Zpos (digits2_pos (a + b)) + ez)).
    assert (HE : E <= -45) by (unfold E, fexp64; lia).
    destruct (binary_round_faithful (a + b) ez) as [Hf1 Hf2]; [fold E; lia|].
    split; [done|]. fold E in Hf2. split.
    + replace 1%R with (IZR 1 * bpow 0)%R by (unfold bpow; simpl; lra).
      apply (faithful_lower_grid (IZR (Zpos (a + b)) * bpow ez) _ E); [done|lia|].
      rewrite Hx. unfold bpow at 1; simpl. nra.
    + apply (faithful_upper_grid (IZR (Zpos (a + b)) * bpow ez) _ E); [done|lia|].
      rewrite Hx, Hquarter. nra.
Qed.

(** *** Truncation to an integer *)

Lemma trunc_bounds (v : spec_float) :
  fin_nonneg v -> (1 <= SF2R v <= IZR 1023 * bpow (-2))%R ->
  exists m e, v = S754_finite false m e /\
    1 <= (if 0 <=? e then Z.shiftl (Zpos m) e else Z.shiftr (Zpos m) (- e)) <= 255.
Proof.
  intros Hfin [Hlo Hhi].
  assert (Hquarter : (bpow (-2) = / 4)%R) by (unfold bpow; simpl; lra).
  destruct (fin_nonneg_pos v Hfin ltac:(lra)) as (m & e & ->).
  exists m, e. split; [done|]. simpl in Hlo, Hhi. rewrite Hquarter in Hhi.
  destruct (0 <=? e) eqn:G.
  - apply Z.leb_le in G. rewrite Z.shiftl_mul_pow2 by done.
    rewrite (bpow_IZR e G), <- mult_IZR in Hlo, Hhi.
    assert (IZR (Zpos m * 2 ^ e) < IZR 256)%R as H by lra.
    apply lt_IZR in H. apply le_IZR in Hlo. lia.
  - apply Z.leb_gt in G. rewrite Z.shiftr_div_pow2 by lia.
    assert (Hp : (bpow e * IZR (2 ^ (- e)) = 1)%R).
    { rewrite <- (bpow_IZR (- e)), <- bpow_add by lia. replace (e + - e) with 0 by lia. done. }
    assert (Hpos : 0 < 2 ^ (- e)) by (apply Z.pow_pos_nonneg; lia).
    pose proof (bpow_pos e) as Hpe. apply IZR_lt in Hpos as Hpos'.
    assert (Hm1 : (IZR (2 ^ (- e)) <= IZR (Zpos m))%R) by nra.
    assert (Hm2 : (IZR (Zpos m) < IZR (2 ^ (- e) * 256))%R) by (rewrite mult_IZR; nra).
    apply le_IZR in Hm1. apply lt_IZR in Hm2. split.
    + apply Z.div_le_lower_bound; lia.
    + assert (Zpos m / 2 ^ (- e) < 256) by (apply Z.div_lt_upper_bound; lia). lia.
Qed.

(** *** The colour index of a trail segment *)

Lemma float64_of_int_normal (i : Z) :
  1 <= i <= max_int ->
  exists m e, Prim2SF (float64_of_int i) = S754_finite false m e /\
    Zpos (digits2_pos m) = 53 /\ -200 <= e <= 200 /\
    (IZR i * (1 - bpow (-52)) <= IZR (Zpos m) * bpow e <= IZR i * (1 + bpow (-52)))%R.
Proof.
  intros Hi. unfold max_int in Hi.
  pose proof (Prim2SF_valid (float64_of_int i)) as Hvalid.
  unfold float64_of_int in *. rewrite Prim2SF_float64_of_int in * by lia.
  destruct (binary_normalize_bounds i ltac:(lia)) as [Hfin [Hlo Hhi]].
  assert (Hu : (bpow (-52) * 2 <= 1)%R).
  { replace 2%R with (bpow 1) by (unfold bpow; simpl; lra).
    rewrite <- bpow_add. change 1%R with (bpow 0). apply bpow_le. lia. }
  pose proof (bpow_pos (-52)) as Hpu.
  assert (Hi1 : (1 <= IZR i)%R) by (apply IZR_le; lia).
  assert (Hi2 : (IZR i < IZR (2 ^ 63))%R) by (apply IZR_lt; lia).
  destruct (fin_nonneg_pos _ Hfin ltac:(nra)) as (m & e & E).
  rewrite E in *. exists m, e. cbn [SF2R] in Hlo, Hhi.
  assert (Hd : Zpos (digits2_pos m) = 53).
  { apply (valid_normal m e Hvalid).
    apply Rle_trans with (bpow (-1)); [apply bpow_le; lia|].
    replace (bpow (-1)) with (/ 2)%R by (unfold bpow; simpl; lra). nra. }
  pose proof (F2R_magnitude (Zpos m) e ltac:(lia)) as [Hm1 Hm2].
  cbn [Zdigits2] in Hm1, Hm2. rewrite Hd in Hm1, Hm2.
  assert (53 + e - 1 < 64).
  { apply bpow_lt_inv. rewrite (bpow_IZR 64) by lia.
    replace (2 ^ 64) with (2 * 2 ^ 63) by reflexivity. rewrite mult_IZR. nra. }
  assert (-1 < 53 + e).
  { apply bpow_lt_inv. replace (bpow (-1)) with (/ 2)%R by (unfold bpow; simpl; lra). nra. }
  split_and!; try done; lia.
Qed.

(** C7, amended: the colour index of the i-th segment of a trail of n
    points, 1 <= i < n, is at least 1 and at most 255; index 0 is never
    used.  (Index 1 is used: see [C7_counterexample].) *)
Theorem C7_segment_colour_range (i n : Z) :
  1 <= i < n -> n <= max_int ->
  1 <= segmentColorIndex i n <= 255.
Proof.
  intros Hi Hn.
  destruct (float64_of_int_normal i ltac:(lia)) as (mA & eA & HA & HdA & HeA & HA1 & HA2).
  destruct (float64_of_int_normal n ltac:(lia)) as (mB & eB & HB & HdB & HeB & HB1 & HB2).
  assert (Hv : (bpow (-40) = bpow (-52) * 4096)%R).
  { replace 4096%R with (bpow 12) by (rewrite (bpow_IZR 12) by lia; reflexivity).
    by rewrite <- bpow_add. }
  pose proof bpow_m40_small as Hv1. pose proof (bpow_pos (-52)) as Hpu.
  assert (Hin : (1 <= IZR i /\ IZR i + 1 <= IZR n)%R).
  { split; [apply IZR_le; lia|]. rewrite <- plus_IZR. apply IZR_le. lia. }
  destruct (SFdiv_below mA mB eA eB HdA HdB HeA HeB) as [Hq1 Hq2].
  { set (u := bpow (-52)) in *. rewrite Hv.
    apply Rle_lt_trans with (IZR i * (1 + u))%R; [done|].
    apply Rlt_le_trans with ((1 + u * 4096) * (IZR n * (1 - u)))%R; [nra|].
    apply Rmult_le_compat_l; [nra|done]. }
  destruct (SFmul_254_below _ Hq1 Hq2) as [Hp1 Hp2].
  destruct (SFadd_1_bounds _ Hp1 Hp2) as [Hs1 Hs2].
  destruct (trunc_bounds _ Hs1 Hs2) as (m & e & Hres & Hz).
  unfold segmentColorIndex, uint8_of_float64, int_of_float64, trunc_float.
  rewrite add_spec, mul_spec, div_spec, HA, HB.
  change (Prim2SF 254) with (S754_finite false 8936830510563328 (-45)).
  change (Prim2SF 1) with (S754_finite false 4503599627370496 (-52)).
  unfold SF64add, SF64mul, SF64div. rewrite Hres.
  set (z := if 0 <=? e then Z.shiftl (Zpos m) e else Z.shiftr (Zpos m) (- e)) in *.
  replace ((min_int <=? z) && (z <=? max_int)) with true.
  - rewrite Z.mod_small; lia.
  - symmetry. apply andb_true_intro.
    split; apply Z.leb_le; unfold min_int, max_int; lia.
Qed.

(** C7, as stated, fails: the first segment of a trail of 300 points is
    drawn with index 1, which is not strictly greater than 1. *)
Lemma C7_counterexample :
  segmentColorIndex 1 300 = 1 /\ ~ (1 < segmentColorIndex 1 300 <= 255).
Proof.
  assert (E : segmentColorIndex 1 300 = 1) by (vm_compute; reflexivity).
  rewrite E. split; [done|lia].
Qed.

Lemma C7_witness :
  (1 <= 299 < 300 /\ 300 <= max_int) /\ 1 <= segmentColorIndex 299 300 <= 255.
Proof.
  split; [unfold max_int; lia|].
  apply (C7_segment_colour_range 299 300); unfold max_int; lia.
Defined.

(** * Further properties of the code *)

(** ** The trajectory *)

Lemma run_next_S (n : nat) (a : LorenzAttractor) :
  run_next (S n) a =
    (fst (NextPoint a) :: fst (run_next n (snd (NextPoint a))),
     snd (run_next n (snd (NextPoint a)))).
Proof.
  cbn [run_next]. destruct (NextPoint a) as [p a1]. cbn [fst snd].
  by destruct (run_next n a1).
Qed.

Lemma run_steps_iterates (n : nat) (l : LorenzSystem) :
  let f := euler_step (l_sigma l) (l_rho l) (l_beta l) (l_dt l) in
  (forall i, (i < n)%nat ->
     fst (run_steps n l) !! i = Some (Nat.iter (S i) f (position l))) /\
  position (snd (run_steps n l)) = Nat.iter n f (position l).
Proof.
  revert l. induction n as [|n IH]; intros l f.
  - split; [lia|done].
  - rewrite run_steps_S. cbn [fst snd].
    destruct (Step_params l) as (Es & Er & Eb & Ed & _).
    destruct (IH (snd (Step l))) as [IH1 IH2].
    rewrite Es, Er, Eb, Ed, Step_position, Step_point in IH1, IH2. fold f in IH1, IH2.
    split.
    + intros [|i] Hi; [done|]. cbn [lookup list_lookup].
      rewrite IH1 by lia. by rewrite <- !Nat.iter_succ_r.
    + by rewrite IH2, <- Nat.iter_succ_r.
Qed.

Lemma run_next_iterates (n : nat) (a : LorenzAttractor) :
  let f := euler_step (a_sigma a) (a_rho a) (a_beta a) (a_dt a) in
  (forall i, (i < n)%nat ->
     fst (run_next n a) !! i = Some (Nat.iter (S i) f (a_position a))) /\
  a_position (snd (run_next n a)) = Nat.iter n f (a_position a) /\
  length (fst (run_next n a)) = n.
Proof.
  revert a. induction n as [|n IH]; intros a f.
  - split; [lia|done].
  - rewrite run_next_S. cbn [fst snd].
    destruct (IH (snd (NextPoint a))) as (IH1 & IH2 & IH3).
    change (a_position (snd (NextPoint a))) with (f (a_position a)) in IH1, IH2.
    change (euler_step _ _ _ _) with f in IH1, IH2.
    split_and!.
    + intros [|i] Hi; [done|]. cbn [lookup list_lookup].
      rewrite IH1 by lia. by rewrite <- !Nat.iter_succ_r.
    + by rewrite IH2, <- Nat.iter_succ_r.
    + cbn [length]. by rewrite IH3.
Qed.

(** X1: the points [Step] returns are the successive forward Euler
    iterates of the position the system started from, whatever its trail
    and its capacity; so is the position it holds afterwards. *)
Theorem X1_steps_are_euler_iterates (l : LorenzSystem) (n : nat) :
  let f := euler_step (l_sigma l) (l_rho l) (l_beta l) (l_dt l) in
  length (fst (run_steps n l)) = n /\
  (forall i, (i < n)%nat ->
     fst (run_steps n l) !! i = Some (Nat.iter (S i) f (position l))) /\
  position (snd (run_steps n l)) = Nat.iter n f (position l).
Proof.
  intros f. split; [apply run_steps_length|]. apply run_steps_iterates.
Qed.

(** X2: the integrator of the animation and the one of the showcase,
    started with the same parameters at the same position, return the
    same points, call after call, and end at the same position. *)
Theorem X2_Step_and_NextPoint_agree (l : LorenzSystem) (a : LorenzAttractor) (n : nat) :
  a_sigma a = l_sigma l -> a_rho a = l_rho l -> a_beta a = l_beta l ->
  a_dt a = l_dt l -> a_position a = position l ->
  fst (run_next n a) = fst (run_steps n l) /\
  a_position (snd (run_next n a)) = position (snd (run_steps n l)).
Proof.
  intros Es Er Eb Ed Ep.
  destruct (run_steps_iterates n l) as [H1 H2].
  destruct (run_next_iterates n a) as (G1 & G2 & G3).
  rewrite Es, Er, Eb, Ed, Ep in G1, G2. split.
  - apply list_eq. intros i. destruct (decide (i < n)%nat) as [Hi|Hi].
    + by rewrite G1, H1.
    + rewrite !lookup_ge_None_2; [done|rewrite run_steps_length; lia|lia].
  - by rewrite G2, H2.
Qed.

Lemma X2_witness :
  exists l, NewLorenzSystem 2 = Some l /\
    fst (run_next 3 NewLorenzAttractor) = fst (run_steps 3 l) /\
    a_position (snd (run_next 3 NewLorenzAttractor)) = position (snd (run_steps 3 l)).
Proof.
  eexists. split; [reflexivity|].
  by apply (X2_Step_and_NextPoint_agree _ NewLorenzAttractor 3).
Defined.

(** The trail invariant: its entries are consecutive points of the
    trajectory, and the newest one is the current position. *)
Lemma Step_orbit_segment (l : LorenzSystem) :
  orbit_segment (l_sigma l) (l_rho l) (l_beta l) (l_dt l) (l_trail l) ->
  (forall p, last (l_trail l) = Some p -> p = position l) ->
  let l' := snd (Step l) in
  orbit_segment (l_sigma l) (l_rho l) (l_beta l) (l_dt l) (l_trail l') /\
  (forall p, last (l_trail l') = Some p -> p = position l').
Proof.
  intros Hseg Hlast l'.
  set (p' := fst (Step l)).
  assert (Hseg1 : orbit_segment (l_sigma l) (l_rho l) (l_beta l) (l_dt l) (l_trail l ++ [p'])).
  { intros i p q Hp Hq.
    destruct (decide (S i < length (l_trail l))%nat) as [Hi|Hi].
    - rewrite lookup_app_l in Hp, Hq by lia. by apply (Hseg i).
    - assert (S i = length (l_trail l)) as Ei.
      { apply lookup_lt_Some in Hq. rewrite length_app in Hq. simpl in Hq. lia. }
      rewrite lookup_app_l in Hp by lia.
      rewrite lookup_app_r, Ei, Nat.sub_diag in Hq by lia. injection Hq as <-.
      assert (last (l_trail l) = Some p) as Hl.
      { rewrite last_lookup. rewrite <- Ei. done. }
      rewrite (Hlast p Hl). unfold p'. by rewrite Step_point. }
  assert (Hlast1 : forall t, last (t ++ [p']) = Some p') by (intros; apply last_snoc).
  unfold l'. rewrite Step_trail, Step_position. fold p'.
  destruct (_ >? _).
  - split.
    + intros i p q Hp Hq. rewrite lookup_drop in Hp, Hq. by apply (Hseg1 (1 + i)%nat).
    + intros p Hp. destruct (l_trail l) as [|q t]; [done|].
      simpl in Hp. rewrite drop_0, last_snoc in Hp. by injection Hp.
  - split; [done|]. intros p Hp. rewrite last_snoc in Hp. by injection Hp.
Qed.

Lemma run_steps_orbit_segment (n : nat) (l : LorenzSystem) :
  orbit_segment (l_sigma l) (l_rho l) (l_beta l) (l_dt l) (l_trail l) ->
  (forall p, last (l_trail l) = Some p -> p = position l) ->
  let l' := snd (run_steps n l) in
  orbit_segment (l_sigma l) (l_rho l) (l_beta l) (l_dt l) (l_trail l') /\
  (forall p, last (l_trail l') = Some p -> p = position l').
Proof.
  revert l. induction n as [|n IH]; intros l Hseg Hlast; [done|].
  rewrite run_steps_S. cbn [snd].
  destruct (Step_orbit_segment l Hseg Hlast) as [H1 H2].
  destruct (Step_params l) as (Es & Er & Eb & Ed & _).
  rewrite <- Es, <- Er, <- Eb, <- Ed in H1 |- *.
  by apply IH.
Qed.

(** X3: the trail of a system made by [NewLorenzSystem] is at all times a
    piece of the trajectory without gaps: each entry is the forward Euler
    step of the entry before it, and the last entry, when there is one,
    is the position the system holds. *)
Theorem X3_trail_is_a_piece_of_the_trajectory (N : Z) (n : nat) :
  0 <= N ->
  exists l0, NewLorenzSystem N = Some l0 /\
    let l := snd (run_steps n l0) in
    orbit_segment (l_sigma l0) (l_rho l0) (l_beta l0) (l_dt l0) (GetTrail l) /\
    (forall p, last (GetTrail l) = Some p -> p = position l).
Proof.
  intros HN. unfold NewLorenzSystem.
  destruct (N <? 0) eqn:G; [btp; lia|].
  eexists; split; [reflexivity|].
  apply run_steps_orbit_segment; [|done].
  intros i p q Hp. done.
Qed.

Lemma X3_witness :
  0 <= 2 /\
  exists l0, NewLorenzSystem 2 = Some l0 /\
    let l := snd (run_steps 5 l0) in
    orbit_segment (l_sigma l0) (l_rho l0) (l_beta l0) (l_dt l0) (GetTrail l) /\
    (forall p, last (GetTrail l) = Some p -> p = position l).
Proof. split; [lia|]. apply (X3_trail_is_a_piece_of_the_trajectory 2 5). lia. Defined.

(** ** Logistic sequence *)

Lemma int_succ (i : Z) : 0 <= i < max_int -> int_add i 1 = i + 1.
Proof. intros H. apply wrap_id. unfold is_int, min_int, max_int in *. lia. Qed.

(** The invariant of the loop: [i] values are in place, [x] is the last
    of them, and the slice has the length it was made with. *)
Lemma GenerateLogisticSequence_loop_spec (r x0 : float) (iterations : Z)
    (fuel i : nat) (s : list float) :
  0 <= iterations <= max_int -> Z.of_nat i <= iterations ->
  (Z.to_nat (iterations - Z.of_nat i) < fuel)%nat ->
  len s = iterations ->
  (forall j, (j < i)%nat -> s !! j = Some (Nat.iter (S j) (LogisticMap r) x0)) ->
  exists s',
    GenerateLogisticSequence_loop fuel r iterations (Z.of_nat i)
      (Nat.iter i (LogisticMap r) x0) s = Value s' /\
    len s' = iterations /\
    forall j : nat, Z.of_nat j < iterations ->
      s' !! j = Some (Nat.iter (S j) (LogisticMap r) x0).
Proof.
  intros Hit. revert i s. induction fuel as [|fuel IH]; intros i s Hi Hfuel Hlen Hs; [lia|].
  cbn [GenerateLogisticSequence_loop].
  destruct (Z.of_nat i <? iterations) eqn:G; btp.
  - unfold store. rewrite Hlen.
    destruct (0 <=? Z.of_nat i) eqn:G1; btp; [|lia].
    destruct (Z.of_nat i <? iterations) eqn:G2; btp; [|lia]. cbn [andb].
    rewrite int_succ by lia. rewrite Nat2Z.id.
    replace (Z.of_nat i + 1) with (Z.of_nat (S i)) by lia.
    change (LogisticMap r (Nat.iter i (LogisticMap r) x0))
      with (Nat.iter (S i) (LogisticMap r) x0).
    apply IH; [lia|lia| |].
    + unfold len in *. by rewrite length_insert.
    + intros j Hj. destruct (decide (j = i)) as [->|Hne].
      * apply list_lookup_insert_eq. unfold len in Hlen. lia.
      * rewrite list_lookup_insert_ne by done. apply Hs. lia.
  - exists s. split_and!; [done..|]. intros j Hj. apply Hs. lia.
Qed.

(** X4: [GenerateLogisticSequence] panics on a negative count; otherwise
    it returns a slice of exactly [iterations] values, the successive
    iterates of the logistic map from [x0]: the first entry is the map
    applied once to [x0] (the seed itself is not stored), each later
    entry the map applied to the entry before.  No store leaves the
    slice. *)
Theorem X4_logistic_sequence (fuel : nat) (r x0 : float) (iterations : Z) :
  is_int iterations -> (Z.to_nat iterations < fuel)%nat ->
  if iterations <? 0 then GenerateLogisticSequence fuel r x0 iterations = Panicked
  else exists s,
    GenerateLogisticSequence fuel r x0 iterations = Value s /\
    len s = iterations /\
    (forall j : nat, Z.of_nat j < iterations ->
       s !! j = Some (Nat.iter (S j) (LogisticMap r) x0)) /\
    head s = (if iterations =? 0 then None else Some (LogisticMap r x0)) /\
    (forall (j : nat) (a b : float),
       s !! j = Some a -> s !! S j = Some b -> b = LogisticMap r a).
Proof.
  intros Hint Hfuel. unfold GenerateLogisticSequence.
  destruct (iterations <? 0) eqn:G; btp; [done|].
  destruct (GenerateLogisticSequence_loop_spec r x0 iterations fuel 0
              (replicate (Z.to_nat iterations) 0%float))
    as (s & E & Hlen & Hs).
  - unfold is_int, min_int, max_int in *. lia.
  - lia.
  - lia.
  - unfold len. rewrite length_replicate. lia.
  - lia.
  - exists s. split_and!; try done.
    + destruct (iterations =? 0) eqn:G0; btp.
      * destruct s; [done|]. unfold len in Hlen. simpl in Hlen. lia.
      * rewrite head_lookup. apply (Hs 0%nat). lia.
    + intros j a b Ha Hb.
      assert (Z.of_nat (S j) < iterations) as Hj.
      { apply lookup_lt_Some in Hb. unfold len in Hlen. lia. }
      rewrite Hs in Ha by lia. rewrite Hs in Hb by lia.
      injection Ha as <-. injection Hb as <-. done.
Qed.

Lemma X4_witness :
  exists s,
    GenerateLogisticSequence 4 (0x1.9p+1)%float (0x1p-1)%float 3 = Value s /\
    len s = 3 /\
    (forall j : nat, Z.of_nat j < 3 ->
       s !! j = Some (Nat.iter (S j) (LogisticMap (0x1.9p+1)%float) (0x1p-1)%float)) /\
    head s = Some (LogisticMap (0x1.9p+1)%float (0x1p-1)%float) /\
    (forall (j : nat) (a b : float),
       s !! j = Some a -> s !! S j = Some b -> b = LogisticMap (0x1.9p+1)%float a).
Proof.
  apply (X4_logistic_sequence 4 (0x1.9p+1)%float (0x1p-1)%float 3).
  - unfold is_int, min_int, max_int. lia.
  - simpl. lia.
Defined.

(** ** Escape time *)

(** The loop of [MandelbrotSet] from iteration [i] on, none of the
    earlier points of the orbit having escaped: it returns the first
    index below [maxIter] at which the orbit has left the disc of radius
    2, or [maxIter] when there is none. *)
Lemma MandelbrotSet_loop_spec (c : complex128) (maxIter : Z) (fuel i : nat) :
  maxIter <= max_int ->
  (Z.to_nat (maxIter - Z.of_nat i) < fuel)%nat ->
  (forall j : nat, (j < i)%nat -> escaped (mandel_orbit c j) = false) ->
  exists k,
    MandelbrotSet_loop fuel c maxIter (Z.of_nat i) (mandel_orbit c i) = Value k /\
    (maxIter <= Z.of_nat i -> k = maxIter) /\
    (Z.of_nat i <= maxIter -> Z.of_nat i <= k <= maxIter) /\
    (forall j : nat, Z.of_nat j < k -> escaped (mandel_orbit c j) = false) /\
    (k < maxIter -> escaped (mandel_orbit c (Z.to_nat k)) = true).
Proof.
  intros Hmax. revert i. induction fuel as [|fuel IH]; intros i Hfuel Hbefore; [lia|].
  cbn [MandelbrotSet_loop].
  destruct (Z.of_nat i <? maxIter) eqn:G; btp.
  - fold (escaped (mandel_orbit c i)).
    destruct (escaped (mandel_orbit c i)) eqn:E.
    + exists (Z.of_nat i). split_and!; try done; try lia.
      * intros j Hj. apply Hbefore. lia.
      * intros _. by rewrite Nat2Z.id.
    + rewrite int_succ by lia.
      replace (Z.of_nat i + 1) with (Z.of_nat (S i)) by lia.
      change (complex_add (complex_mul (mandel_orbit c i) (mandel_orbit c i)) c)
        with (mandel_orbit c (S i)).
      destruct (IH (S i)) as (k & Ek & H1 & H2 & H3 & H4); [lia| |].
      * intros j Hj. destruct (decide (j = i)) as [->|Hne]; [done|]. apply Hbefore. lia.
      * exists k. split_and!; try done; lia.
  - exists maxIter. split_and!; try done; try lia.
    intros j Hj. apply Hbefore. lia.
Qed.

Lemma MandelbrotSet_spec (fuel : nat) (c : complex128) (maxIter : Z) :
  is_int maxIter -> (Z.to_nat maxIter < fuel)%nat ->
  exists k, MandelbrotSet fuel c maxIter = Value k /\
    (maxIter <= 0 -> k = maxIter) /\
    (0 <= maxIter -> 0 <= k <= maxIter) /\
    (forall j : nat, Z.of_nat j < k -> escaped (mandel_orbit c j) = false) /\
    (k < maxIter -> escaped (mandel_orbit c (Z.to_nat k)) = true).
Proof.
  intros Hint Hfuel.
  apply (MandelbrotSet_loop_spec c maxIter fuel 0);
    [unfold is_int, max_int in *; lia|lia|lia].
Qed.

(** X5: [MandelbrotSet] returns the escape time of [c]: the index of the
    first point of the orbit of 0 under z -> z*z + c whose squared modulus
    exceeds 4, when that index is below [maxIter], and [maxIter]
    otherwise.  With a budget of zero or less the loop does not run and
    the budget itself comes back, a negative one included. *)
Theorem X5_MandelbrotSet_escape_time (fuel : nat) (c : complex128) (maxIter : Z) :
  is_int maxIter -> (Z.to_nat maxIter < fuel)%nat ->
  exists k, MandelbrotSet fuel c maxIter = Value k /\
    (maxIter <= 0 -> k = maxIter) /\
    (0 <= maxIter -> 0 <= k <= maxIter) /\
    (forall j : nat, Z.of_nat j < k -> escaped (mandel_orbit c j) = false) /\
    (k < maxIter -> escaped (mandel_orbit c (Z.to_nat k)) = true).
Proof. apply MandelbrotSet_spec. Qed.

Lemma X5_witness :
  exists k, MandelbrotSet 6 (mkComplex 1 1) 5 = Value k /\
    (5 <= 0 -> k = 5) /\
    (0 <= 5 -> 0 <= k <= 5) /\
    (forall j : nat, Z.of_nat j < k -> escaped (mandel_orbit (mkComplex 1 1) j) = false) /\
    (k < 5 -> escaped (mandel_orbit (mkComplex 1 1) (Z.to_nat k)) = true).
Proof.
  apply (X5_MandelbrotSet_escape_time 6 (mkComplex 1 1) 5).
  - unfold is_int, min_int, max_int. lia.
  - simpl. lia.
Defined.

(** X6: the escape time does not depend on the budget: a call with the
    smaller budget [m] returns the result of the call with the larger
    budget [m'], cut off at [m]. *)
Theorem X6_MandelbrotSet_budget (fuel fuel' : nat) (c : complex128) (m m' : Z) :
  0 <= m <= m' -> m' <= max_int ->
  (Z.to_nat m < fuel)%nat -> (Z.to_nat m' < fuel')%nat ->
  exists k k', MandelbrotSet fuel c m = Value k /\
    MandelbrotSet fuel' c m' = Value k' /\ k = Z.min m k'.
Proof.
  intros Hm Hm' Hfuel Hfuel'.
  destruct (MandelbrotSet_spec fuel c m) as (k & E & _ & Hr & Hb & He);
    [unfold is_int, min_int, max_int in *; lia|done|].
  destruct (MandelbrotSet_spec fuel' c m') as (k' & E' & _ & Hr' & Hb' & He');
    [unfold is_int, min_int, max_int in *; lia|done|].
  exists k, k'. split_and!; [done..|].
  specialize (Hr ltac:(lia)). specialize (Hr' ltac:(lia)).
  destruct (Z_lt_le_dec k m) as [Hk|Hk], (Z_lt_le_dec k' m) as [Hk'|Hk'].
  - destruct (Z.lt_trichotomy k k') as [H|[H|H]]; [| lia |].
    + specialize (Hb' (Z.to_nat k) ltac:(lia)). rewrite He in Hb' by lia. done.
    + specialize (Hb (Z.to_nat k') ltac:(lia)). rewrite He' in Hb by lia. done.
  - specialize (Hb' (Z.to_nat k) ltac:(lia)). rewrite He in Hb' by lia. done.
  - specialize (Hb (Z.to_nat k') ltac:(lia)). rewrite He' in Hb by lia. done.
  - lia.
Qed.

Lemma X6_witness :
  exists k k', MandelbrotSet 3 (mkComplex 1 1) 2 = Value k /\
    MandelbrotSet 9 (mkComplex 1 1) 8 = Value k' /\ k = Z.min 2 k'.
Proof.
  apply (X6_MandelbrotSet_budget 3 9 (mkComplex 1 1) 2 8);
    unfold max_int; simpl; lia.
Defined.

(** ** Absolute value *)

(** X7: [abs] returns the absolute value of every [int] but the
    smallest, -2^63, whose negation wraps around to itself: the one
    argument with a negative result. *)
Theorem X7_abs_of_the_smallest_int (x : Z) :
  is_int x ->
  abs x = (if x =? min_int then min_int else Z.abs x) /\
  (abs x < 0 <-> x = min_int) /\
  is_int (abs x).
Proof.
  intros Hx. unfold abs, int_neg.
  destruct (x =? min_int) eqn:G; btp.
  - subst x. split_and!; [by vm_compute| |by vm_compute].
    split; [done|]. intros _. by vm_compute.
  - unfold is_int, min_int, max_int in *.
    destruct (x <? 0) eqn:G1; btp.
    + rewrite wrap_id by (unfold is_int, min_int, max_int; lia). lia.
    + lia.
Qed.

Lemma X7_witness :
  abs (-5) = 5 /\ (abs (-5) < 0 <-> -5 = min_int) /\ is_int (abs (-5)).
Proof.
  apply (X7_abs_of_the_smallest_int (-5)).
  unfold is_int, min_int, max_int. lia.
Defined.

(** ** Machine arithmetic modulo 2^64 *)

Lemma wrap_add_r (a b : Z) : wrap (a + wrap b) = wrap (a + b).
Proof.
  unfold wrap.
  replace (a + ((b + 2 ^ 63) mod 2 ^ 64 - 2 ^ 63) + 2 ^ 63)
    with (a + (b + 2 ^ 63) mod 2 ^ 64) by lia.
  rewrite Zplus_mod_idemp_r. f_equal. f_equal. lia.
Qed.

(** ** Computations with a known list of stores *)

Section Draws.
Context (r : Rectangle).

Lemma draws_ret : draws r (mret tt) [].
Proof.
intros c Hwf Hb. exists c. rewrite app_nil_r. by split_and!.
Qed.

Lemma draws_bind (m : Draw unit) (f : Draw unit) (l1 l2 : list (Z * Z * Z)) :
draws r m l1 -> draws r f l2 -> draws r (m ;; f) (l1 ++ l2).
Proof.
intros Hm Hf c Hwf Hb.
destruct (Hm c Hwf Hb) as (c1 & E1 & Hwf1 & Hb1 & Hh1 & Hr1).
destruct (Hf c1 Hwf1 Hb1) as (c2 & E2 & Hwf2 & Hb2 & Hh2 & Hr2).
exists c2. unfold mbind, Draw_bind. rewrite E1. split_and!; try done.
- by rewrite Hh2, Hh1, app_assoc.
- by rewrite (replay_app _ _ _ _ Hr1).
Qed.

Lemma draws_guarded (x y k : Z) :
draws r (b ← bounds; if in_image b x y then setColorIndex x y k else mret tt)
(guarded r x y k).
Proof.
intros c Hwf Hb. unfold mbind, Draw_bind, bounds, guarded. rewrite Hb.
destruct (in_image r x y).
- destruct (SetColorIndex_wf (image c) x y k Hwf) as (im' & Hset & Hwf' & Hb').
unfold setColorIndex. rewrite Hset. eexists. split; [reflexivity|].
simpl. split_and!; try done; try congruence.
- exists c. rewrite app_nil_r. by split_and!.
Qed.

Lemma draws_range_loop {A} (body : Z -> A -> Draw unit)
(calls : Z -> A -> list (Z * Z * Z)) (l : list A) (i : Z) :
(forall j a, draws r (body j a) (calls j a)) ->
draws r (range_loop i l body)
(mjoin (imap (fun (n : nat) a => calls (i + Z.of_nat n) a) l)).
Proof.
intros Hbody. revert i. induction l as [|a l IH]; intros i.
- apply draws_ret.
- cbn [range_loop]. rewrite imap_cons. cbn [mjoin list_join].
rewrite Z.add_0_r. apply draws_bind; [apply Hbody|].
rewrite (imap_ext _ (fun n a => calls (i + 1 + Z.of_nat n) a)); [apply IH|].
intros n b _. simpl. f_equal. lia.
Qed.

(** A counting loop over [lo, hi). *)
Lemma draws_for_loop (cond : Z -> bool) (lo hi : Z) (body : Z -> Draw unit)
(calls : Z -> list (Z * Z * Z)) (fuel : nat) :
is_int lo -> lo <= hi <= max_int ->
(forall j, lo <= j < hi -> cond j = true) -> cond hi = false ->
(forall j, lo <= j < hi -> draws r (body j) (calls j)) ->
(Z.to_nat (hi - lo) < fuel)%nat ->
draws r (for_loop fuel cond lo body) (seqZ lo (hi - lo) ≫= calls).
Proof.
intros Hlo Hhi Hin Hout Hbody. revert lo Hlo Hhi Hin Hbody.
induction fuel as [|fuel IH]; intros lo Hlo Hhi Hin Hbody Hfuel; [lia|].
cbn [for_loop]. destruct (decide (lo = hi)) as [->|Hne].
- rewrite Hout, seqZ_nil by lia. apply draws_ret.
- rewrite Hin by lia. rewrite seqZ_cons by lia. rewrite bind_cons.
apply draws_bind; [apply Hbody; lia|].
unfold int_add. rewrite wrap_id by (unfold is_int, min_int, max_int in *; lia).
replace (Z.pred (hi - lo)) with (hi - (lo + 1)) by lia.
replace (Z.succ lo) with (lo + 1) by lia.
apply IH; [unfold is_int, min_int, max_int in *; lia|lia| | |lia].
+ intros j Hj. apply Hin. lia.
+ intros j Hj. apply Hbody. lia.
Qed.
End Draws.

(** *** What the stores leave in the image *)

(** Where all the stores carry the same colour index, a pixel one of
    them names has this index afterwards. *)
Lemma replay_colour (new : list (Z * Z * Z)) (im im' : Paletted) (x y k : Z) :
  wf_image im -> replay new im = Some im' ->
  Forall (fun call => call.2 = k) new ->
  (x, y, k) ∈ new -> point_In x y (Bounds im) = true ->
  ColorIndexAt im' x y = Some k.
Proof.
  revert im. induction new as [|[[a b] k'] new IH]; intros im Hwf Hr Hk Hin Hpt.
  - by apply elem_of_nil in Hin.
  - apply Forall_cons in Hk as [Hk' Hk]. simpl in Hk'. subst k'.
    destruct (SetColorIndex_wf im a b k Hwf) as (im1 & Hset & Hwf1 & Hb1).
    rewrite (replay_cons _ _ _ _ _ _ Hset) in Hr.
    destruct (decide ((x, y, k) ∈ new)) as [Hin'|Hnin].
    + apply (IH im1); [done..|by rewrite Hb1].
    + apply elem_of_cons in Hin as [E|?]; [|done]. injection E as -> ->.
      rewrite (replay_other new im1 im' a b Hwf1 Hr).
      * by apply (SetColorIndex_same im).
      * intros k' Hin'. rewrite Forall_forall in Hk.
        specialize (Hk _ Hin'). simpl in Hk. by subst k'.
Qed.

(** ** Text *)

Lemma draws_drawChar (r : Rectangle) (x y : Z) (char : ascii) (k : Z) :
  draws r (drawChar x y char k) (char_calls r x y char k).
Proof.
  unfold drawChar, char_calls.
  apply (draws_range_loop r _
           (fun row line => mjoin (imap (fun (col : nat) (pixel : bool) =>
              if pixel then guarded r (int_add x (Z.of_nat col)) (int_add y row) k
              else []) line))).
  intros row line.
  apply (draws_range_loop r _
           (fun col (pixel : bool) =>
              if pixel then guarded r (int_add x col) (int_add y row) k else [])).
  intros col [|]; [apply draws_guarded|apply draws_ret].
Qed.

Lemma draws_drawText (r : Rectangle) (x y : Z) (text : string) (k : Z) :
  draws r (drawText x y text k)
    (text_calls r x y (String.list_ascii_of_string text) k).
Proof.
  unfold drawText, text_calls.
  apply (draws_range_loop r _
           (fun i char => char_calls r (int_add x (int_mul i 6)) y char k)).
  intros i char. apply draws_drawChar.
Qed.

Lemma glyph_shape (char : ascii) :
  length (glyph char) = 5%nat /\ Forall (fun line => length line = 3%nat) (glyph char).
Proof.
  destruct char as [[] [] [] [] [] [] [] []]; (split; [reflexivity|]);
    repeat constructor.
Qed.

Lemma glyph_default (char : ascii) : ~ in_table char -> glyph char = dot.
Proof.
  unfold in_table.
  destruct char as [[] [] [] [] [] [] [] []]; intros H; try reflexivity;
    exfalso; apply H; tauto.
Qed.

(** A store of [drawChar] is a lit bit of the bitmap. *)
Lemma char_calls_elem (r : Rectangle) (x y : Z) (char : ascii) (k : Z)
    (call : Z * Z * Z) :
  call ∈ char_calls r x y char k ->
  exists row col : nat, (row < 5)%nat /\ (col < 3)%nat /\
    call = (int_add x (Z.of_nat col), int_add y (Z.of_nat row), k) /\
    in_image r (int_add x (Z.of_nat col)) (int_add y (Z.of_nat row)) = true.
Proof.
  unfold char_calls. intros H.
  apply list_elem_of_join in H as (l1 & Hc & H).
  apply elem_of_lookup_imap in H as (row & line & -> & Hrow).
  apply list_elem_of_join in Hc as (l2 & Hc & H).
  apply elem_of_lookup_imap in H as (col & pixel & -> & Hcol).
  destruct (glyph_shape char) as [H5 H3].
  exists row, col. split_and!.
  - apply lookup_lt_Some in Hrow. lia.
  - rewrite Forall_forall in H3.
    assert (length line = 3%nat) as E by (apply H3; by eapply list_elem_of_lookup_2).
    apply lookup_lt_Some in Hcol. lia.
  - destruct pixel; [|by apply elem_of_nil in Hc].
    unfold guarded in Hc. destruct (in_image _ _ _); [|by apply elem_of_nil in Hc].
    by apply list_elem_of_singleton in Hc.
  - destruct pixel; [|by apply elem_of_nil in Hc].
    unfold guarded in Hc. by destruct (in_image _ _ _); [|apply elem_of_nil in Hc].
Qed.

Lemma text_calls_elem (r : Rectangle) (x y : Z) (text : list ascii) (k : Z)
    (call : Z * Z * Z) :
  call ∈ text_calls r x y text k ->
  exists i row col : nat, (i < length text)%nat /\ (row < 5)%nat /\ (col < 3)%nat /\
    let px := wrap (x + 6 * Z.of_nat i + Z.of_nat col) in
    let py := int_add y (Z.of_nat row) in
    call = (px, py, k) /\ in_image r px py = true.
Proof.
  unfold text_calls. intros H.
  apply list_elem_of_join in H as (l1 & Hc & H).
  apply elem_of_lookup_imap in H as (i & char & -> & Hi).
  apply char_calls_elem in Hc as (row & col & Hrow & Hcol & -> & Hin).
  exists i, row, col.
  assert (E : int_add (int_add x (int_mul (Z.of_nat i) 6)) (Z.of_nat col)
              = wrap (x + 6 * Z.of_nat i + Z.of_nat col)).
  { unfold int_add, int_mul. rewrite wrap_add_r.
    rewrite (Z.add_comm (wrap _)), wrap_add_r. f_equal. lia. }
  rewrite E in *. split_and!; try done.
  by apply lookup_lt_Some in Hi.
Qed.

Lemma length_list_ascii_of_string (s : string) :
  length (String.list_ascii_of_string s) = String.length s.
Proof. induction s as [|a s IH]; [done|]. simpl. by rewrite IH. Qed.

(** X8: [drawText] returns for every position and every text (of
    one-byte characters), on every well-formed image: it stores the
    colour index it was given and no other, only at pixels that pass the
    guard, and (where the coordinates do not wrap around) only inside the
    cells of its characters, 3 wide and 5 high, 6 apart; every pixel
    outside the band of the text keeps its index. *)
Theorem X8_drawText_keeps_to_its_cells (c : canvas) (x y : Z) (text : string) (k : Z) :
  wf_image (image c) ->
  exists c' new,
    drawText x y text k c = Returns tt c' /\
    history c' = history c ++ new /\
    wf_image (image c') /\ Bounds (image c') = Bounds (image c) /\
    Forall (fun call => call.2 = k /\ in_bounds (Bounds (image c)) call) new /\
    (is_int x -> is_int y ->
     x + 6 * Z.of_nat (String.length text) <= max_int -> y + 5 <= max_int ->
     Forall (fun call =>
               y <= call.1.2 < y + 5 /\
               exists i : nat, (i < String.length text)%nat /\
                 x + 6 * Z.of_nat i <= call.1.1 < x + 6 * Z.of_nat i + 3) new /\
     forall px py,
       ~ (y <= py < y + 5 /\ x <= px < x + 6 * Z.of_nat (String.length text)) ->
       ColorIndexAt (image c') px py = ColorIndexAt (image c) px py).
Proof.
  intros Hwf.
  destruct (draws_drawText (Bounds (image c)) x y text k c Hwf eq_refl)
    as (c' & E & Hwf' & Hb' & Hh & Hr).
  set (new := text_calls (Bounds (image c)) x y (String.list_ascii_of_string text) k) in *.
  exists c', new. split_and!; try done.
  - apply Forall_forall. intros call Hin.
    apply text_calls_elem in Hin as (i & row & col & _ & _ & _ & -> & Hg).
    simpl. split; [done|]. unfold in_image in Hg. btp. lia.
  - intros Hx Hy Hxmax Hymax.
    assert (Hbox : Forall (fun call =>
               y <= call.1.2 < y + 5 /\
               exists i : nat, (i < String.length text)%nat /\
                 x + 6 * Z.of_nat i <= call.1.1 < x + 6 * Z.of_nat i + 3) new).
    { apply Forall_forall. intros call Hin.
      apply text_calls_elem in Hin as (i & row & col & Hi & Hrow & Hcol & -> & _).
      rewrite length_list_ascii_of_string in Hi. simpl.
      unfold int_add. unfold is_int, min_int, max_int in *.
      rewrite !wrap_id by (unfold is_int, min_int, max_int; lia).
      split; [lia|]. exists i. lia. }
    split; [done|].
    intros px py Hout. apply (replay_other new (image c)); [done..|].
    intros k' Hin. rewrite Forall_forall in Hbox.
    destruct (Hbox _ Hin) as (Hpy & i & Hi & Hpx). simpl in *. lia.
Qed.

Lemma X8_witness :
  exists c' new,
    drawText 1 (-2) "Lo" 7 canvas_8x3 = Returns tt c' /\
    history c' = history canvas_8x3 ++ new /\
    wf_image (image c') /\ Bounds (image c') = Bounds (image canvas_8x3) /\
    Forall (fun call => call.2 = 7 /\ in_bounds (Bounds (image canvas_8x3)) call) new /\
    Forall (fun call =>
              -2 <= call.1.2 < -2 + 5 /\
              exists i : nat, (i < 2)%nat /\
                1 + 6 * Z.of_nat i <= call.1.1 < 1 + 6 * Z.of_nat i + 3) new /\
    forall px py,
      ~ (-2 <= py < -2 + 5 /\ 1 <= px < 1 + 6 * Z.of_nat 2) ->
      ColorIndexAt (image c') px py = ColorIndexAt (image canvas_8x3) px py.
Proof.
  destruct (X8_drawText_keeps_to_its_cells canvas_8x3 1 (-2) "Lo" 7 canvas_8x3_wf)
    as (c' & new & E & Hh & Hwf & Hb & Hk & Hbox).
  assert (Hno : is_int 1 /\ is_int (-2))
    by (unfold is_int, min_int, max_int; lia).
  destruct Hno as [H1 H2].
  assert (H3 : 1 + 6 * Z.of_nat (String.length "Lo") <= max_int)
    by (unfold max_int; simpl; lia).
  assert (H4 : -2 + 5 <= max_int) by (unfold max_int; lia).
  destruct (Hbox H1 H2 H3 H4) as [Hcells Hrest].
  exists c', new.
  exact (conj E (conj Hh (conj Hwf (conj Hb (conj Hk (conj Hcells Hrest)))))).
Defined.

(** X9: a character [drawChar] has no bitmap for, whichever it is, is
    drawn as one dot in the middle of its cell, at (x+1, y+2), when this
    pixel passes the guard, and as nothing otherwise. *)
Theorem X9_unknown_characters_are_dots (c : canvas) (x y : Z) (char : ascii) (k : Z) :
  wf_image (image c) -> ~ in_table char ->
  exists c',
    drawChar x y char k c = Returns tt c' /\
    history c' = history c ++
      (if in_image (Bounds (image c)) (int_add x 1) (int_add y 2)
       then [(int_add x 1, int_add y 2, k)] else []) /\
    wf_image (image c') /\ Bounds (image c') = Bounds (image c).
Proof.
  intros Hwf Hout.
  destruct (draws_drawChar (Bounds (image c)) x y char k c Hwf eq_refl)
    as (c' & E & Hwf' & Hb' & Hh & Hr).
  exists c'. split_and!; try done.
  rewrite Hh. f_equal. unfold char_calls. rewrite (glyph_default char Hout).
  unfold dot, guarded. cbn [imap mjoin list_join app compose Z.of_nat Pos.of_succ_nat Pos.succ].
  by rewrite !app_nil_r.
Qed.

Lemma X9_witness :
  exists c',
    drawChar 3 0 "F" 7 canvas_8x3 = Returns tt c' /\
    history c' = history canvas_8x3 ++ [(4, 2, 7)] /\
    wf_image (image c') /\ Bounds (image c') = Bounds (image canvas_8x3).
Proof.
  apply (X9_unknown_characters_are_dots canvas_8x3 3 0 "F" 7 canvas_8x3_wf).
  unfold in_table. intros H. repeat (destruct H as [H|H]; [discriminate H|]).
  discriminate H.
Defined.

(** *** The frame counter *)

Lemma drawChar_glyph (x y : Z) (a b : ascii) (k : Z) :
  glyph a = glyph b -> drawChar x y a k = drawChar x y b k.
Proof. unfold drawChar. by intros ->. Qed.

Lemma range_loop_drawChar (x y k : Z) (l1 l2 : list ascii) (i : Z) (c : canvas) :
  Forall2 (fun a b => glyph a = glyph b) l1 l2 ->
  range_loop i l1 (fun i char => drawChar (int_add x (int_mul i 6)) y char k) c =
  range_loop i l2 (fun i char => drawChar (int_add x (int_mul i 6)) y char k) c.
Proof.
  intros H. revert i c. induction H as [|a b l1 l2 Hab H IH]; intros i c; [done|].
  cbn [range_loop]. unfold mbind, Draw_bind.
  rewrite (drawChar_glyph _ _ a b _ Hab).
  destruct (drawChar _ _ b k c); [apply IH|done..].
Qed.

(** Every character of a decimal numeral, the sign included, takes the
    [default] branch. *)
Lemma glyph_string_of_uint (d : Decimal.uint) :
  Forall (fun char => glyph char = dot)
         (String.list_ascii_of_string (NilEmpty.string_of_uint d)).
Proof. induction d; simpl; constructor; done. Qed.

Lemma glyph_string_of_int (z : Z) :
  Forall (fun char => glyph char = dot)
         (String.list_ascii_of_string (NilZero.string_of_int (Z.to_int z))).
Proof.
  unfold NilZero.string_of_int, NilZero.string_of_uint.
  destruct (Z.to_int z) as [d|d].
  - destruct d; try apply glyph_string_of_uint. repeat constructor.
  - simpl. constructor; [done|].
    destruct d; try apply glyph_string_of_uint. repeat constructor.
Qed.

Lemma list_ascii_of_string_app (s t : string) :
  String.list_ascii_of_string (s ++ t) =
  String.list_ascii_of_string s ++ String.list_ascii_of_string t.
Proof. induction s as [|a s IH]; [done|]. simpl. by rewrite IH. Qed.

(** X10: the frame counter cannot be read off the frame: the characters
    of "Frame: %d" that carry the number are all drawn as the same dot,
    so two frame numbers with equally many characters give the same
    drawing, store for store, on every image. *)
Theorem X10_frame_numbers_are_drawn_alike (x y k : Z) (frameNum frameNum' : Z)
    (c : canvas) :
  String.length (frameLabel frameNum) = String.length (frameLabel frameNum') ->
  drawText x y (frameLabel frameNum) k c = drawText x y (frameLabel frameNum') k c.
Proof.
  intros Hlen. unfold drawText. apply range_loop_drawChar.
  unfold frameLabel in *. rewrite !list_ascii_of_string_app.
  apply Forall2_app; [by apply Forall_Forall2_diag, Forall_forall|].
  rewrite <- !length_list_ascii_of_string, !list_ascii_of_string_app, !length_app in Hlen.
  pose proof (glyph_string_of_int frameNum) as H1.
  pose proof (glyph_string_of_int frameNum') as H2.
  apply Forall2_same_length_lookup_2; [lia|].
  intros i a b Ha Hb. rewrite Forall_forall in H1, H2.
  rewrite (H1 a), (H2 b); [done|by eapply list_elem_of_lookup_2..].
Qed.

Lemma X10_witness :
  drawText 10 20 (frameLabel 17) 200 canvas_8x3 =
  drawText 10 20 (frameLabel 42) 200 canvas_8x3.
Proof. by apply (X10_frame_numbers_are_drawn_alike 10 20 200 17 42 canvas_8x3). Defined.

Lemma CreateFrame_body (fuel : nat) (lorenz : LorenzSystem) (width height : Z)
    (rotationX rotationY : float) (frameNum : Z) :
  CreateFrame fuel lorenz width height rotationX rotationY frameNum =
  match NewPaletted (Rect 0 0 width height) with
  | None => Panics
  | Some img =>
      frame_body fuel lorenz width height rotationX rotationY frameNum
        {| image := img; history := [] |}
  end.
Proof. reflexivity. Qed.

(** ** Whole frames *)

Lemma paints_weaken (P P' : Z * Z * Z -> Prop) {A} (Q : A -> Prop) (r : Rectangle)
    (m : Draw A) :
  (forall call, P call -> P' call) -> paints P Q r m -> paints P' Q r m.
Proof.
  intros HP Hm c Hwf Hb.
  destruct (Hm c Hwf Hb) as (c' & new & Hs & Hwf' & Hb' & Hh & Hnew & Hr).
  exists c', new. split_and!; try done. by eapply Forall_impl.
Qed.

(** A computation that returns paints what it draws. *)
Lemma draws_paints (P : Z * Z * Z -> Prop) (r : Rectangle) (m : Draw unit)
    (l : list (Z * Z * Z)) :
  draws r m l -> Forall P l -> paints P (fun _ => True) r m.
Proof.
  intros Hm HP c Hwf Hb.
  destruct (Hm c Hwf Hb) as (c' & E & Hwf' & Hb' & Hh & Hr).
  exists c', l. split_and!; try done. right. by exists tt.
Qed.

(** A counting loop whose counter stays within an invariant. *)
Lemma paints_for_loop_inv (P : Z * Z * Z -> Prop) (r : Rectangle) (I : Z -> Prop)
    (fuel : nat) (cond : Z -> bool) (i : Z) (body : Z -> Draw unit) :
  I i ->
  (forall j, I j -> cond j = true ->
     paints P (fun _ => True) r (body j) /\ I (int_add j 1)) ->
  paints P (fun _ => True) r (for_loop fuel cond i body).
Proof.
  intros Hi Hbody. revert i Hi. induction fuel as [|fuel IH]; intros i Hi; simpl.
  - apply paints_out_of_fuel.
  - destruct (cond i) eqn:G; [|by apply paints_ret].
    destruct (Hbody i Hi G) as [Hb HI].
    eapply paints_bind; [apply Hb|]. intros _ _. by apply IH.
Qed.

Lemma paints_index (P : Z * Z * Z -> Prop) (r : Rectangle) {A} (s : list A) (i : Z) :
  0 <= i < len s -> paints P (fun _ => True) r (index s i).
Proof.
  intros Hi. unfold index, len in *.
  destruct (0 <=? i) eqn:G1; btp; [|lia].
  destruct (i <? Z.of_nat (length s)) eqn:G2; btp; [|lia]. simpl.
  destruct (lookup_lt_is_Some_2 s (Z.to_nat i)) as [a ->]; [lia|].
  by apply paints_ret.
Qed.

Lemma in_bounds_byte (r : Rectangle) (k : Z) (call : Z * Z * Z) :
  0 <= k <= 255 -> in_bounds r call /\ call.2 = k -> byte_in_bounds r call.
Proof. intros Hk [H E]. split; [done|by rewrite E]. Qed.

Lemma paints_guarded_colour (r : Rectangle) (x y k : Z) :
  paints (fun call => in_bounds r call /\ call.2 = k) (fun _ => True) r
    (b ← bounds; if in_image b x y then setColorIndex x y k else mret tt).
Proof.
  eapply paints_bind; [apply paints_bounds|]. intros b ->.
  destruct (in_image r x y) eqn:G; [|by apply paints_ret].
  apply paints_setColorIndex. unfold in_image in G. btp. simpl. lia.
Qed.

Lemma paints_drawLine_colour (r : Rectangle) (fuel : nat) (x1 y1 x2 y2 k : Z) :
  paints (fun call => in_bounds r call /\ call.2 = k) (fun _ => True) r
    (drawLine fuel x1 y1 x2 y2 k).
Proof.
  unfold drawLine.
  generalize (int_sub (abs (int_sub x2 x1)) (abs (int_sub y2 y1))) as err.
  generalize (abs (int_sub x2 x1)) as dx. generalize (abs (int_sub y2 y1)) as dy.
  generalize (if x1 <? x2 then 1 else -1) as sx.
  generalize (if y1 <? y2 then 1 else -1) as sy.
  intros sy sx dy dx err. revert x1 y1 err.
  induction fuel as [|fuel IH]; intros x1 y1 err; cbn [drawLine_loop].
  - apply paints_out_of_fuel.
  - eapply paints_bind; [apply paints_bounds|]. intros b ->.
    apply (paints_bind _ _ (fun _ => True)).
    + destruct (in_image r x1 y1) eqn:G; [|by apply paints_ret].
      apply paints_setColorIndex. unfold in_image in G. btp. simpl. lia.
    + intros _ _. destruct ((x1 =? x2) && (y1 =? y2)); [by apply paints_ret|].
      destruct (_ >? _), (_ <? _); apply IH.
Qed.

Lemma paints_drawCircle_colour (r : Rectangle) (fuel : nat) (centerX centerY radius k : Z) :
  paints (fun call => in_bounds r call /\ call.2 = k) (fun _ => True) r
    (drawCircle fuel centerX centerY radius k).
Proof.
  unfold drawCircle. apply paints_for_loop. intros y.
  apply paints_for_loop. intros x.
  destruct (_ <=? _); [|by apply paints_ret].
  apply paints_guarded_colour.
Qed.

Lemma paints_drawText_colour (r : Rectangle) (x y : Z) (text : string) (k : Z) :
  paints (fun call => in_bounds r call /\ call.2 = k) (fun _ => True) r
    (drawText x y text k).
Proof.
  eapply draws_paints; [apply draws_drawText|].
  apply Forall_forall. intros call Hin.
  apply text_calls_elem in Hin as (i & row & col & _ & _ & _ & -> & Hg).
  simpl. split; [|done]. unfold in_image in Hg. btp. lia.
Qed.

Lemma segmentColorIndex_byte (i n : Z) : 0 <= segmentColorIndex i n <= 255.
Proof.
  unfold segmentColorIndex, uint8_of_float64.
  pose proof (Z.mod_pos_bound (int_of_float64
    (float64_of_int i / float64_of_int n * 254 + 1)) 256). lia.
Qed.

(** The stores of a frame lie where the two loops that clear the image
    go, or pass the guard. *)
Lemma paints_fill (r : Rectangle) (fuel : nat) (width height : Z) :
  width <= max_int -> height <= max_int ->
  (0 < width -> 0 < height -> width <= Dx r /\ height <= Dy r) ->
  paints (byte_in_bounds r) (fun _ => True) r (fill fuel width height).
Proof.
  intros Hw Hh Hr. unfold fill.
  apply (paints_for_loop_inv _ _ (fun y => 0 <= y)); [lia|].
  intros y Hy Gy. btp. split;
    [|unfold int_add; rewrite wrap_id by (unfold is_int, min_int, max_int in *; lia); lia].
  apply (paints_for_loop_inv _ _ (fun x => 0 <= x)); [lia|].
  intros x Hx Gx. btp. split;
    [|unfold int_add; rewrite wrap_id by (unfold is_int, min_int, max_int in *; lia); lia].
  apply paints_setColorIndex. split; simpl; lia.
Qed.

Lemma paints_trail (r : Rectangle) (fuel : nat) (trail : list Point3D)
    (width height : Z) (rotationX rotationY : float) :
  len trail <= max_int ->
  paints (byte_in_bounds r) (fun _ => True) r
    (for_loop fuel (fun i => i <? len trail) 1 (fun i =>
       p1 ← index trail (int_sub i 1);
       p2 ← index trail i;
       let '(x1, y1) := Project3DTo2D p1 width height rotationX rotationY in
       let '(x2, y2) := Project3DTo2D p2 width height rotationX rotationY in
       let colorIndex := segmentColorIndex i (len trail) in
       drawLine fuel x1 y1 x2 y2 colorIndex)).
Proof.
  intros Hlen.
  apply (paints_for_loop_inv _ _ (fun i => 1 <= i)); [lia|].
  intros i Hi Gi. btp. split;
    [|unfold int_add; rewrite wrap_id by (unfold is_int, min_int, max_int in *; lia); lia].
  assert (int_sub i 1 = i - 1) as ->
    by (apply wrap_id; unfold is_int, min_int, max_int in *; lia).
  apply (paints_bind _ _ (fun _ => True)); [apply paints_index; lia|]. intros p1 _.
  apply (paints_bind _ _ (fun _ => True)); [apply paints_index; lia|]. intros p2 _.
  destruct (Project3DTo2D p1 _ _ _ _) as [x1 y1].
  destruct (Project3DTo2D p2 _ _ _ _) as [x2 y2].
  eapply paints_weaken; [|apply paints_drawLine_colour].
  intros call. apply in_bounds_byte, segmentColorIndex_byte.
Qed.

Lemma paints_marker (r : Rectangle) (fuel : nat) (trail : list Point3D)
    (width height : Z) (rotationX rotationY : float) :
  len trail <= max_int ->
  paints (byte_in_bounds r) (fun _ => True) r
    (if len trail >? 0 then
       current ← index trail (int_sub (len trail) 1);
       let '(x, y) := Project3DTo2D current width height rotationX rotationY in
       drawCircle fuel x y 3 255
     else mret tt).
Proof.
  intros Hlen. destruct (len trail >? 0) eqn:G; btp; [|by apply paints_ret].
  assert (int_sub (len trail) 1 = len trail - 1) as ->
    by (apply wrap_id; unfold is_int, min_int, max_int in *; lia).
  apply (paints_bind _ _ (fun _ => True)); [apply paints_index; lia|]. intros p _.
  destruct (Project3DTo2D p _ _ _ _) as [x y].
  eapply paints_weaken; [|apply paints_drawCircle_colour].
  intros call. apply in_bounds_byte. lia.
Qed.

Lemma paints_text (r : Rectangle) (x y : Z) (text : string) (k : Z) :
  0 <= k <= 255 ->
  paints (byte_in_bounds r) (fun _ => True) r (drawText x y text k).
Proof.
  intros Hk. eapply paints_weaken; [|apply paints_drawText_colour].
  intros call. by apply in_bounds_byte.
Qed.

Lemma Dx_Rect (w h : Z) : - max_int <= w <= max_int -> Dx (Rect 0 0 w h) = Z.abs w.
Proof.
  intros Hw. unfold Dx, int_sub, Rect.
  destruct (0 >? w) eqn:G1, (0 >? h) eqn:G2; btp; simpl;
    rewrite wrap_id; unfold is_int, min_int, max_int in *; lia.
Qed.

Lemma Dy_Rect (w h : Z) : - max_int <= h <= max_int -> Dy (Rect 0 0 w h) = Z.abs h.
Proof.
  intros Hh. unfold Dy, int_sub, Rect.
  destruct (0 >? w) eqn:G1, (0 >? h) eqn:G2; btp; simpl;
    rewrite wrap_id; unfold is_int, min_int, max_int in *; lia.
Qed.

(** Stores of values with a property leave an index plane that has it
    with it. *)
Lemma replay_Forall (Q : Z -> Prop) (new : list (Z * Z * Z)) (im im' : Paletted) :
  Forall (fun call => Q call.2) new -> Forall Q (Pix im) ->
  replay new im = Some im' -> Forall Q (Pix im').
Proof.
  revert im. induction new as [|[[x y] k] new IH]; intros im Hnew Hz Hr.
  - injection Hr as <-. done.
  - apply Forall_cons in Hnew as [Hk Hnew]. simpl in Hk.
    destruct (SetColorIndex im x y k) as [im1|] eqn:E.
    + rewrite (replay_cons _ _ _ _ _ _ E) in Hr. apply (IH im1); [done| |done].
      unfold SetColorIndex in E. destruct (negb _); [by injection E as <-|].
      destruct (_ && _); [|done]. injection E as <-. simpl.
      by apply Forall_insert.
    + unfold replay in Hr. simpl in Hr. rewrite E in Hr.
      clear -Hr. induction new as [|[[a b] k'] new IH]; [done|by apply IH].
Qed.

(** The drawing part of [CreateFrame], on the image it has made. *)
Lemma paints_frame (fuel : nat) (lorenz : LorenzSystem) (width height : Z)
    (rotationX rotationY : float) (frameNum : Z) :
  len (GetTrail lorenz) <= max_int ->
  - max_int <= width <= max_int -> - max_int <= height <= max_int ->
  paints (byte_in_bounds (Rect 0 0 width height)) (fun _ => True)
    (Rect 0 0 width height)
    (frame_body fuel lorenz width height rotationX rotationY frameNum).
Proof.
  intros Hlen Hw Hh. unfold frame_body.
  apply (paints_bind _ _ (fun _ => True)).
  { apply paints_fill; [lia..|]. rewrite Dx_Rect, Dy_Rect by done. lia. }
  intros _ _. cbn zeta.
  destruct (len (GetTrail lorenz) <? 2); [by apply paints_ret|].
  apply (paints_bind _ _ (fun _ => True)); [by apply paints_trail|]. intros _ _.
  apply (paints_bind _ _ (fun _ => True)); [by apply paints_marker|]. intros _ _.
  apply (paints_bind _ _ (fun _ => True)); [apply paints_text; lia|]. intros _ _.
  apply paints_text; lia.
Qed.

(** X11: for every trail and every size [image.NewPaletted] accepts,
    [CreateFrame] raises no panic, however long its loops run: no slice
    index leaves the trail, every store of the clearing loops, the
    segments, the marker and the two texts lies within the image, and the
    image holds nothing but colour indices of the palette, 0 to 255. *)
Theorem X11_CreateFrame_never_panics (fuel : nat) (lorenz : LorenzSystem)
    (width height : Z) (rotationX rotationY : float) (frameNum : Z) :
  len (GetTrail lorenz) <= max_int ->
  - max_int <= width <= max_int -> - max_int <= height <= max_int ->
  Z.abs width * Z.abs height <= max_int ->
  exists c',
    (CreateFrame fuel lorenz width height rotationX rotationY frameNum = Returns tt c' \/
     CreateFrame fuel lorenz width height rotationX rotationY frameNum = OutOfFuel c') /\
    wf_image (image c') /\ Bounds (image c') = Rect 0 0 width height /\
    Forall (fun call =>
              0 <= call.1.1 < Z.abs width /\ 0 <= call.1.2 < Z.abs height /\
              0 <= call.2 <= 255) (history c') /\
    Forall (fun k => 0 <= k <= 255) (Pix (image c')).
Proof.
  intros Hlen Hw Hh Hwh. rewrite CreateFrame_body.
  destruct (NewPaletted_Rect width height Hw Hh Hwh) as (img & -> & Hwf & Hb & Hpix).
  destruct (paints_frame fuel lorenz width height rotationX rotationY frameNum
              Hlen Hw Hh {| image := img; history := [] |} Hwf Hb)
    as (c' & new & Hs & Hwf' & Hb' & Hh' & Hnew & Hr).
  simpl in Hh', Hr. exists c'. split_and!; try done.
  - destruct Hs as [->|([] & -> & _)]; auto.
  - rewrite Hh'. eapply Forall_impl; [apply Hnew|].
    intros [[x y] k] [Hin Hk]. simpl in *.
    rewrite Dx_Rect, Dy_Rect in Hin by done. lia.
  - apply (replay_Forall _ new img); [|by rewrite Hpix; apply Forall_replicate|done].
    eapply Forall_impl; [apply Hnew|]. by intros call [_ Hk].
Qed.

Lemma X11_witness :
  exists c',
    (CreateFrame 3 (mkLorenzSystem 10 28 (8 / 3) 0x1.47ae147ae147bp-7 1 1 1
                      [mkPoint3D 1 1 1; mkPoint3D 2 2 2; mkPoint3D 3 3 3] 5)
       40 30 0 0 7 = Returns tt c' \/
     CreateFrame 3 (mkLorenzSystem 10 28 (8 / 3) 0x1.47ae147ae147bp-7 1 1 1
                      [mkPoint3D 1 1 1; mkPoint3D 2 2 2; mkPoint3D 3 3 3] 5)
       40 30 0 0 7 = OutOfFuel c') /\
    wf_image (image c') /\ Bounds (image c') = Rect 0 0 40 30 /\
    Forall (fun call =>
              0 <= call.1.1 < Z.abs 40 /\ 0 <= call.1.2 < Z.abs 30 /\
              0 <= call.2 <= 255) (history c') /\
    Forall (fun k => 0 <= k <= 255) (Pix (image c')).
Proof.
  apply (X11_CreateFrame_never_panics 3
           (mkLorenzSystem 10 28 (8 / 3) 0x1.47ae147ae147bp-7 1 1 1
              [mkPoint3D 1 1 1; mkPoint3D 2 2 2; mkPoint3D 3 3 3] 5) 40 30 0 0 7);
    unfold max_int, len; simpl; lia.
Defined.

(** A lit bit of the bitmap is stored, when it passes the guard. *)
Lemma char_calls_lit (r : Rectangle) (x y : Z) (char : ascii) (k : Z)
    (row col : nat) (line : list bool) :
  glyph char !! row = Some line -> line !! col = Some true ->
  in_image r (int_add x (Z.of_nat col)) (int_add y (Z.of_nat row)) = true ->
  (int_add x (Z.of_nat col), int_add y (Z.of_nat row), k) ∈ char_calls r x y char k.
Proof.
  intros Hrow Hcol Hg. unfold char_calls.
  apply list_elem_of_join. eexists. split;
    [|apply (elem_of_lookup_imap_2 _ _ _ _ Hrow)].
  apply list_elem_of_join. eexists. split;
    [|apply (elem_of_lookup_imap_2 _ _ _ _ Hcol)].
  cbn beta. unfold guarded. rewrite Hg. apply list_elem_of_singleton. done.
Qed.

Lemma text_calls_char (r : Rectangle) (x y : Z) (text : list ascii) (k : Z)
    (i : nat) (char : ascii) (call : Z * Z * Z) :
  text !! i = Some char ->
  call ∈ char_calls r (int_add x (int_mul (Z.of_nat i) 6)) y char k ->
  call ∈ text_calls r x y text k.
Proof.
  intros Hi Hc. unfold text_calls.
  apply list_elem_of_join. eexists. split; [|apply (elem_of_lookup_imap_2 _ _ _ _ Hi)].
  done.
Qed.

Lemma text_calls_colour (r : Rectangle) (x y : Z) (text : list ascii) (k : Z) :
  Forall (fun call => call.2 = k) (text_calls r x y text k).
Proof.
  apply Forall_forall. intros call Hin.
  by apply text_calls_elem in Hin as (i & row & col & _ & _ & _ & -> & _).
Qed.

Lemma int_of_float64_is_int (f : float) : is_int (int_of_float64 f).
Proof.
  unfold int_of_float64, is_int.
  destruct (trunc_float f) as [z|]; [|unfold min_int, max_int; lia].
  destruct (min_int <=? z) eqn:G1; simpl; [|unfold min_int, max_int; lia].
  destruct (z <=? max_int) eqn:G2; btp; [lia|unfold min_int, max_int; lia].
Qed.

Lemma Project3DTo2D_is_int (p : Point3D) (width height : Z) (rotationX rotationY : float) :
  is_int (Project3DTo2D p width height rotationX rotationY).1 /\
  is_int (Project3DTo2D p width height rotationX rotationY).2.
Proof. split; apply int_of_float64_is_int. Qed.

Section ReturnsMore.
Context (r : Rectangle).

Lemma returns_index {A} (s : list A) (i : Z) :
0 <= i < len s -> returns (fun a => a ∈ s) r (index s i).
Proof.
intros Hi. unfold index, len in *.
destruct (0 <=? i) eqn:G1; btp; [|lia].
destruct (i <? Z.of_nat (length s)) eqn:G2; btp; [|lia]. simpl.
destruct (lookup_lt_is_Some_2 s (Z.to_nat i)) as [a Ha]; [lia|]. rewrite Ha.
apply returns_ret. by eapply list_elem_of_lookup_2.
Qed.

(** A counting loop over [lo, hi) whose body returns there. *)
Lemma returns_for_loop_range (cond : Z -> bool) (lo hi : Z) (body : Z -> Draw unit)
(fuel : nat) (i : Z) :
(forall y, cond y = true -> y < hi) -> hi <= max_int ->
(forall j, lo <= j < hi -> returns (fun _ => True) r (body j)) ->
min_int <= lo <= i -> (Z.to_nat (hi - i) < fuel)%nat ->
returns (fun _ => True) r (for_loop fuel cond i body).
Proof.
intros Hcond Hhi Hbody. revert i.
induction fuel as [|fuel IH]; intros i Hi Hfuel; [lia|]. simpl.
destruct (cond i) eqn:G; [|by apply returns_ret].
apply Hcond in G.
eapply returns_bind; [apply Hbody; lia|]. intros _ _.
unfold int_add. rewrite wrap_id by (unfold is_int, min_int, max_int in *; lia).
apply IH; lia.
Qed.
End ReturnsMore.

Lemma Draw_bind_Returns {A B} (m : Draw A) (f : A -> Draw B) (c c1 : canvas) (a : A) :
  m c = Returns a c1 -> (m ≫= f) c = f a c1.
Proof. intros E. unfold mbind, Draw_bind. by rewrite E. Qed.

Lemma returns_fill (r : Rectangle) (fuel : nat) (width height : Z) :
  0 <= width <= max_int -> 0 <= height <= max_int ->
  Z.max width height < Z.of_nat fuel ->
  returns (fun _ => True) r (fill fuel width height).
Proof.
  intros Hw Hh Hfuel. unfold fill.
  assert (Hint0 : is_int 0) by (unfold is_int, min_int, max_int; lia).
  apply (returns_for_loop _ _ height); [intros; btp; lia|lia| |done|lia].
  intros y. apply (returns_for_loop _ _ width); [intros; btp; lia|lia| |done|lia].
  intros x. apply returns_setColorIndex.
Qed.

(** The segments, for a trail that projects to within [B] of the
    origin. *)
Lemma returns_trail (r : Rectangle) (fuel : nat) (trail : list Point3D)
    (width height : Z) (rotationX rotationY : float) (B : Z) :
  len trail <= max_int -> 0 <= B < 2 ^ 60 ->
  (forall p, p ∈ trail ->
     Z.abs (Project3DTo2D p width height rotationX rotationY).1 <= B /\
     Z.abs (Project3DTo2D p width height rotationX rotationY).2 <= B) ->
  Z.max (len trail) (4 * B) < Z.of_nat fuel ->
  returns (fun _ => True) r
    (for_loop fuel (fun i => i <? len trail) 1 (fun i =>
       p1 ← index trail (int_sub i 1);
       p2 ← index trail i;
       let '(x1, y1) := Project3DTo2D p1 width height rotationX rotationY in
       let '(x2, y2) := Project3DTo2D p2 width height rotationX rotationY in
       let colorIndex := segmentColorIndex i (len trail) in
       drawLine fuel x1 y1 x2 y2 colorIndex)).
Proof.
  intros Hlen HB Hproj Hfuel.
  apply (returns_for_loop_range r _ 1 (len trail));
    [intros; btp; lia|done| |unfold min_int; lia|lia].
  intros i Hi.
  assert (int_sub i 1 = i - 1) as ->
    by (apply wrap_id; unfold is_int, min_int, max_int in *; lia).
  eapply returns_bind; [apply returns_index; lia|]. intros p1 Hp1.
  eapply returns_bind; [apply returns_index; lia|]. intros p2 Hp2.
  destruct (Project3DTo2D_is_int p1 width height rotationX rotationY) as [I1 I2].
  destruct (Project3DTo2D_is_int p2 width height rotationX rotationY) as [I3 I4].
  destruct (Hproj p1 Hp1) as [B1 B2]. destruct (Hproj p2 Hp2) as [B3 B4].
  destruct (Project3DTo2D p1 _ _ _ _) as [x1 y1].
  destruct (Project3DTo2D p2 _ _ _ _) as [x2 y2]. simpl in *.
  apply returns_drawLine; try done; lia.
Qed.

(** ** Discs *)

Lemma draws_drawCircle (r : Rectangle) (fuel : nat) (centerX centerY radius k : Z) :
  0 <= radius < 2 ^ 31 ->
  min_int <= centerX - radius -> centerX + radius <= max_int ->
  min_int <= centerY - radius -> centerY + radius <= max_int ->
  2 * radius + 1 < Z.of_nat fuel ->
  draws r (drawCircle fuel centerX centerY radius k)
    (circle_calls r centerX centerY radius k).
Proof.
  intros Hr Hx1 Hx2 Hy1 Hy2 Hfuel. unfold drawCircle, circle_calls.
  assert (En : int_neg radius = - radius)
    by (apply wrap_id; unfold is_int, min_int, max_int; lia).
  assert (Hsq : forall a, - radius <= a <= radius -> 0 <= a * a <= radius * radius)
    by (intros; nia).
  assert (Hrr : radius * radius < 2 ^ 62) by nia.
  rewrite En.
  replace (2 * radius + 1) with (radius + 1 - - radius) by lia.
  apply (draws_for_loop r _ (- radius) (radius + 1));
    [unfold is_int, min_int, max_int; lia|unfold max_int; lia
    |intros; apply Z.leb_le; lia|apply Z.leb_gt; lia| |lia].
  intros y Hy.
  apply (draws_for_loop r _ (- radius) (radius + 1));
    [unfold is_int, min_int, max_int; lia|unfold max_int; lia
    |intros; apply Z.leb_le; lia|apply Z.leb_gt; lia| |lia].
  intros x Hx.
  pose proof (Hsq x ltac:(lia)). pose proof (Hsq y ltac:(lia)).
  unfold int_add, int_mul.
  rewrite (wrap_id (x * x)), (wrap_id (y * y)), (wrap_id (radius * radius)),
    (wrap_id (x * x + y * y)), (wrap_id (centerX + x)), (wrap_id (centerY + y))
    by (unfold is_int, min_int, max_int in *; lia).
  destruct (_ <=? _); [apply draws_guarded|apply draws_ret].
Qed.

Lemma circle_calls_elem (r : Rectangle) (centerX centerY radius k : Z)
    (px py k' : Z) :
  0 <= radius ->
  (px, py, k') ∈ circle_calls r centerX centerY radius k <->
  k' = k /\ in_image r px py = true /\ in_disc centerX centerY radius px py.
Proof.
  intros Hrad. unfold circle_calls, in_disc. rewrite list_elem_of_bind. split.
  - intros (y & Hin & Hy). apply list_elem_of_bind in Hin as (x & Hin & Hx).
    apply elem_of_seqZ in Hx, Hy.
    destruct (x * x + y * y <=? radius * radius) eqn:G; [|by apply elem_of_nil in Hin].
    unfold guarded in Hin.
    destruct (in_image r (centerX + x) (centerY + y)) eqn:Hg; [|by apply elem_of_nil in Hin].
    apply list_elem_of_singleton in Hin. injection Hin as -> -> ->. btp.
    split_and!; [done..|].
    replace (centerX + x - centerX) with x by lia.
    replace (centerY + y - centerY) with y by lia. done.
  - intros (-> & Hg & Hd).
    set (a := px - centerX) in *. set (b := py - centerY) in *.
    assert (Ha : a * a <= radius * radius) by nia.
    assert (Hb : b * b <= radius * radius) by nia.
    assert (Hx : - radius <= a <= radius) by nia.
    assert (Hy : - radius <= b <= radius) by nia.
    unfold a, b in *. clear a b Ha Hb.
    exists (py - centerY). split; [|apply elem_of_seqZ; lia].
    apply list_elem_of_bind. exists (px - centerX). split; [|apply elem_of_seqZ; lia].
    apply Z.leb_le in Hd. rewrite Hd. unfold guarded.
    replace (centerX + (px - centerX)) with px by lia.
    replace (centerY + (py - centerY)) with py by lia.
    rewrite Hg. by apply list_elem_of_singleton.
Qed.

Lemma circle_calls_NoDup (r : Rectangle) (centerX centerY radius k : Z) :
  NoDup (circle_calls r centerX centerY radius k).
Proof.
  assert (Hcell : forall x y call,
            call ∈ (if x * x + y * y <=? radius * radius
                    then guarded r (centerX + x) (centerY + y) k else []) ->
            call = (centerX + x, centerY + y, k)).
  { intros x y call H. destruct (_ <=? _); [|by apply elem_of_nil in H].
    unfold guarded in H. destruct (in_image _ _ _); [|by apply elem_of_nil in H].
    by apply list_elem_of_singleton in H. }
  unfold circle_calls. apply NoDup_bind; [| |apply NoDup_seqZ].
  - intros y1 y2 call _ _ H1 H2.
    apply list_elem_of_bind in H1 as (x1 & H1 & _).
    apply list_elem_of_bind in H2 as (x2 & H2 & _).
    apply Hcell in H1, H2. rewrite H1 in H2. injection H2 as _ E. lia.
  - intros y _. apply NoDup_bind; [| |apply NoDup_seqZ].
    + intros x1 x2 call _ _ H1 H2. apply Hcell in H1, H2.
      rewrite H1 in H2. injection H2 as E. lia.
    + intros x _. destruct (_ <=? _); [|apply NoDup_nil_2].
      unfold guarded. destruct (in_image _ _ _); [apply NoDup_singleton|apply NoDup_nil_2].
Qed.

(** X13: where no coordinate wraps around, [drawCircle] draws the filled
    disc and nothing else: it returns, it stores once, with the colour
    index given, at every pixel of the image whose distance from the
    centre is at most the radius, and at no other; these pixels read
    back the colour index and every other pixel keeps its own. *)
Theorem X13_drawCircle_fills_the_disc (c : canvas) (w h : Z) (fuel : nat)
    (centerX centerY radius k : Z) :
  wf_image (image c) -> Bounds (image c) = Rect 0 0 w h -> 0 <= w -> 0 <= h ->
  0 <= radius < 2 ^ 31 ->
  min_int <= centerX - radius -> centerX + radius <= max_int ->
  min_int <= centerY - radius -> centerY + radius <= max_int ->
  2 * radius + 1 < Z.of_nat fuel ->
  exists c' new,
    drawCircle fuel centerX centerY radius k c = Returns tt c' /\
    history c' = history c ++ new /\ NoDup new /\
    (forall px py k', (px, py, k') ∈ new <->
       k' = k /\ 0 <= px < w /\ 0 <= py < h /\
       in_disc centerX centerY radius px py) /\
    (forall px py,
       0 <= px < w -> 0 <= py < h -> in_disc centerX centerY radius px py ->
       ColorIndexAt (image c') px py = Some k) /\
    (forall px py,
       ~ (0 <= px < w /\ 0 <= py < h /\ in_disc centerX centerY radius px py) ->
       ColorIndexAt (image c') px py = ColorIndexAt (image c) px py).
Proof.
  intros Hwf Hb Hw Hh Hr Hx1 Hx2 Hy1 Hy2 Hfuel.
  destruct (draws_drawCircle (Bounds (image c)) fuel centerX centerY radius k
              Hr Hx1 Hx2 Hy1 Hy2 Hfuel c Hwf eq_refl)
    as (c' & E & Hwf' & Hb' & Hh' & Hrep).
  set (new := circle_calls (Bounds (image c)) centerX centerY radius k) in *.
  assert (HDx : Dx (Bounds (image c)) = w).
  { rewrite wf_Dx by done. rewrite Hb, Rect_origin by lia. simpl. lia. }
  assert (HDy : Dy (Bounds (image c)) = h).
  { rewrite wf_Dy by done. rewrite Hb, Rect_origin by lia. simpl. lia. }
  assert (Hg : forall px py,
            in_image (Bounds (image c)) px py = true <-> 0 <= px < w /\ 0 <= py < h).
  { intros px py. unfold in_image. rewrite HDx, HDy.
    rewrite !andb_true_iff, !Z.geb_le, !Z.ltb_lt. lia. }
  assert (Hin : forall px py k', (px, py, k') ∈ new <->
            k' = k /\ 0 <= px < w /\ 0 <= py < h /\
            in_disc centerX centerY radius px py).
  { intros px py k'. unfold new. rewrite circle_calls_elem, Hg by lia. tauto. }
  exists c', new. split_and!; try done.
  - apply circle_calls_NoDup.
  - intros px py Hpx Hpy Hd.
    apply (replay_colour new (image c) _ px py k Hwf Hrep).
    + apply Forall_forall. intros [[a b] k'] H. by apply Hin in H as [-> _].
    + by apply Hin.
    + unfold point_In. rewrite Hb, Rect_origin by lia. simpl.
      repeat (apply andb_true_intro; split); lia.
  - intros px py Hout. apply (replay_other new (image c)); [done..|].
    intros k' H. apply Hin in H. tauto.
Qed.

Lemma X13_witness :
  exists c' new,
    drawCircle 8 1 1 3 9 canvas_8x3 = Returns tt c' /\
    history c' = history canvas_8x3 ++ new /\ NoDup new /\
    (forall px py k', (px, py, k') ∈ new <->
       k' = 9 /\ 0 <= px < 8 /\ 0 <= py < 3 /\ in_disc 1 1 3 px py) /\
    (forall px py,
       0 <= px < 8 -> 0 <= py < 3 -> in_disc 1 1 3 px py ->
       ColorIndexAt (image c') px py = Some 9) /\
    (forall px py,
       ~ (0 <= px < 8 /\ 0 <= py < 3 /\ in_disc 1 1 3 px py) ->
       ColorIndexAt (image c') px py = ColorIndexAt (image canvas_8x3) px py).
Proof.
  apply (X13_drawCircle_fills_the_disc canvas_8x3 8 3 8 1 1 3 9 canvas_8x3_wf);
    try done; unfold min_int, max_int; simpl; lia.
Defined.

(** ** The path of a line *)

Section BresenhamPath.
Context (xa ya x2 y2 : Z).
Hypothesis Hxa : is_int xa.
Hypothesis Hya : is_int ya.
Hypothesis Hx2 : is_int x2.
Hypothesis Hy2 : is_int y2.
Hypothesis Hfarx : Z.abs (x2 - xa) < 2 ^ 61.
Hypothesis Hfary : Z.abs (y2 - ya) < 2 ^ 61.

Let dx := Z.abs (x2 - xa).
Let dy := Z.abs (y2 - ya).
Let sx := if xa <? x2 then 1 else -1.
Let sy := if ya <? y2 then 1 else -1.
Let m := Z.max dx dy.

Local Abbreviation inv2 := (line_inv2 xa ya dx dy sx sy).

Lemma line_inv2_init : inv2 0 0 0 xa ya (int_sub dx dy).
Proof.
split; [apply line_inv_init; done|]. unfold dx, dy. lia.
Qed.

(** The second endpoint is reached in pass [m], not before. *)
Lemma line_inv2_end (n a b x y err : Z) :
inv2 n a b x y err ->
0 <= n <= m /\ ((x =? x2) && (y =? y2) = true <-> n = m).
Proof.
intros (Hinv & Hn1 & Hn2 & HD).
rewrite (line_at_end xa ya x2 y2 a b x y err Hinv). fold dx dy.
destruct Hinv as (Ha & Hb & _).
assert (Hdx : 0 <= dx) by (unfold dx; lia).
assert (Hdy : 0 <= dy) by (unfold dy; lia).
destruct (Z_le_gt_dec dy dx) as [Hc|Hc].
- specialize (Hn1 Hc). subst n. unfold m. rewrite Z.max_l in * by lia.
split; [lia|]. split; [lia|]. intros ->. split; [done|]. nia.
- specialize (Hn2 ltac:(lia)). subst n. unfold m. rewrite Z.max_r in * by lia.
split; [lia|]. split; [lia|]. intros ->. split; [nia|done].
Qed.

(** Before the end a pass keeps the invariant, for the next pass. *)
Lemma line_step_inv2 (n a b x y err : Z) :
inv2 n a b x y err -> n < m ->
exists a' b' x' y' err',
line_step dx dy sx sy (x, y, err) = (x', y', err') /\
inv2 (n + 1) a' b' x' y' err'.
Proof.
assert (Hdx : 0 <= dx < 2 ^ 61) by (unfold dx; lia).
assert (Hdy : 0 <= dy < 2 ^ 61) by (unfold dy; lia).
assert (Hsx : sx = 1 \/ sx = -1) by (unfold sx; destruct (xa <? x2); auto).
assert (Hsy : sy = 1 \/ sy = -1) by (unfold sy; destruct (ya <? y2); auto).
assert (Hxr : forall t, 0 <= t <= dx -> is_int (xa + sx * t)).
{ intros t Ht. unfold is_int, min_int, max_int in *. unfold dx, sx in *.
destruct (xa <? x2) eqn:G; btp; lia. }
assert (Hyr : forall t, 0 <= t <= dy -> is_int (ya + sy * t)).
{ intros t Ht. unfold is_int, min_int, max_int in *. unfold dy, sy in *.
destruct (ya <? y2) eqn:G; btp; lia. }
intros ((Ha & Hb & Hx & Hy & He & Hr) & Hn1 & Hn2 & HD) Hlt.
(* a step along x is asked for only short of x2, one along y short of y2 *)
assert (Hxroom : 2 * err > - dy -> a < dx).
{ intros G. destruct (Z_le_gt_dec dy dx) as [Hc|Hc]; [unfold m in Hlt; lia|].
assert (b < dy) by (unfold m in Hlt; lia). nia. }
assert (Hyroom : 2 * err < dx -> b < dy).
{ intros G. destruct (Z_le_gt_dec dx dy) as [Hc|Hc]; [unfold m in Hlt; lia|].
assert (a < dx) by (unfold m in Hlt; lia). nia. }
(* the longer side is stepped along in every pass *)
assert (Hxgo : dy <= dx -> 2 * err > - dy).
{ intros Hc. destruct (Z.eq_dec dx dy) as [E|E].
- assert (a = b) by lia. subst b. rewrite E in *. unfold m in *. nia.
- unfold m in *. lia. }
assert (Hygo : dx <= dy -> 2 * err < dx).
{ intros Hc. destruct (Z.eq_dec dx dy) as [E|E].
- assert (a = b) by lia. subst b. rewrite E in *. unfold m in *. nia.
- unfold m in *. lia. }
unfold line_step, int_mul, int_neg, int_sub, int_add.
rewrite (wrap_id (2 * err)) by (unfold is_int, min_int, max_int; lia).
rewrite (wrap_id (- dy)) by (unfold is_int, min_int, max_int; lia).
destruct (2 * err >? - dy) eqn:G1; btp.
- specialize (Hxroom ltac:(lia)).
rewrite (wrap_id (err - dy)) by (unfold is_int, min_int, max_int; lia).
assert (Ex' : x + sx = xa + sx * (a + 1)) by lia.
rewrite Ex', (wrap_id _ (Hxr (a + 1) ltac:(lia))).
destruct (2 * err <? dx) eqn:G2; btp.
+ specialize (Hyroom ltac:(lia)).
  rewrite (wrap_id (err - dy + dx)) by (unfold is_int, min_int, max_int; lia).
  assert (Ey' : y + sy = ya + sy * (b + 1)) by lia.
  rewrite Ey', (wrap_id _ (Hyr (b + 1) ltac:(lia))).
  exists (a + 1), (b + 1). do 3 eexists. split; [reflexivity|].
  unfold line_inv2, line_inv. unfold m in *. split_and!; try lia.
+ exists (a + 1), b. do 3 eexists. split; [reflexivity|].
  unfold line_inv2, line_inv. unfold m in *. split_and!; try lia.
- destruct (2 * err <? dx) eqn:G2; btp.
+ specialize (Hyroom ltac:(lia)).
  rewrite (wrap_id (err + dx)) by (unfold is_int, min_int, max_int; lia).
  assert (Ey' : y + sy = ya + sy * (b + 1)) by lia.
  rewrite Ey', (wrap_id _ (Hyr (b + 1) ltac:(lia))).
  exists a, (b + 1). do 3 eexists. split; [reflexivity|].
  unfold line_inv2, line_inv. unfold m in *. split_and!; try lia.
+ exfalso. destruct (Z_le_gt_dec dy dx); [specialize (Hxgo ltac:(lia))|
    specialize (Hygo ltac:(lia))]; lia.
Qed.

Lemma line_inv2_on_line (n a b x y err : Z) :
inv2 n a b x y err -> on_line xa ya x2 y2 n (x, y).
Proof.
intros ((Ha & Hb & -> & -> & _) & Hn1 & Hn2 & HD).
exists a, b. fold dx dy sx sy. split_and!; try done; fold m; lia.
Qed.

(** The loop from pass [n] on: it returns after the passes that are
left, having visited one point in each. *)
Lemma drawLine_loop_path (r : Rectangle) (k : Z) (fuel : nat) (n a b x y err : Z)
(c : canvas) :
inv2 n a b x y err -> m - n < Z.of_nat fuel ->
wf_image (image c) -> Bounds (image c) = r ->
exists c' path,
drawLine_loop fuel x y x2 y2 dx dy sx sy err k c = Returns tt c' /\
wf_image (image c') /\ Bounds (image c') = r /\
history c' = history c ++ stores r k path /\
replay (stores r k path) (image c) = Some (image c') /\
Z.of_nat (length path) = m - n + 1 /\
head path = Some (x, y) /\ last path = Some (x2, y2) /\
(forall (i : nat) p, path !! i = Some p -> on_line xa ya x2 y2 (n + Z.of_nat i) p).
Proof.
revert n a b x y err c.
induction fuel as [|fuel IH]; intros n a b x y err c Hinv Hfuel Hwf Hb.
{ destruct (line_inv2_end _ _ _ _ _ _ Hinv). lia. }
rewrite drawLine_loop_S.
assert (Hstore : exists c1,
(if in_image (Bounds (image c)) x y then setColorIndex x y k c else Returns tt c)
  = Returns tt c1 /\ wf_image (image c1) /\ Bounds (image c1) = r /\
history c1 = history c ++ guarded r x y k /\
replay (guarded r x y k) (image c) = Some (image c1)).
{ destruct (draws_guarded r x y k c Hwf Hb) as (c1 & E & H). exists c1.
split; [|done]. rewrite <- E. unfold mbind, Draw_bind, bounds.
by destruct (in_image _ _ _). }
destruct Hstore as (c1 & -> & Hwf1 & Hb1 & Hh1 & Hr1).
destruct (line_inv2_end _ _ _ _ _ _ Hinv) as [Hn Hend].
pose proof (line_inv2_on_line _ _ _ _ _ _ Hinv) as Hon.
destruct ((x =? x2) && (y =? y2)) eqn:G.
- assert (n = m) as -> by (by apply Hend).
exists c1, [(x, y)]. unfold stores. rewrite bind_singleton. cbn [fst snd].
btp. subst x y. split_and!; try done; [simpl; lia|].
intros [|i] p Hp; [|done]. injection Hp as <-. by rewrite Z.add_0_r.
- assert (n < m) as Hlt.
{ destruct (Z.eq_dec n m) as [E|E]; [|lia]. apply Hend in E. congruence. }
destruct (line_step_inv2 n a b x y err Hinv Hlt)
  as (a' & b' & x' & y' & err' & -> & Hinv').
destruct (IH (n + 1) a' b' x' y' err' c1 Hinv' ltac:(lia) Hwf1 Hb1)
  as (c' & path & E & Hwf' & Hb' & Hh' & Hr' & Hlen & Hhd & Hlast & Hpts).
exists c', ((x, y) :: path). unfold stores in *. rewrite bind_cons. cbn [fst snd].
split_and!; try done.
+ by rewrite Hh', Hh1, app_assoc.
+ by rewrite (replay_app _ _ _ _ Hr1).
+ cbn [length]. lia.
+ destruct path as [|q path]; [done|]. done.
+ intros [|i] p Hp.
  * injection Hp as <-. by rewrite Z.add_0_r.
  * replace (n + Z.of_nat (S i)) with (n + 1 + Z.of_nat i) by lia. by apply Hpts.
Qed.

Lemma drawLine_path (r : Rectangle) (k : Z) (fuel : nat) (c : canvas) :
m < Z.of_nat fuel -> wf_image (image c) -> Bounds (image c) = r ->
exists c' path,
drawLine fuel xa ya x2 y2 k c = Returns tt c' /\
wf_image (image c') /\ Bounds (image c') = r /\
history c' = history c ++ stores r k path /\
replay (stores r k path) (image c) = Some (image c') /\
Z.of_nat (length path) = m + 1 /\
head path = Some (xa, ya) /\ last path = Some (x2, y2) /\
(forall (i : nat) p, path !! i = Some p -> on_line xa ya x2 y2 (Z.of_nat i) p).
Proof.
intros Hfuel Hwf Hb. unfold drawLine.
rewrite (program_dx xa ya x2 y2 Hfarx), (program_dy xa ya x2 y2 Hfary).
destruct (drawLine_loop_path r k fuel 0 0 0 xa ya (int_sub dx dy) c
          line_inv2_init ltac:(lia) Hwf Hb)
as (c' & path & E & Hwf' & Hb' & Hh' & Hr' & Hlen & Hhd & Hlast & Hpts).
exists c', path. split_and!; try done; try lia.
Qed.
End BresenhamPath.

Lemma stores_elem (r : Rectangle) (k : Z) (path : list (Z * Z)) (px py k' : Z) :
  (px, py, k') ∈ stores r k path <->
  k' = k /\ (px, py) ∈ path /\ in_image r px py = true.
Proof.
  unfold stores. rewrite list_elem_of_bind. split.
  - intros ([x y] & Hin & Hp). unfold guarded in Hin. simpl in Hin.
    destruct (in_image r x y) eqn:G; [|by apply elem_of_nil in Hin].
    apply list_elem_of_singleton in Hin. injection Hin as -> -> ->. done.
  - intros (-> & Hp & Hg). exists (px, py). split; [|done].
    unfold guarded. simpl. rewrite Hg. by apply list_elem_of_singleton.
Qed.

(** X14: between endpoints less than 2^61 apart [drawLine] draws
    Bresenham's line: it returns after max(|x2-x1|, |y2-y1|) + 1 passes of
    its loop, the first at (x1, y1), the last at (x2, y2); pass [n] is at
    the point [n] steps along the longer side of the bounding box, at
    most half a pixel off the straight line; the points of the path that
    pass the guard are stored, in this order, and afterwards read back
    the colour index, while every other pixel keeps its own. *)
Theorem X14_drawLine_follows_the_line (c : canvas) (w h : Z) (fuel : nat)
    (x1 y1 x2 y2 k : Z) :
  wf_image (image c) -> Bounds (image c) = Rect 0 0 w h -> 0 <= w -> 0 <= h ->
  is_int x1 -> is_int y1 -> is_int x2 -> is_int y2 ->
  Z.abs (x2 - x1) < 2 ^ 61 -> Z.abs (y2 - y1) < 2 ^ 61 ->
  Z.max (Z.abs (x2 - x1)) (Z.abs (y2 - y1)) < Z.of_nat fuel ->
  exists c' path,
    drawLine fuel x1 y1 x2 y2 k c = Returns tt c' /\
    history c' = history c ++ stores (Bounds (image c)) k path /\
    Z.of_nat (length path) = Z.max (Z.abs (x2 - x1)) (Z.abs (y2 - y1)) + 1 /\
    head path = Some (x1, y1) /\ last path = Some (x2, y2) /\
    (forall (n : nat) p, path !! n = Some p -> on_line x1 y1 x2 y2 (Z.of_nat n) p) /\
    (forall px py, (px, py) ∈ path -> 0 <= px < w -> 0 <= py < h ->
       ColorIndexAt (image c') px py = Some k) /\
    (forall px py, ~ ((px, py) ∈ path /\ 0 <= px < w /\ 0 <= py < h) ->
       ColorIndexAt (image c') px py = ColorIndexAt (image c) px py).
Proof.
  intros Hwf Hb Hw Hh Hx1 Hy1 Hx2 Hy2 Hfx Hfy Hfuel.
  destruct (drawLine_path x1 y1 x2 y2 Hx1 Hy1 Hx2 Hy2 Hfx Hfy
              (Bounds (image c)) k fuel c Hfuel Hwf eq_refl)
    as (c' & path & E & Hwf' & Hb' & Hh' & Hr' & Hlen & Hhd & Hlast & Hpts).
  assert (HDx : Dx (Bounds (image c)) = w).
  { rewrite wf_Dx by done. rewrite Hb, Rect_origin by lia. simpl. lia. }
  assert (HDy : Dy (Bounds (image c)) = h).
  { rewrite wf_Dy by done. rewrite Hb, Rect_origin by lia. simpl. lia. }
  assert (Hg : forall px py,
            in_image (Bounds (image c)) px py = true <-> 0 <= px < w /\ 0 <= py < h).
  { intros px py. unfold in_image. rewrite HDx, HDy.
    rewrite !andb_true_iff, !Z.geb_le, !Z.ltb_lt. lia. }
  exists c', path. split_and!; try done.
  - intros px py Hp Hpx Hpy.
    apply (replay_colour _ (image c) _ px py k Hwf Hr').
    + apply Forall_forall. intros [[a b] k'] H. by apply stores_elem in H as [-> _].
    + apply stores_elem. split_and!; [done..|]. by apply Hg.
    + unfold point_In. rewrite Hb, Rect_origin by lia. simpl.
      repeat (apply andb_true_intro; split); lia.
  - intros px py Hout.
    apply (replay_other (stores (Bounds (image c)) k path) (image c)); [done..|].
    intros k' H. apply stores_elem in H as (_ & Hp & Hin). apply Hg in Hin. tauto.
Qed.

Lemma X14_witness :
  exists c' path,
    drawLine 7 5 2 (-1) 0 7 canvas_8x3 = Returns tt c' /\
    history c' = history canvas_8x3 ++ stores (Bounds (image canvas_8x3)) 7 path /\
    Z.of_nat (length path) = Z.max (Z.abs (-1 - 5)) (Z.abs (0 - 2)) + 1 /\
    head path = Some (5, 2) /\ last path = Some (-1, 0) /\
    (forall (n : nat) p, path !! n = Some p -> on_line 5 2 (-1) 0 (Z.of_nat n) p) /\
    (forall px py, (px, py) ∈ path -> 0 <= px < 8 -> 0 <= py < 3 ->
       ColorIndexAt (image c') px py = Some 7) /\
    (forall px py, ~ ((px, py) ∈ path /\ 0 <= px < 8 /\ 0 <= py < 3) ->
       ColorIndexAt (image c') px py = ColorIndexAt (image canvas_8x3) px py).
Proof.
  apply (X14_drawLine_follows_the_line canvas_8x3 8 3 7 5 2 (-1) 0 7 canvas_8x3_wf);
    try done; unfold is_int, min_int, max_int; simpl; lia.
Defined.

(** ** Colours of the escape-time image *)

(** X15: the colour computation of [CreateMandelbrotImage] never divides
    by zero, whatever the budget [maxIter], zero and negative ones
    included: the division by [maxIter] is reached only with an
    iteration count below a positive [maxIter].  Every pixel gets four
    bytes, opaque; a point that has not escaped, and every point under a
    budget of zero or less, is black; and where [maxIter * 255] fits an
    [int], the red byte of an escaped point is iter*255/maxIter, below
    255, with nothing cut off by the conversion. *)
Theorem X15_mandelbrot_colour_is_total (fuel : nat) (c : complex128) (maxIter : Z) :
  is_int maxIter -> (Z.to_nat maxIter < fuel)%nat ->
  exists iter colour,
    MandelbrotSet fuel c maxIter = Value iter /\
    mandelbrot_pixel fuel c maxIter = Value colour /\
    0 <= red colour <= 255 /\ 0 <= green colour <= 255 /\
    0 <= blue colour <= 255 /\ alpha colour = 255 /\
    (iter = maxIter -> colour = mkRGBA 0 0 0 255) /\
    (maxIter <= 0 -> colour = mkRGBA 0 0 0 255) /\
    (iter <> maxIter -> maxIter * 255 <= max_int ->
       0 <= iter < maxIter /\
       red colour = iter * 255 / maxIter /\ red colour < 255 /\
       green colour = (iter * 7) mod 255 /\ blue colour = (iter * 13) mod 255).
Proof.
  intros Hint Hfuel.
  destruct (MandelbrotSet_spec fuel c maxIter Hint Hfuel) as (k & E & Hneg & Hpos & _).
  unfold mandelbrot_pixel. rewrite E. unfold mandelbrot_colour.
  destruct (k =? maxIter) eqn:G; btp.
  - exists k. eexists. split; [done|]. split; [reflexivity|]. simpl.
    split_and!; try done; lia.
  - assert (Hk : 0 <= k < maxIter) by lia.
    unfold int_div. destruct (maxIter =? 0) eqn:G0; btp; [lia|].
    exists k. eexists. split; [done|]. split; [reflexivity|]. simpl.
    unfold uint8_of_int.
    pose proof (Z.mod_pos_bound (wrap (int_mul k 255 ÷ maxIter)) 256).
    pose proof (Z.mod_pos_bound (int_rem (int_mul k 7) 255) 256).
    pose proof (Z.mod_pos_bound (int_rem (int_mul k 13) 255) 256).
    split_and!; try done; try lia.
    intros _ Hfit. unfold is_int, min_int, max_int in *.
    unfold int_rem, int_mul.
    rewrite (wrap_id (k * 255)), (wrap_id (k * 7)), (wrap_id (k * 13))
      by (unfold is_int, min_int, max_int; nia).
    rewrite !Z.rem_mod_nonneg, Z.quot_div_nonneg by lia.
    assert (Hq : 0 <= k * 255 / maxIter < 255).
    { split; [apply Z.div_pos; lia|apply Z.div_lt_upper_bound; lia]. }
    pose proof (Z.mod_pos_bound (k * 7) 255). pose proof (Z.mod_pos_bound (k * 13) 255).
    rewrite wrap_id by (unfold is_int, min_int, max_int; lia).
    rewrite (Z.mod_small (k * 255 / maxIter) 256), (Z.mod_small ((k * 7) mod 255) 256),
      (Z.mod_small ((k * 13) mod 255) 256) by lia. lia.
Qed.

Lemma X15_witness :
  exists iter colour,
    MandelbrotSet 6 (mkComplex 1 1) 5 = Value iter /\
    mandelbrot_pixel 6 (mkComplex 1 1) 5 = Value colour /\
    0 <= red colour <= 255 /\ 0 <= green colour <= 255 /\
    0 <= blue colour <= 255 /\ alpha colour = 255 /\
    (iter = 5 -> colour = mkRGBA 0 0 0 255) /\
    (5 <= 0 -> colour = mkRGBA 0 0 0 255) /\
    (iter <> 5 -> 5 * 255 <= max_int ->
       0 <= iter < 5 /\
       red colour = iter * 255 / 5 /\ red colour < 255 /\
       green colour = (iter * 7) mod 255 /\ blue colour = (iter * 13) mod 255).
Proof.
  apply (X15_mandelbrot_colour_is_total 6 (mkComplex 1 1) 5).
  - unfold is_int, min_int, max_int. lia.
  - simpl. lia.
Defined.

(** ** Not a number *)

Lemma SFcompare_refl (f : spec_float) : f <> S754_nan -> SFcompare f f = Some Eq.
Proof.
  destruct f as [s|s| |s m e]; intros H; try done; simpl.
  - by destruct s.
  - rewrite Z.compare_refl.
    change (PosDef.Pos.compare_cont Eq m m) with (Pos.compare m m).
    rewrite Pos.compare_refl. by destruct s.
Qed.

Lemma NaN_Prim2SF (f : float) : NaN f <-> Prim2SF f = S754_nan.
Proof.
  unfold NaN, is_nan. rewrite FloatAxioms.eqb_spec. unfold SFeqb. split.
  - intros H. destruct (Prim2SF f) as [s|s| |s m e] eqn:E; try done;
      by rewrite SFcompare_refl in H.
  - by intros ->.
Qed.

Lemma NaN_add_l (a b : float) : NaN a -> NaN (a + b).
Proof. rewrite !NaN_Prim2SF, add_spec. by intros ->. Qed.

Lemma NaN_add_r (a b : float) : NaN b -> NaN (a + b).
Proof.
  rewrite !NaN_Prim2SF, add_spec. intros ->.
  by destruct (Prim2SF a) as [[]|[]| |].
Qed.

Lemma NaN_sub_l (a b : float) : NaN a -> NaN (a - b).
Proof. rewrite !NaN_Prim2SF, sub_spec. by intros ->. Qed.

Lemma NaN_sub_r (a b : float) : NaN b -> NaN (a - b).
Proof.
  rewrite !NaN_Prim2SF, sub_spec. intros ->.
  by destruct (Prim2SF a) as [[]|[]| |].
Qed.

Lemma NaN_mul_l (a b : float) : NaN a -> NaN (a * b).
Proof. rewrite !NaN_Prim2SF, mul_spec. by intros ->. Qed.

Lemma NaN_mul_r (a b : float) : NaN b -> NaN (a * b).
Proof.
  rewrite !NaN_Prim2SF, mul_spec. intros ->.
  by destruct (Prim2SF a) as [[]|[]| |].
Qed.

Create HintDb nan.
#[local] Hint Resolve NaN_add_l NaN_add_r NaN_sub_l NaN_sub_r NaN_mul_l NaN_mul_r : nan.

(** One step from a point with a NaN among its coordinates. *)
Lemma euler_step_NaN (sigma rho beta dt : float) (p : Point3D) :
  let q := euler_step sigma rho beta dt p in
  (NaN (X p) \/ NaN (Y p) -> lost q) /\
  (NaN (Zc p) -> NaN (Y q) /\ NaN (Zc q)).
Proof.
  unfold lost, euler_step, lorenz_derivative. simpl. split.
  - intros [H|H]; split_and!; eauto 10 with nan.
  - intros H. split; eauto 10 with nan.
Qed.

Lemma run_steps_lost (n : nat) (l : LorenzSystem) :
  NaN (l_x l) \/ NaN (l_y l) -> Forall lost (fst (run_steps n l)).
Proof.
  revert l. induction n as [|n IH]; intros l H; [constructor|].
  rewrite run_steps_S. cbn [fst].
  destruct (euler_step_NaN (l_sigma l) (l_rho l) (l_beta l) (l_dt l) (position l))
    as [Hq _]. specialize (Hq H). rewrite <- Step_point in Hq.
  constructor; [done|]. apply IH.
  pose proof (Step_position l) as E. rewrite <- E in Hq.
  left. apply Hq.
Qed.

(** X16: a NaN does not go away.  From a state with a NaN among its
    coordinates every point [Step] returns has a NaN y and a NaN z, and
    from the second call on all three coordinates are NaN; with the NaN
    in x or y, from the first call on. *)
Theorem X16_NaN_is_absorbing (l : LorenzSystem) (n : nat) :
  NaN (l_x l) \/ NaN (l_y l) \/ NaN (l_z l) ->
  Forall (fun p => NaN (Y p) /\ NaN (Zc p)) (fst (run_steps n l)) /\
  Forall lost (drop 1 (fst (run_steps n l))) /\
  (NaN (l_x l) \/ NaN (l_y l) -> Forall lost (fst (run_steps n l))).
Proof.
  intros H.
  assert (Hxy : NaN (l_x l) \/ NaN (l_y l) -> Forall lost (fst (run_steps n l)))
    by apply run_steps_lost.
  assert (Hdec : (NaN (l_x l) \/ NaN (l_y l)) \/ ~ (NaN (l_x l) \/ NaN (l_y l))).
  { unfold NaN. destruct (is_nan (l_x l)), (is_nan (l_y l)); intuition discriminate. }
  destruct Hdec as [G|G].
  - specialize (Hxy G). split_and!; [|by apply Forall_drop|done].
    eapply Forall_impl; [apply Hxy|]. by intros p (_ & ? & ?).
  - assert (Hz : NaN (l_z l)) by tauto.
    split_and!; [| |done]; destruct n as [|n]; try constructor;
      rewrite run_steps_S; cbn [fst drop];
      destruct (euler_step_NaN (l_sigma l) (l_rho l) (l_beta l) (l_dt l) (position l))
        as [_ Hq]; specialize (Hq Hz); rewrite <- Step_point in Hq;
      pose proof (Step_position l) as E;
      assert (Hy1 : NaN (l_y (snd (Step l))))
        by (change (l_y (snd (Step l))) with (Y (position (snd (Step l))));
            rewrite E; apply Hq).
    + constructor; [done|].
      eapply Forall_impl; [apply run_steps_lost; by right|]. by intros p (_ & ? & ?).
    + apply run_steps_lost. by right.
Qed.

Lemma X16_witness :
  Forall (fun p => NaN (Y p) /\ NaN (Zc p))
    (fst (run_steps 3 (mkLorenzSystem 10 28 (8 / 3) 0x1.47ae147ae147bp-7 1 nan 1 [] 5))) /\
  Forall lost
    (drop 1 (fst (run_steps 3
       (mkLorenzSystem 10 28 (8 / 3) 0x1.47ae147ae147bp-7 1 nan 1 [] 5)))) /\
  (NaN 1 \/ NaN nan ->
   Forall lost
     (fst (run_steps 3 (mkLorenzSystem 10 28 (8 / 3) 0x1.47ae147ae147bp-7 1 nan 1 [] 5)))).
Proof.
  apply (X16_NaN_is_absorbing
           (mkLorenzSystem 10 28 (8 / 3) 0x1.47ae147ae147bp-7 1 nan 1 [] 5) 3).
  right. left. reflexivity.
Defined.

(** ** A loop without an exit *)

(** A counting loop whose test holds for every [int] does not return. *)
Lemma for_loop_no_exit (cond : Z -> bool) (body : Z -> Draw unit) (fuel : nat)
    (i : Z) (c c' : canvas) :
  (forall j, is_int j -> cond j = true) -> is_int i ->
  for_loop fuel cond i body c <> Returns tt c'.
Proof.
  intros Hcond. revert i c. induction fuel as [|fuel IH]; intros i c Hi; [done|].
  cbn [for_loop]. rewrite (Hcond i Hi). unfold mbind, Draw_bind.
  destruct (body i c) as [[] c1| |c1]; [|done..].
  apply IH, wrap_is_int.
Qed.

(** X17: with the largest [int] as radius [drawCircle] does not
    terminate: the test [y <= radius] of its loop holds for every [int],
    and the counter wraps around. *)
Theorem X17_drawCircle_of_the_largest_radius (fuel : nat) (centerX centerY k : Z)
    (c : canvas) :
  ~ exists c', drawCircle fuel centerX centerY max_int k c = Returns tt c'.
Proof.
  intros (c' & E). revert E. unfold drawCircle.
  apply for_loop_no_exit; [|apply wrap_is_int].
  intros j Hj. apply Z.leb_le. apply Hj.
Qed.

(** ** Frames of a longer trail *)

Lemma index_last {A} (s : list A) (a : A) (c : canvas) :
  last s = Some a -> len s <= max_int ->
  index s (int_sub (len s) 1) c = Returns a c.
Proof.
  intros Hlast Hlen. rewrite last_lookup in Hlast.
  assert (0 < len s).
  { unfold len. destruct s; [done|]. simpl. lia. }
  assert (int_sub (len s) 1 = len s - 1) as ->
    by (apply wrap_id; unfold is_int, min_int, max_int in *; lia).
  unfold index. fold (len s).
  destruct (0 <=? len s - 1) eqn:G1; btp; [|lia].
  destruct (len s - 1 <? len s) eqn:G2; btp; [|lia]. simpl.
  replace (Z.to_nat (len s - 1)) with (pred (length s)) by (unfold len; lia).
  by rewrite Hlast.
Qed.

(** The stages of [CreateFrame] on a trail of two points or more that
    projects to within [B] of the origin: the image after the segments,
    after the marker, and after each of the two texts. *)
Lemma CreateFrame_stages (fuel : nat) (lorenz : LorenzSystem)
    (width height : Z) (rotationX rotationY : float) (frameNum : Z) (B : Z)
    (current : Point3D) :
  2 <= len (GetTrail lorenz) <= max_int ->
  0 <= width <= max_int -> 0 <= height <= max_int -> width * height <= max_int ->
  0 <= B < 2 ^ 60 ->
  (forall p, p ∈ GetTrail lorenz ->
     Z.abs (Project3DTo2D p width height rotationX rotationY).1 <= B /\
     Z.abs (Project3DTo2D p width height rotationX rotationY).2 <= B) ->
  Z.max (Z.max width height) (Z.max (len (GetTrail lorenz)) (4 * B + 7))
    < Z.of_nat fuel ->
  last (GetTrail lorenz) = Some current ->
  let r := Rect 0 0 width height in
  let x := (Project3DTo2D current width height rotationX rotationY).1 in
  let y := (Project3DTo2D current width height rotationX rotationY).2 in
  exists c2 c3 c4 c5,
    CreateFrame fuel lorenz width height rotationX rotationY frameNum = Returns tt c5 /\
    (wf_image (image c2) /\ Bounds (image c2) = r) /\
    (wf_image (image c3) /\ Bounds (image c3) = r) /\
    (wf_image (image c4) /\ Bounds (image c4) = r) /\
    (wf_image (image c5) /\ Bounds (image c5) = r) /\
    replay (circle_calls r x y 3 255) (image c2) = Some (image c3) /\
    replay (text_calls r 10 20 (String.list_ascii_of_string (frameLabel frameNum)) 200)
           (image c3) = Some (image c4) /\
    replay (text_calls r 10 35
              (String.list_ascii_of_string "Lorenz Attractor Animation") 150)
           (image c4) = Some (image c5).
Proof.
  intros Hlen Hw Hh Hwh HB Hproj Hfuel Hlast r x y.
  rewrite CreateFrame_body.
  destruct (NewPaletted_Rect width height) as (img & -> & Hwf & Hb & _); [lia..|].
  fold r in Hb. unfold frame_body. cbn zeta.
  destruct (len (GetTrail lorenz) <? 2) eqn:G; btp; [lia|].
  destruct (len (GetTrail lorenz) >? 0) eqn:G0; btp; [|lia].
  destruct (returns_fill r fuel width height ltac:(lia) ltac:(lia) ltac:(lia)
              {| image := img; history := [] |} Hwf Hb)
    as ([] & c1 & E1 & _ & Hwf1 & Hb1).
  destruct (returns_trail r fuel (GetTrail lorenz) width height rotationX rotationY B
              ltac:(lia) HB Hproj ltac:(lia) c1 Hwf1 Hb1)
    as ([] & c2 & E2 & _ & Hwf2 & Hb2).
  pose proof (index_last (GetTrail lorenz) current c2 Hlast ltac:(lia)) as Ei.
  assert (Hcur : current ∈ GetTrail lorenz).
  { rewrite last_lookup in Hlast. by eapply list_elem_of_lookup_2. }
  destruct (Hproj current Hcur) as [Bx By]. fold x y in Bx, By.
  destruct (draws_drawCircle r fuel x y 3 255) with (c := c2)
    as (c3 & E3 & Hwf3 & Hb3 & _ & Hr3);
    try done; try (unfold min_int, max_int; lia).
  destruct (draws_drawText r 10 20 (frameLabel frameNum) 200 c3 Hwf3 Hb3)
    as (c4 & E4 & Hwf4 & Hb4 & _ & Hr4).
  destruct (draws_drawText r 10 35 "Lorenz Attractor Animation" 150 c4 Hwf4 Hb4)
    as (c5 & E5 & Hwf5 & Hb5 & _ & Hr5).
  exists c2, c3, c4, c5. split_and!; try done.
  rewrite (Draw_bind_Returns _ _ _ _ _ E1), (Draw_bind_Returns _ _ _ _ _ E2).
  erewrite (Draw_bind_Returns _ _ c2 c3 tt).
  - by rewrite (Draw_bind_Returns _ _ _ _ _ E4).
  - rewrite (Draw_bind_Returns _ _ _ _ _ Ei).
    unfold x, y in E3.
    by destruct (Project3DTo2D current width height rotationX rotationY).
Qed.

Lemma in_image_Rect (w h x y : Z) :
  0 <= w <= max_int -> 0 <= h <= max_int ->
  0 <= x < w -> 0 <= y < h ->
  in_image (Rect 0 0 w h) x y = true /\ point_In x y (Rect 0 0 w h) = true.
Proof.
  intros Hw Hh Hx Hy. unfold in_image, point_In.
  rewrite Dx_Rect, Dy_Rect by lia. rewrite Rect_origin by lia. simpl.
  split; repeat (apply andb_true_intro; split); lia.
Qed.

Lemma text_calls_rows (r : Rectangle) (x y : Z) (text : list ascii) (k : Z)
    (px py k' : Z) :
  is_int y -> y + 5 <= max_int ->
  (px, py, k') ∈ text_calls r x y text k -> y <= py < y + 5.
Proof.
  intros Hy Hy5 Hin.
  apply text_calls_elem in Hin as (i & row & col & _ & Hrow & _ & E & _).
  injection E as _ -> _. unfold int_add.
  rewrite wrap_id by (unfold is_int, min_int, max_int in *; lia). lia.
Qed.

(** A frame of a trail of two points or more that projects to within
    [B] of the origin: [CreateFrame] returns, and the two texts are in
    the frame. *)
Lemma CreateFrame_draws (fuel : nat) (lorenz : LorenzSystem)
    (width height : Z) (rotationX rotationY : float) (frameNum : Z) (B : Z) :
  2 <= len (GetTrail lorenz) <= max_int ->
  12 <= width -> 36 <= height -> width * height <= max_int ->
  0 <= B < 2 ^ 60 ->
  (forall p, p ∈ GetTrail lorenz ->
     Z.abs (Project3DTo2D p width height rotationX rotationY).1 <= B /\
     Z.abs (Project3DTo2D p width height rotationX rotationY).2 <= B) ->
  Z.max (Z.max width height) (Z.max (len (GetTrail lorenz)) (4 * B + 7))
    < Z.of_nat fuel ->
  exists c',
    CreateFrame fuel lorenz width height rotationX rotationY frameNum = Returns tt c' /\
    Bounds (image c') = Rect 0 0 width height /\
    ColorIndexAt (image c') 11 22 = Some 200 /\
    ColorIndexAt (image c') 10 35 = Some 150.
Proof.
  intros Hlen Hw Hh Hwh HB Hproj Hfuel.
  assert (Hwm : width <= max_int) by nia.
  assert (Hhm : height <= max_int) by nia.
  destruct (last (GetTrail lorenz)) as [current|] eqn:Hlast.
  2: { apply last_None in Hlast. rewrite Hlast in Hlen. unfold len in Hlen.
       simpl in Hlen. lia. }
  destruct (CreateFrame_stages fuel lorenz width height rotationX rotationY frameNum
              B current Hlen ltac:(lia) ltac:(lia) Hwh HB Hproj Hfuel Hlast)
    as (c2 & c3 & c4 & c5 & E & _ & [Hwf3 Hb3] & [Hwf4 Hb4] & [Hwf5 Hb5]
        & _ & Hr4 & Hr5).
  set (r := Rect 0 0 width height) in *.
  assert (Hg : forall x y, 0 <= x < 12 -> 0 <= y < 36 ->
                 in_image r x y = true /\ point_In x y r = true)
    by (intros; apply in_image_Rect; lia).
  assert (Hy20 : is_int 20 /\ is_int 35)
    by (unfold is_int, min_int, max_int; lia).
  exists c5. split_and!; [done|done| |].
  - rewrite (replay_other _ (image c4) (image c5) 11 22 Hwf4 Hr5).
    + apply (replay_colour _ (image c3) _ 11 22 200 Hwf3 Hr4);
        [apply text_calls_colour| |rewrite Hb3; apply Hg; lia].
      apply (text_calls_char _ _ _ _ _ 0%nat "F"%char); [done|].
      change (11, 22, 200)
        with (int_add (int_add 10 (int_mul (Z.of_nat 0) 6)) (Z.of_nat 1),
              int_add 20 (Z.of_nat 2), 200).
      apply (char_calls_lit r _ 20 "F" 200 2 1 [false; true; false]); [done..|].
      change (in_image r 11 22 = true). apply Hg; lia.
    + intros k Hin. apply text_calls_rows in Hin; [lia|apply Hy20|unfold max_int; lia].
  - apply (replay_colour _ (image c4) _ 10 35 150 Hwf4 Hr5);
      [apply text_calls_colour| |rewrite Hb4; apply Hg; lia].
    apply (text_calls_char _ _ _ _ _ 0%nat "L"%char); [done|].
    change (10, 35, 150)
      with (int_add (int_add 10 (int_mul (Z.of_nat 0) 6)) (Z.of_nat 0),
            int_add 35 (Z.of_nat 0), 150).
    apply (char_calls_lit r _ 35 "L" 150 0 0 [true; false; false]); [done..|].
    change (in_image r 10 35 = true). apply Hg; lia.
Qed.

(** X12: with a trail of two points or more that projects to within [B]
    of the origin, on an image at least 12 wide and 36 high,
    [CreateFrame] returns (no loop runs more than max(width, height,
    len(trail), 4B + 7) times) and the frame is not blank: the dot of the
    first character of the frame counter is there, with index 200, and
    the top of the "L" of the title, with index 150. *)
Theorem X12_CreateFrame_draws_a_frame (fuel : nat) (lorenz : LorenzSystem)
    (width height : Z) (rotationX rotationY : float) (frameNum : Z) (B : Z) :
  2 <= len (GetTrail lorenz) <= max_int ->
  12 <= width -> 36 <= height -> width * height <= max_int ->
  0 <= B < 2 ^ 60 ->
  (forall p, p ∈ GetTrail lorenz ->
     Z.abs (Project3DTo2D p width height rotationX rotationY).1 <= B /\
     Z.abs (Project3DTo2D p width height rotationX rotationY).2 <= B) ->
  Z.max (Z.max width height) (Z.max (len (GetTrail lorenz)) (4 * B + 7))
    < Z.of_nat fuel ->
  exists c',
    CreateFrame fuel lorenz width height rotationX rotationY frameNum = Returns tt c' /\
    Bounds (image c') = Rect 0 0 width height /\
    ColorIndexAt (image c') 11 22 = Some 200 /\
    ColorIndexAt (image c') 10 35 = Some 150.
Proof. apply CreateFrame_draws. Qed.

Lemma X12_witness :
  exists c',
    CreateFrame 500 (mkLorenzSystem 10 28 (8 / 3) 0x1.47ae147ae147bp-7 2 2 2
                       [mkPoint3D 1 1 1; mkPoint3D 2 2 2] 5)
      12 36 0 0 7 = Returns tt c' /\
    Bounds (image c') = Rect 0 0 12 36 /\
    ColorIndexAt (image c') 11 22 = Some 200 /\
    ColorIndexAt (image c') 10 35 = Some 150.
Proof.
  apply (X12_CreateFrame_draws_a_frame 500
           (mkLorenzSystem 10 28 (8 / 3) 0x1.47ae147ae147bp-7 2 2 2
              [mkPoint3D 1 1 1; mkPoint3D 2 2 2] 5) 12 36 0 0 7 100).
  - unfold len, max_int. simpl. lia.
  - lia.
  - lia.
  - unfold max_int. lia.
  - lia.
  - intros p Hp. simpl in Hp.
    apply elem_of_cons in Hp as [->|Hp]; [vm_compute; split; discriminate|].
    apply elem_of_cons in Hp as [->|Hp]; [vm_compute; split; discriminate|].
    by apply elem_of_nil in Hp.
  - unfold len. simpl. lia.
Defined.

(** X18: in the frame [CreateFrame] returns for such a trail the
    current position is marked: every pixel of the image within 3 of the
    projection of the newest trail point has the brightest index, 255,
    unless it lies in one of the two bands of rows the texts are drawn
    in afterwards (rows 20 to 24 and 35 to 39). *)
Theorem X18_CreateFrame_marks_the_position (fuel : nat) (lorenz : LorenzSystem)
    (width height : Z) (rotationX rotationY : float) (frameNum : Z) (B : Z)
    (current : Point3D) :
  2 <= len (GetTrail lorenz) <= max_int ->
  0 <= width <= max_int -> 0 <= height <= max_int -> width * height <= max_int ->
  0 <= B < 2 ^ 60 ->
  (forall p, p ∈ GetTrail lorenz ->
     Z.abs (Project3DTo2D p width height rotationX rotationY).1 <= B /\
     Z.abs (Project3DTo2D p width height rotationX rotationY).2 <= B) ->
  Z.max (Z.max width height) (Z.max (len (GetTrail lorenz)) (4 * B + 7))
    < Z.of_nat fuel ->
  last (GetTrail lorenz) = Some current ->
  exists c',
    CreateFrame fuel lorenz width height rotationX rotationY frameNum = Returns tt c' /\
    forall px py,
      0 <= px < width -> 0 <= py < height ->
      in_disc (Project3DTo2D current width height rotationX rotationY).1
              (Project3DTo2D current width height rotationX rotationY).2 3 px py ->
      ~ 20 <= py < 25 -> ~ 35 <= py < 40 ->
      ColorIndexAt (image c') px py = Some 255.
Proof.
  intros Hlen Hw Hh Hwh HB Hproj Hfuel Hlast.
  destruct (CreateFrame_stages fuel lorenz width height rotationX rotationY frameNum
              B current Hlen Hw Hh Hwh HB Hproj Hfuel Hlast)
    as (c2 & c3 & c4 & c5 & E & [Hwf2 Hb2] & [Hwf3 Hb3] & [Hwf4 Hb4] & [Hwf5 Hb5]
        & Hr3 & Hr4 & Hr5).
  set (r := Rect 0 0 width height) in *.
  assert (Hy20 : is_int 20 /\ is_int 35)
    by (unfold is_int, min_int, max_int; lia).
  exists c5. split; [done|]. intros px py Hpx Hpy Hd H20 H35.
  destruct (in_image_Rect width height px py) as [Hg Hpt]; [lia..|]. fold r in Hg, Hpt.
  rewrite (replay_other _ (image c4) (image c5) px py Hwf4 Hr5).
  2: { intros k Hin. apply text_calls_rows in Hin; [lia|apply Hy20|unfold max_int; lia]. }
  rewrite (replay_other _ (image c3) (image c4) px py Hwf3 Hr4).
  2: { intros k Hin. apply text_calls_rows in Hin; [lia|apply Hy20|unfold max_int; lia]. }
  apply (replay_colour _ (image c2) _ px py 255 Hwf2 Hr3).
  - apply Forall_forall. intros [[a b] k'] H.
    apply circle_calls_elem in H as [-> _]; [done|lia].
  - apply circle_calls_elem; [lia|]. by split_and!.
  - by rewrite Hb2.
Qed.

Lemma X18_witness :
  exists c',
    CreateFrame 500 (mkLorenzSystem 10 28 (8 / 3) 0x1.47ae147ae147bp-7 2 2 2
                       [mkPoint3D 1 1 1; mkPoint3D 2 2 2] 5)
      12 36 0 0 7 = Returns tt c' /\
    forall px py,
      0 <= px < 12 -> 0 <= py < 36 ->
      in_disc (Project3DTo2D (mkPoint3D 2 2 2) 12 36 0 0).1
              (Project3DTo2D (mkPoint3D 2 2 2) 12 36 0 0).2 3 px py ->
      ~ 20 <= py < 25 -> ~ 35 <= py < 40 ->
      ColorIndexAt (image c') px py = Some 255.
Proof.
  apply (X18_CreateFrame_marks_the_position 500
           (mkLorenzSystem 10 28 (8 / 3) 0x1.47ae147ae147bp-7 2 2 2
              [mkPoint3D 1 1 1; mkPoint3D 2 2 2] 5) 12 36 0 0 7 100 (mkPoint3D 2 2 2)).
  - unfold len, max_int. simpl. lia.
  - unfold max_int. lia.
  - unfold max_int. lia.
  - unfold max_int. lia.
  - lia.
  - intros p Hp. simpl in Hp.
    apply elem_of_cons in Hp as [->|Hp]; [vm_compute; split; discriminate|].
    apply elem_of_cons in Hp as [->|Hp]; [vm_compute; split; discriminate|].
    by apply elem_of_nil in Hp.
  - unfold len. simpl. lia.
  - reflexivity.
Defined.

(** ** RGBA images *)

Lemma RGBA_PixOffset_wf (im : RGBAImage) (x y : Z) :
  wf_rgba im -> point_In x y (rgba_Rect im) = true ->
  let i := RGBA_PixOffset im x y in
  let w := pt_X (Max (rgba_Rect im)) - pt_X (Min (rgba_Rect im)) in
  i = 4 * ((y - pt_Y (Min (rgba_Rect im))) * w + (x - pt_X (Min (rgba_Rect im)))) /\
  0 <= x - pt_X (Min (rgba_Rect im)) < w /\
  0 <= i /\ i + 4 <= len (rgba_Pix im) /\ int_add i 4 = i + 4.
Proof.
  intros (HmX & HmY & HMX & HMY & Hw & Hh & Hwh & HS & HL) Hin i w.
  unfold point_In in Hin. btp.
  set (mx := pt_X (Min (rgba_Rect im))) in *. set (my := pt_Y (Min (rgba_Rect im))) in *.
  set (Mx := pt_X (Max (rgba_Rect im))) in *. set (My := pt_Y (Max (rgba_Rect im))) in *.
  fold w in Hw, Hwh, HS, HL.
  assert (Ew : w = Mx - mx) by done. clearbody w.
  specialize (HS ltac:(lia)).
  assert (Hrow : 0 <= (y - my) * w <= (My - my - 1) * w) by nia.
  assert (Hoff : 0 <= (y - my) * w + (x - mx) <= w * (My - my) - 1) by nia.
  assert (H4w : 4 * w <= max_int) by nia.
  unfold i, RGBA_PixOffset. fold mx my. rewrite HS, HL.
  unfold int_add, int_mul, int_sub. unfold is_int, min_int, max_int in *.
  rewrite (wrap_id (y - my)) by (unfold is_int, min_int, max_int; lia).
  rewrite (wrap_id (x - mx)) by (unfold is_int, min_int, max_int; lia).
  rewrite (wrap_id ((y - my) * _)) by (unfold is_int, min_int, max_int; nia).
  rewrite (wrap_id ((x - mx) * 4)) by (unfold is_int, min_int, max_int; lia).
  rewrite (wrap_id ((y - my) * (4 * w) + (x - mx) * 4))
    by (unfold is_int, min_int, max_int; nia).
  rewrite wrap_id by (unfold is_int, min_int, max_int; nia).
  split_and!; try lia; nia.
Qed.

Lemma RGBA_Set_inside (im : RGBAImage) (x y : Z) (c : RGBA) :
  wf_rgba im -> point_In x y (rgba_Rect im) = true ->
  let i := RGBA_PixOffset im x y in
  RGBA_Set im x y c =
    Some {| rgba_Pix := <[Z.to_nat (i + 3) := alpha c]>
                        (<[Z.to_nat (i + 2) := blue c]>
                        (<[Z.to_nat (i + 1) := green c]>
                        (<[Z.to_nat i := red c]> (rgba_Pix im))));
            rgba_Stride := rgba_Stride im; rgba_Rect := rgba_Rect im |}.
Proof.
  intros Hwf Hin i. destruct (RGBA_PixOffset_wf im x y Hwf Hin) as (_ & _ & H0 & H4 & E).
  unfold RGBA_Set. rewrite Hin. cbn [negb]. fold i. fold i in H0, H4, E. rewrite E.
  destruct (0 <=? i) eqn:G1; btp; [|lia].
  destruct (i <=? i + 4) eqn:G2; btp; [|lia].
  destruct (i + 4 <=? len (rgba_Pix im)) eqn:G3; btp; [|lia]. done.
Qed.

(** On a well-formed image [Set] cannot panic, and the image stays well
    formed, on the same rectangle. *)
Lemma RGBA_Set_wf (im : RGBAImage) (x y : Z) (c : RGBA) :
  wf_rgba im ->
  exists im', RGBA_Set im x y c = Some im' /\ wf_rgba im' /\
              rgba_Rect im' = rgba_Rect im.
Proof.
  intros Hwf. destruct (point_In x y (rgba_Rect im)) eqn:Hin.
  - rewrite (RGBA_Set_inside im x y c Hwf Hin). eexists. split; [reflexivity|].
    split; [|done]. unfold wf_rgba, len in *. simpl. by rewrite !length_insert.
  - unfold RGBA_Set. rewrite Hin. by exists im.
Qed.

Lemma RGBAAt_inside (im : RGBAImage) (x y : Z) :
  wf_rgba im -> point_In x y (rgba_Rect im) = true ->
  let i := RGBA_PixOffset im x y in
  RGBAAt im x y =
    match rgba_Pix im !! Z.to_nat i, rgba_Pix im !! Z.to_nat (i + 1),
          rgba_Pix im !! Z.to_nat (i + 2), rgba_Pix im !! Z.to_nat (i + 3) with
    | Some r, Some g, Some b, Some a => Some (mkRGBA r g b a)
    | _, _, _, _ => None
    end.
Proof.
  intros Hwf Hin i. destruct (RGBA_PixOffset_wf im x y Hwf Hin) as (_ & _ & H0 & H4 & E).
  unfold RGBAAt. rewrite Hin. cbn [negb]. fold i. fold i in H0, H4, E. rewrite E.
  destruct (0 <=? i) eqn:G1; btp; [|lia].
  destruct (i <=? i + 4) eqn:G2; btp; [|lia].
  destruct (i + 4 <=? len (rgba_Pix im)) eqn:G3; btp; [|lia]. done.
Qed.

(** A colour that was set is read back. *)
Lemma RGBA_Set_same (im im' : RGBAImage) (x y : Z) (c : RGBA) :
  wf_rgba im -> RGBA_Set im x y c = Some im' ->
  point_In x y (rgba_Rect im) = true ->
  RGBAAt im' x y = Some c.
Proof.
  intros Hwf Hset Hin.
  destruct (RGBA_Set_wf im x y c Hwf) as (im1 & Hset1 & Hwf' & Hb').
  rewrite Hset in Hset1. injection Hset1 as <-.
  rewrite (RGBA_Set_inside im x y c Hwf Hin) in Hset. injection Hset as <-.
  destruct (RGBA_PixOffset_wf im x y Hwf Hin) as (_ & _ & H0 & H4 & _).
  rewrite RGBAAt_inside by done. cbn zeta.
  change (RGBA_PixOffset {| rgba_Pix := _; rgba_Stride := rgba_Stride im;
                            rgba_Rect := rgba_Rect im |} x y)
    with (RGBA_PixOffset im x y).
  set (i := RGBA_PixOffset im x y) in *. cbn [rgba_Pix]. unfold len in H4.
  rewrite (list_lookup_insert_ne _ (Z.to_nat (i + 3)) (Z.to_nat i)) by lia.
  rewrite (list_lookup_insert_ne _ (Z.to_nat (i + 2)) (Z.to_nat i)) by lia.
  rewrite (list_lookup_insert_ne _ (Z.to_nat (i + 1)) (Z.to_nat i)) by lia.
  rewrite list_lookup_insert_eq by lia.
  rewrite (list_lookup_insert_ne _ (Z.to_nat (i + 3)) (Z.to_nat (i + 1))) by lia.
  rewrite (list_lookup_insert_ne _ (Z.to_nat (i + 2)) (Z.to_nat (i + 1))) by lia.
  rewrite list_lookup_insert_eq by (rewrite length_insert; lia).
  rewrite (list_lookup_insert_ne _ (Z.to_nat (i + 3)) (Z.to_nat (i + 2))) by lia.
  rewrite list_lookup_insert_eq by (rewrite !length_insert; lia).
  rewrite list_lookup_insert_eq by (rewrite !length_insert; lia).
  by destruct c.
Qed.

(** Setting a pixel changes no other. *)
Lemma RGBA_Set_other (im im' : RGBAImage) (x y : Z) (c : RGBA) (x' y' : Z) :
  wf_rgba im -> RGBA_Set im x y c = Some im' ->
  (x', y') <> (x, y) ->
  RGBAAt im' x' y' = RGBAAt im x' y'.
Proof.
  intros Hwf Hset Hne.
  destruct (point_In x y (rgba_Rect im)) eqn:Hin.
  2: { unfold RGBA_Set in Hset. rewrite Hin in Hset. by injection Hset as <-. }
  destruct (RGBA_Set_wf im x y c Hwf) as (im1 & Hset1 & Hwf' & Hb').
  rewrite Hset in Hset1. injection Hset1 as <-.
  rewrite (RGBA_Set_inside im x y c Hwf Hin) in Hset. injection Hset as <-.
  destruct (point_In x' y' (rgba_Rect im)) eqn:Hin'.
  2: { unfold RGBAAt. cbn [rgba_Rect]. by rewrite Hin'. }
  rewrite (RGBAAt_inside _ x' y' Hwf') by done.
  rewrite (RGBAAt_inside im x' y' Hwf Hin'). cbn zeta.
  change (RGBA_PixOffset {| rgba_Pix := _; rgba_Stride := rgba_Stride im;
                            rgba_Rect := rgba_Rect im |} x' y')
    with (RGBA_PixOffset im x' y').
  destruct (RGBA_PixOffset_wf im x y Hwf Hin) as (Ei & Hx & H0 & H4 & _).
  destruct (RGBA_PixOffset_wf im x' y' Hwf Hin') as (Ei' & Hx' & H0' & H4' & _).
  set (i := RGBA_PixOffset im x y) in *. set (i' := RGBA_PixOffset im x' y') in *.
  cbn [rgba_Pix].
  assert (Hdis : i + 4 <= i' \/ i' + 4 <= i).
  { set (w := pt_X (Max (rgba_Rect im)) - pt_X (Min (rgba_Rect im))) in *.
    set (a := x - pt_X (Min (rgba_Rect im))) in *.
    set (a' := x' - pt_X (Min (rgba_Rect im))) in *.
    set (b := y - pt_Y (Min (rgba_Rect im))) in *.
    set (b' := y' - pt_Y (Min (rgba_Rect im))) in *.
    assert (b * w + a <> b' * w + a').
    { intros E. apply Hne.
      assert (b = b') by nia. assert (a = a') by nia.
      unfold a, a', b, b' in *. f_equal; lia. }
    lia. }
  rewrite !list_lookup_insert_ne by lia. done.
Qed.

(** ** Loops on an RGBA image *)

Lemma Paint_bind_Value {A B} (m : Paint A) (f : A -> Paint B) (img img1 : RGBAImage)
    (a : A) :
  m img = Value (a, img1) -> (m ≫= f) img = f a img1.
Proof. intros E. unfold mbind, Paint_bind. by rewrite E. Qed.

(** A counting loop over [lo, hi) whose body keeps an invariant. *)
Lemma paint_for_spec (I : Z -> RGBAImage -> Prop) (cond : Z -> bool) (lo hi : Z)
    (body : Z -> Paint unit) (fuel : nat) (img : RGBAImage) :
  is_int lo -> lo <= hi <= max_int ->
  (forall j, lo <= j < hi -> cond j = true) -> cond hi = false ->
  (forall j im, lo <= j < hi -> I j im ->
     exists im', body j im = Value (tt, im') /\ I (j + 1) im') ->
  hi - lo < Z.of_nat fuel -> I lo img ->
  exists img', paint_for fuel cond lo body img = Value (tt, img') /\ I hi img'.
Proof.
  intros Hlo Hhi Hin Hout Hbody. revert lo img Hlo Hhi Hin Hbody.
  induction fuel as [|fuel IH]; intros lo img Hlo Hhi Hin Hbody Hfuel HI; [lia|].
  cbn [paint_for]. destruct (decide (lo = hi)) as [->|Hne].
  - rewrite Hout. by exists img.
  - rewrite Hin by lia.
    destruct (Hbody lo img ltac:(lia) HI) as (im1 & E1 & HI1).
    rewrite (Paint_bind_Value _ _ _ _ _ E1).
    unfold int_add. rewrite wrap_id by (unfold is_int, min_int, max_int in *; lia).
    apply IH; try done; try lia.
    + unfold is_int, min_int, max_int in *; lia.
    + intros j Hj. apply Hin. lia.
    + intros j im Hj. apply Hbody. lia.
Qed.

(** The two loops over the pixels, with a body that sets the colour
    [f x y] at (x, y): every pixel of the image gets its colour. *)
Lemma paint_every_pixel (f : Z -> Z -> RGBA) (body : Z -> Z -> Paint unit)
    (width height : Z) (fuel : nat) (img : RGBAImage) :
  0 <= width <= max_int -> 0 <= height <= max_int ->
  wf_rgba img -> rgba_Rect img = Rect 0 0 width height ->
  (forall x y im, 0 <= x < width -> 0 <= y < height ->
     wf_rgba im -> rgba_Rect im = Rect 0 0 width height ->
     body x y im = paint_set x y (f x y) im) ->
  Z.max width height < Z.of_nat fuel ->
  exists img',
    paint_for fuel (fun y => y <? height) 0 (fun y =>
      paint_for fuel (fun x => x <? width) 0 (fun x => body x y)) img
      = Value (tt, img') /\
    wf_rgba img' /\ rgba_Rect img' = Rect 0 0 width height /\
    forall px py, 0 <= px < width -> 0 <= py < height ->
      RGBAAt img' px py = Some (f px py).
Proof.
  intros Hw Hh Hwf Hb Hbody Hfuel.
  assert (Hint0 : is_int 0) by (unfold is_int, min_int, max_int; lia).
  assert (Hpt : forall x y, 0 <= x < width -> 0 <= y < height ->
                  point_In x y (Rect 0 0 width height) = true).
  { intros x y Hx Hy. unfold point_In. rewrite Rect_origin by lia. simpl.
    repeat (apply andb_true_intro; split); lia. }
  set (r := Rect 0 0 width height) in *.
  (* rows below [y] are done *)
  set (J := fun (y : Z) (im : RGBAImage) =>
              wf_rgba im /\ rgba_Rect im = r /\
              forall px py, 0 <= px < width -> 0 <= py < y ->
                RGBAAt im px py = Some (f px py)).
  destruct (paint_for_spec J (fun y => y <? height) 0 height
              (fun y => paint_for fuel (fun x => x <? width) 0 (fun x => body x y))
              fuel img) as (img' & E & Hwf' & Hb' & Hpix);
    [done|lia|intros; apply Z.ltb_lt; lia|apply Z.ltb_ge; lia| |lia| |].
  - intros y im Hy (Hwfi & Hbi & Hdone).
    (* in row [y] the columns below [x] are done *)
    set (I := fun (x : Z) (im' : RGBAImage) =>
                wf_rgba im' /\ rgba_Rect im' = r /\
                (forall px py, 0 <= px < width -> 0 <= py < y ->
                   RGBAAt im' px py = Some (f px py)) /\
                forall px, 0 <= px < x -> RGBAAt im' px y = Some (f px y)).
    destruct (paint_for_spec I (fun x => x <? width) 0 width (fun x => body x y)
                fuel im) as (im' & E & Hwf' & Hb' & Hrows & Hrow);
      [done|lia|intros; apply Z.ltb_lt; lia|apply Z.ltb_ge; lia| |lia| |].
    + intros x im1 Hx (Hwf1 & Hb1 & Hrows & Hrow).
      rewrite (Hbody x y im1) by done. unfold paint_set.
      destruct (RGBA_Set_wf im1 x y (f x y) Hwf1) as (im2 & Hset & Hwf2 & Hb2).
      rewrite Hset. exists im2. split; [done|]. split_and!; [done|congruence| |].
      * intros px py Hpx Hpy.
        rewrite (RGBA_Set_other im1 im2 x y (f x y) px py Hwf1 Hset); [by apply Hrows|].
        intros Eq. injection Eq as -> ->. lia.
      * intros px Hpx. destruct (decide (px = x)) as [->|Hne].
        -- apply (RGBA_Set_same im1 im2 x y (f x y) Hwf1 Hset). rewrite Hb1. by apply Hpt.
        -- rewrite (RGBA_Set_other im1 im2 x y (f x y) px y Hwf1 Hset); [apply Hrow; lia|].
           intros Eq. injection Eq as ->. done.
    + split_and!; try done. intros px Hpx. lia.
    + exists im'. split; [done|]. split_and!; try done.
      intros px py Hpx Hpy. destruct (decide (py = y)) as [->|Hne].
      * by apply Hrow.
      * apply Hrows; lia.
  - split_and!; try done. intros px py Hpx Hpy. lia.
  - exists img'. split_and!; try done.
Qed.

(** What [mul3NonNeg] comes to on non-negative arguments. *)
Lemma mul3NonNeg_spec (x y z : Z) :
  0 <= x -> 0 <= y -> 0 <= z ->
  mul3NonNeg x y z = if (x * y <? 2 ^ 64) && (x * y * z <=? max_int) then x * y * z else -1.
Proof.
  intros Hx Hy Hz. unfold mul3NonNeg, Mul64.
  destruct (x <? 0) eqn:G1; btp; [lia|].
  destruct (y <? 0) eqn:G2; btp; [lia|].
  destruct (z <? 0) eqn:G3; btp; [lia|]. simpl.
  assert (Hxy : 0 <= x * y) by nia.
  destruct (x * y <? 2 ^ 64) eqn:G4; btp; simpl.
  - rewrite (Z.div_small (x * y)), (Z.mod_small (x * y)) by lia. simpl.
    assert (Hxyz : 0 <= x * y * z) by nia.
    destruct (x * y * z <? 2 ^ 64) eqn:G5; btp.
    + rewrite (Z.div_small (x * y * z)), (Z.mod_small (x * y * z)) by lia. simpl.
      destruct (x * y * z <=? max_int) eqn:G6; btp.
      * rewrite wrap_id by (unfold is_int, min_int, max_int in *; lia).
        destruct (x * y * z <? 0) eqn:G7; btp; [lia|done].
      * assert (wrap (x * y * z) = x * y * z - 2 ^ 64) as ->.
        { unfold wrap, max_int in *.
          replace (x * y * z + 2 ^ 63) with (x * y * z - 2 ^ 63 + 1 * 2 ^ 64) by lia.
          rewrite Z.mod_add by lia. rewrite Z.mod_small by lia. lia. }
        destruct (x * y * z - 2 ^ 64 <? 0) eqn:G7; btp; [done|lia].
    + assert (Hq : 0 < x * y * z / 2 ^ 64) by (apply Z.div_str_pos; lia).
      destruct (x * y * z / 2 ^ 64 =? 0) eqn:G8; btp; [lia|]. simpl.
      destruct (x * y * z <=? max_int) eqn:G6; btp; [unfold max_int in *; lia|done].
  - assert (Hq : 0 < x * y / 2 ^ 64) by (apply Z.div_str_pos; lia).
    destruct (x * y / 2 ^ 64 =? 0) eqn:G8; btp; [lia|]. done.
Qed.

(** The non-negative sizes [image.NewRGBA] accepts. *)
Lemma NewRGBA_Rect (w h : Z) :
  0 <= w < 2 ^ 62 -> 0 <= h <= max_int -> 4 * w * h <= max_int ->
  exists img, NewRGBA (Rect 0 0 w h) = Some img /\
    wf_rgba img /\ rgba_Rect img = Rect 0 0 w h.
Proof.
  intros Hw Hh Hwh. unfold NewRGBA, pixelBufferLength.
  rewrite Dx_Rect, Dy_Rect by (unfold max_int in *; lia). rewrite !Z.abs_eq by lia.
  rewrite mul3NonNeg_spec by lia.
  destruct (4 * w <? 2 ^ 64) eqn:G1; btp; [|lia].
  destruct (4 * w * h <=? max_int) eqn:G2; btp; [|lia]. simpl.
  destruct (4 * w * h <? 0) eqn:G3; btp; [nia|].
  eexists. split; [reflexivity|]. split; [|done].
  unfold wf_rgba, len. simpl.
  rewrite length_replicate, Rect_origin by (unfold max_int in *; lia). simpl.
  unfold is_int, min_int, max_int in *. split_and!; try lia; try nia.
  intros Hpos. unfold int_mul. rewrite wrap_id; [lia|].
  unfold is_int, min_int, max_int. nia.
Qed.

(** The other non-negative sizes it refuses, a width of 2^62 or more also
    where the height is 0. *)
Lemma NewRGBA_Rect_refused (w h : Z) :
  0 <= w <= max_int -> 0 <= h <= max_int ->
  2 ^ 62 <= w \/ max_int < 4 * w * h ->
  NewRGBA (Rect 0 0 w h) = None.
Proof.
  intros Hw Hh Hbig. unfold NewRGBA, pixelBufferLength.
  rewrite Dx_Rect, Dy_Rect by lia. rewrite !Z.abs_eq by lia.
  rewrite mul3NonNeg_spec by lia.
  destruct (4 * w <? 2 ^ 64) eqn:G1; btp; [|done].
  destruct (4 * w * h <=? max_int) eqn:G2; btp; [|done]. lia.
Qed.

(** [image.NewPaletted] makes the same check with one byte per pixel. *)
Lemma NewPaletted_pixelBufferLength (r : Rectangle) :
  NewPaletted r =
    match pixelBufferLength 1 r with
    | None => None
    | Some n => Some {| Pix := replicate (Z.to_nat n) 0; Stride := Dx r; Bounds := r |}
    end.
Proof.
  unfold NewPaletted, pixelBufferLength.
  assert (Hw : is_int (Dx r)) by apply wrap_is_int.
  assert (Hh : is_int (Dy r)) by apply wrap_is_int.
  destruct (Dx r <? 0) eqn:G1.
  { unfold mul3NonNeg. by rewrite G1. }
  destruct (Dy r <? 0) eqn:G2.
  { unfold mul3NonNeg. by rewrite G1, G2. }
  btp. rewrite mul3NonNeg_spec by lia. rewrite Z.mul_1_l. cbn [orb].
  assert ((Dx r <? 2 ^ 64) = true) as ->
    by (apply Z.ltb_lt; unfold is_int, max_int in *; lia).
  rewrite (Z.ltb_antisym (Dx r * Dy r) max_int). cbn [andb].
  destruct (Dx r * Dy r <=? max_int) eqn:G3; [|done]. cbn [negb].
  destruct (Dx r * Dy r <? 0) eqn:G4; btp; [nia|done].
Qed.

(** Where it refuses the size, a side that is the smallest [int] or more
    pixels than an [int] counts, no frame is made, whatever the trail. *)
Lemma NewPaletted_Rect_refused (w h : Z) :
  is_int w -> is_int h ->
  w = min_int \/ h = min_int \/ max_int < Z.abs w * Z.abs h ->
  NewPaletted (Rect 0 0 w h) = None.
Proof.
  intros Hw Hh Hbad. unfold NewPaletted.
  assert (HDx : Dx (Rect 0 0 w h) = if w =? min_int then min_int else Z.abs w).
  { destruct (w =? min_int) eqn:G; btp.
    - subst w. unfold Dx, Rect. by destruct (0 >? h).
    - apply Dx_Rect. unfold is_int, min_int, max_int in *. lia. }
  assert (HDy : Dy (Rect 0 0 w h) = if h =? min_int then min_int else Z.abs h).
  { destruct (h =? min_int) eqn:G; btp.
    - subst h. unfold Dy, Rect. by destruct (0 >? w).
    - apply Dy_Rect. unfold is_int, min_int, max_int in *. lia. }
  rewrite HDx, HDy.
  destruct (w =? min_int) eqn:G1; [done|].
  destruct (h =? min_int) eqn:G2; [by destruct (Z.abs w <? 0)|].
  btp. destruct Hbad as [?|[?|Hbig]]; [done..|].
  destruct (max_int <? Z.abs w * Z.abs h) eqn:G3; btp; [|lia].
  by rewrite !orb_true_r.
Qed.

Lemma CreateFrame_refused_size (fuel : nat) (lorenz : LorenzSystem)
    (width height : Z) (rotationX rotationY : float) (frameNum : Z) :
  is_int width -> is_int height ->
  width = min_int \/ height = min_int \/ max_int < Z.abs width * Z.abs height ->
  CreateFrame fuel lorenz width height rotationX rotationY frameNum = Panics.
Proof.
  intros Hw Hh Hbad. unfold CreateFrame.
  by rewrite (NewPaletted_Rect_refused width height Hw Hh Hbad).
Qed.

(** ** The escape-time image *)

Lemma mandelbrot_pixel_total (fuel : nat) (c : complex128) (maxIter : Z) :
  is_int maxIter -> (Z.to_nat maxIter < fuel)%nat ->
  exists colour, mandelbrot_pixel fuel c maxIter = Value colour /\ alpha colour = 255.
Proof.
  intros Hint Hfuel.
  destruct (MandelbrotSet_spec fuel c maxIter Hint Hfuel) as (k & E & Hneg & Hpos & _).
  unfold mandelbrot_pixel. rewrite E. unfold mandelbrot_colour.
  destruct (k =? maxIter) eqn:G; btp; [by eexists|].
  unfold int_div. destruct (maxIter =? 0) eqn:G0; btp; [lia|]. by eexists.
Qed.

(** X19: for every non-negative size [image.NewRGBA] accepts (a width
    below 2^62 and at most 2^63 - 1 bytes) and every budget [maxIter],
    [CreateMandelbrotImage] returns, without a panic, an image of that
    size in which every pixel holds the colour computed for the pixel's
    own point of the plane, and is opaque. *)
Theorem X19_CreateMandelbrotImage_sets_every_pixel (fuel : nat)
    (width height maxIter : Z) :
  0 <= width < 2 ^ 62 -> 0 <= height <= max_int ->
  4 * width * height <= max_int -> is_int maxIter ->
  Z.max (Z.max width height) maxIter < Z.of_nat fuel ->
  exists img,
    CreateMandelbrotImage fuel width height maxIter = Value img /\
    rgba_Rect img = Rect 0 0 width height /\
    len (rgba_Pix img) = 4 * width * height /\
    forall px py, 0 <= px < width -> 0 <= py < height ->
      exists colour,
        mandelbrot_pixel fuel (mandelbrot_point px py width height) maxIter
          = Value colour /\
        RGBAAt img px py = Some colour /\ alpha colour = 255.
Proof.
  intros Hw62 Hh Hwh Hint Hfuel. unfold CreateMandelbrotImage.
  assert (Hf : (Z.to_nat maxIter < fuel)%nat) by lia.
  destruct (NewRGBA_Rect width height Hw62 Hh Hwh) as (img & -> & Hwf & Hb).
  assert (Hw : 0 <= width <= max_int) by (unfold max_int; lia).
  set (f := fun px py =>
              match mandelbrot_pixel fuel (mandelbrot_point px py width height) maxIter with
              | Value colour => colour
              | _ => mkRGBA 0 0 0 0
              end).
  destruct (paint_every_pixel f
              (fun px py =>
                 colour ← paint_call
                   (mandelbrot_pixel fuel (mandelbrot_point px py width height) maxIter);
                 paint_set px py colour)
              width height fuel img Hw Hh Hwf Hb) as (img' & E & Hwf' & Hb' & Hpix).
  - intros x y im Hx Hy _ _. unfold f, mbind, Paint_bind, paint_call.
    destruct (mandelbrot_pixel_total fuel (mandelbrot_point x y width height) maxIter
                Hint Hf) as (colour & -> & _). done.
  - lia.
  - rewrite E. exists img'. split_and!; try done.
    + destruct Hwf' as (_ & _ & _ & _ & _ & _ & _ & _ & ->).
      rewrite Hb', Rect_origin by lia. simpl. lia.
    + intros px py Hpx Hpy.
      destruct (mandelbrot_pixel_total fuel (mandelbrot_point px py width height) maxIter
                  Hint Hf) as (colour & Ec & Ha).
      exists colour. split_and!; try done.
      rewrite (Hpix px py Hpx Hpy). unfold f. by rewrite Ec.
Qed.

Lemma X19_witness :
  exists img,
    CreateMandelbrotImage 6 3 2 5 = Value img /\
    rgba_Rect img = Rect 0 0 3 2 /\
    len (rgba_Pix img) = 4 * 3 * 2 /\
    forall px py, 0 <= px < 3 -> 0 <= py < 2 ->
      exists colour,
        mandelbrot_pixel 6 (mandelbrot_point px py 3 2) 5 = Value colour /\
        RGBAAt img px py = Some colour /\ alpha colour = 255.
Proof.
  apply (X19_CreateMandelbrotImage_sets_every_pixel 6 3 2 5);
    unfold is_int, min_int, max_int; lia.
Defined.

(** ** The image of the attractor *)

Lemma skip_loop_returns (fuel : nat) (i : Z) (lorenz : LorenzAttractor) :
  0 <= i <= 1000 -> 1000 - i < Z.of_nat fuel ->
  exists lorenz', skip_loop fuel i lorenz = Value lorenz'.
Proof.
  revert i lorenz. induction fuel as [|fuel IH]; intros i lorenz Hi Hfuel; [lia|].
  cbn [skip_loop]. destruct (i <? 1000) eqn:G; btp; [|by eexists].
  unfold int_add. rewrite wrap_id by (unfold is_int, min_int, max_int; lia).
  apply IH; lia.
Qed.

Lemma lorenz_colour_palette (point : Point3D) : lorenz_palette (lorenz_colour point).
Proof.
  right. unfold lorenz_colour.
  set (r := uint8_of_float64 _).
  assert (0 <= r <= 255).
  { unfold r, uint8_of_float64.
    pose proof (Z.mod_pos_bound (int_of_float64
      (math_Max 0 (math_Min 255 ((Y point + 30) * 3)))) 256). lia. }
  exists r. split; [done|]. by rewrite (Z.mod_small (255 - r)) by lia.
Qed.

(** The plotting loop keeps every pixel within the palette. *)
Lemma plot_loop_palette (fuel : nat) (width height iterations : Z)
    (scaleX scaleY centerX centerY : float) (i : Z)
    (lorenz : LorenzAttractor) (img : RGBAImage) :
  0 <= width <= max_int -> 0 <= height <= max_int ->
  iterations <= max_int -> 0 <= i ->
  Z.max 0 (iterations - i) < Z.of_nat fuel ->
  wf_rgba img -> rgba_Rect img = Rect 0 0 width height ->
  (forall px py, 0 <= px < width -> 0 <= py < height ->
     exists c, RGBAAt img px py = Some c /\ lorenz_palette c) ->
  exists img',
    plot_loop fuel width height iterations scaleX scaleY centerX centerY i lorenz img
      = Value img' /\
    wf_rgba img' /\ rgba_Rect img' = Rect 0 0 width height /\
    forall px py, 0 <= px < width -> 0 <= py < height ->
      exists c, RGBAAt img' px py = Some c /\ lorenz_palette c.
Proof.
  intros Hw Hh Hit. revert i lorenz img.
  induction fuel as [|fuel IH]; intros i lorenz img Hi Hfuel Hwf Hb Hpix; [lia|].
  cbn [plot_loop]. destruct (i <? iterations) eqn:G; btp; [|by exists img].
  destruct (NextPoint lorenz) as [point lorenz1].
  assert (Ei : int_add i 1 = i + 1)
    by (apply wrap_id; unfold is_int, min_int, max_int in *; lia).
  rewrite Ei.
  set (x := int_of_float64 (X point * scaleX + centerX)).
  set (y := int_of_float64 (Zc point * scaleY + centerY)).
  destruct ((x >=? 0) && (x <? width) && (y >=? 0) && (y <? height)) eqn:Gb.
  - destruct (RGBA_Set_wf img x y (lorenz_colour point) Hwf) as (img1 & Hset & Hwf1 & Hb1).
    rewrite Hset. apply IH; try done; try lia; [congruence|].
    intros px py Hpx Hpy. destruct (decide ((px, py) = (x, y))) as [E|Hne].
    + injection E as -> ->. exists (lorenz_colour point). split.
      * apply (RGBA_Set_same img img1 x y _ Hwf Hset). rewrite Hb.
        unfold point_In. rewrite Rect_origin by lia. simpl.
        repeat (apply andb_true_intro; split); lia.
      * apply lorenz_colour_palette.
    + rewrite (RGBA_Set_other img img1 x y _ px py Hwf Hset Hne). by apply Hpix.
  - apply IH; try done; lia.
Qed.

(** X20: for every non-negative size [image.NewRGBA] accepts (a width
    below 2^62 and at most 2^63 - 1 bytes) and every number of points,
    [CreateLorenzImage] returns, without a panic, an image of that size
    in which every pixel is opaque and either black or, for a red byte r,
    has r/2 of green and 255 - r of blue. *)
Theorem X20_CreateLorenzImage_stays_in_its_palette (fuel : nat)
    (width height iterations : Z) :
  0 <= width < 2 ^ 62 -> 0 <= height <= max_int ->
  4 * width * height <= max_int -> is_int iterations ->
  Z.max (Z.max width height) (Z.max 1000 iterations) < Z.of_nat fuel ->
  exists img,
    CreateLorenzImage fuel width height iterations = Value img /\
    rgba_Rect img = Rect 0 0 width height /\
    forall px py, 0 <= px < width -> 0 <= py < height ->
      exists c, RGBAAt img px py = Some c /\ lorenz_palette c /\ alpha c = 255.
Proof.
  intros Hw62 Hh Hwh Hint Hfuel. unfold CreateLorenzImage.
  destruct (NewRGBA_Rect width height Hw62 Hh Hwh) as (img & -> & Hwf & Hb).
  assert (Hw : 0 <= width <= max_int) by (unfold max_int; lia).
  destruct (paint_every_pixel (fun _ _ => mkRGBA 0 0 0 255)
              (fun x y => paint_set x y (mkRGBA 0 0 0 255))
              width height fuel img Hw Hh Hwf Hb) as (img1 & -> & Hwf1 & Hb1 & Hpix1);
    [done|lia|].
  destruct (skip_loop_returns fuel 0 NewLorenzAttractor) as (lorenz & ->); [lia..|].
  cbn zeta.
  destruct (plot_loop_palette fuel width height iterations
              (float64_of_int width / 60) (float64_of_int height / 60)
              (float64_of_int width / 2) (float64_of_int height / 2)
              0 lorenz img1) as (img' & -> & Hwf' & Hb' & Hpix');
    try done; try (unfold is_int, max_int in *; lia).
  - intros px py Hpx Hpy. exists (mkRGBA 0 0 0 255).
    split; [by apply Hpix1|by left].
  - exists img'. split_and!; try done.
    intros px py Hpx Hpy. destruct (Hpix' px py Hpx Hpy) as (c & Ec & Hc).
    exists c. split_and!; try done.
    destruct Hc as [->|(r & _ & ->)]; done.
Qed.

Lemma X20_witness :
  exists img,
    CreateLorenzImage 1001 3 2 4 = Value img /\
    rgba_Rect img = Rect 0 0 3 2 /\
    forall px py, 0 <= px < 3 -> 0 <= py < 2 ->
      exists c, RGBAAt img px py = Some c /\ lorenz_palette c /\ alpha c = 255.
Proof.
  apply (X20_CreateLorenzImage_stays_in_its_palette 1001 3 2 4);
    unfold is_int, min_int, max_int; lia.
Defined.

(** ** The animation *)

Lemma step_loop_spec (fuel : nat) (n i : Z) (l : LorenzSystem) :
  0 <= i <= n -> n <= max_int -> n - i < Z.of_nat fuel ->
  step_loop fuel n i l = Value (snd (run_steps (Z.to_nat (n - i)) l)).
Proof.
  intros Hi Hn. revert i l Hi. induction fuel as [|fuel IH]; intros i l Hi Hfuel; [lia|].
  cbn [step_loop]. destruct (i <? n) eqn:G; btp.
  - unfold int_add. rewrite wrap_id by (unfold is_int, min_int, max_int in *; lia).
    rewrite IH by lia.
    replace (Z.to_nat (n - i)) with (S (Z.to_nat (n - (i + 1)))) by lia.
    by rewrite run_steps_S.
  - by replace (Z.to_nat (n - i)) with 0%nat by lia.
Qed.

Lemma run_steps_add (a b : nat) (l : LorenzSystem) :
  fst (run_steps (a + b) l) =
    fst (run_steps a l) ++ fst (run_steps b (snd (run_steps a l))) /\
  snd (run_steps (a + b) l) = snd (run_steps b (snd (run_steps a l))).
Proof.
  revert l. induction a as [|a IH]; intros l; [done|].
  cbn [Nat.add]. rewrite !run_steps_S. cbn [fst snd].
  destruct (IH (snd (Step l))) as [-> ->]. done.
Qed.

Lemma classic_Step (l : LorenzSystem) : classic l -> classic (snd (Step l)).
Proof.
  unfold classic. destruct (Step_params l) as (-> & -> & -> & -> & _). done.
Qed.

Lemma run_steps_orbit (n : nat) (l : LorenzSystem) :
  classic l -> fst (run_steps n l) = orbit_from n (position l).
Proof.
  revert l. induction n as [|n IH]; intros l Hc; [done|].
  rewrite run_steps_S. cbn [fst orbit_from].
  rewrite (IH _ (classic_Step l Hc)), Step_position, Step_point.
  by destruct Hc as (-> & -> & -> & ->).
Qed.

Lemma orbit_from_add (a b : nat) (p : Point3D) :
  exists q, orbit_from (a + b) p = orbit_from a p ++ orbit_from b q.
Proof.
  revert p. induction a as [|a IH]; intros p; [by exists p|].
  cbn [Nat.add orbit_from]. destruct (IH (euler_step 10 28 (8 / 3) 0x1.47ae147ae147bp-7 p))
    as (q & ->). by exists q.
Qed.

(** The trail after [n] steps of a fresh system: the last points of the
    trajectory, two at least once two steps were made. *)
Lemma fresh_trail (n : nat) (l0 : LorenzSystem) :
  NewLorenzSystem 2000 = Some l0 ->
  let l := snd (run_steps n l0) in
  len (GetTrail l) = Z.min (Z.of_nat n) 2000 /\
  forall p, p ∈ GetTrail l -> p ∈ orbit_from n (mkPoint3D 1 1 1).
Proof.
  intros E l. injection E as <-.
  match goal with l := snd (run_steps n ?l0) |- _ => set (s := l0) in * end.
  assert (Hc : classic s) by done.
  pose proof (run_steps_trail n s) as Ht.
  pose proof (run_steps_length n s) as Hn.
  unfold GetTrail, l. rewrite Ht by (unfold len; simpl; lia).
  cbn [s l_trail l_maxTrailLength app]. split.
  - unfold len. rewrite length_drop, Hn. lia.
  - intros p Hp. apply elem_of_drop in Hp as (i & Hp & _)
      || (apply list_elem_of_lookup in Hp as (i & Hp); rewrite lookup_drop in Hp).
    rewrite (run_steps_orbit n s Hc) in Hp.
    by eapply list_elem_of_lookup_2.
Qed.

Section Animation.
Context (width height frames B : Z) (inner : nat).
Hypothesis Hw : 12 <= width.
Hypothesis Hh : 36 <= height.
Hypothesis Hwh : width * height <= max_int.
Hypothesis Hframes : 0 <= frames <= max_int.
Hypothesis HB : 0 <= B < 2 ^ 60.
Hypothesis Horbit :
  forallb (fun p => within B (Project3DTo2D p width height 0 0))
          (orbit_from (Z.to_nat (1000 + 10 * frames)) (mkPoint3D 1 1 1)) = true.
Hypothesis Hinner :
  Z.max (Z.max width height) (Z.max 2000 (4 * B + 7)) < Z.of_nat inner.

Lemma orbit_within (n : nat) (p : Point3D) :
Z.of_nat n <= 1000 + 10 * frames -> p ∈ orbit_from n (mkPoint3D 1 1 1) ->
Z.abs (Project3DTo2D p width height 0 0).1 <= B /\
Z.abs (Project3DTo2D p width height 0 0).2 <= B.
Proof.
intros Hn Hp.
destruct (orbit_from_add n (Z.to_nat (1000 + 10 * frames) - n) (mkPoint3D 1 1 1))
as (q & E).
replace (n + (Z.to_nat (1000 + 10 * frames) - n))%nat
with (Z.to_nat (1000 + 10 * frames)) in E by lia.
pose proof Horbit as H. rewrite E, forallb_app in H. btp.
rewrite forallb_forall in H.
assert (Hin : In p (orbit_from n (mkPoint3D 1 1 1))) by (by apply list_elem_of_In).
specialize (H p Hin). unfold within in H. btp. done.
Qed.

(** The frames from number [frame] on. *)
Lemma frame_loop_spec (fuel : nat) (frame : Z) (l0 : LorenzSystem)
(images : list Paletted) (delays : list Z) :
NewLorenzSystem 2000 = Some l0 ->
0 <= frame <= frames -> frames - frame < Z.of_nat fuel ->
exists images',
frame_loop fuel inner width height frames frame
(snd (run_steps (Z.to_nat (1000 + 10 * frame)) l0)) images delays
= Value (images ++ images', delays ++ replicate (Z.to_nat (frames - frame)) 1) /\
len images' = frames - frame /\ Forall (titled width height) images'.
Proof.
intros El0. revert frame images delays.
induction fuel as [|fuel IH]; intros frame images delays Hf Hfuel; [lia|].
cbn [frame_loop]. destruct (frame <? frames) eqn:G; btp.
- rewrite step_loop_spec by (unfold max_int; lia).
change (Z.to_nat (10 - 0)) with 10%nat.
destruct (run_steps_add (Z.to_nat (1000 + 10 * frame)) 10 l0) as [_ <-].
replace (Z.to_nat (1000 + 10 * frame) + 10)%nat
  with (Z.to_nat (1000 + 10 * (frame + 1))) by lia.
set (n := Z.to_nat (1000 + 10 * (frame + 1))).
destruct (fresh_trail n l0 El0) as [Hlen Htrail].
destruct (CreateFrame_draws inner (snd (run_steps n l0)) width height 0 0 frame B)
  as (c & -> & Hb & H1 & H2); try done.
+ rewrite Hlen. unfold max_int. lia.
+ intros p Hp. apply (orbit_within n); [lia|by apply Htrail].
+ rewrite Hlen. lia.
+ unfold int_add. rewrite wrap_id by (unfold is_int, min_int, max_int in *; lia).
  subst n.
  destruct (IH (frame + 1) (images ++ [image c]) (delays ++ [1]))
    as (images' & -> & Hl & Hg); [lia..|].
  exists (image c :: images'). split_and!.
  * rewrite <- !app_assoc. cbn [app].
    replace (Z.to_nat (frames - frame)) with (S (Z.to_nat (frames - (frame + 1)))) by lia.
    done.
  * unfold len in *. cbn [length]. lia.
  * by constructor.
- exists []. replace (Z.to_nat (frames - frame)) with 0%nat by lia.
rewrite !app_nil_r. split_and!; [done|unfold len; simpl; lia|constructor].
Qed.

Lemma animation_frames (fuel : nat) :
Z.max 1000 frames < Z.of_nat fuel -> fuel = inner ->
exists images,
CreateLorenzAnimation_frames fuel width height frames
= Value (images, replicate (Z.to_nat frames) 1) /\
len images = frames /\ Forall (titled width height) images.
Proof.
intros Hfuel ->. unfold CreateLorenzAnimation_frames.
destruct (NewLorenzSystem 2000) as [l0|] eqn:El0; [|done].
rewrite step_loop_spec by (unfold max_int; lia).
change (Z.to_nat (1000 - 0)) with (Z.to_nat (1000 + 10 * 0)).
destruct (frame_loop_spec inner 0 l0 [] [] El0) as (images & -> & Hl & Hg); [lia..|].
exists images. rewrite Z.sub_0_r in *. done.
Qed.
End Animation.

(** X21: as long as the trajectory from (1, 1, 1) projects to within
    [B] of the origin for the 1000 + 10 * frames steps the animation
    takes, [CreateLorenzAnimation] gets every one of its frames: no call
    of [CreateFrame] panics or hangs, [frames] images of the size asked
    for and [frames] delays of 1 are handed to the encoder, and every
    image carries the two texts (no frame takes the blank path of a
    short trail). *)
Theorem X21_animation_gets_all_its_frames (fuel : nat) (width height frames B : Z) :
  12 <= width -> 36 <= height -> width * height <= max_int ->
  0 <= frames <= max_int -> 0 <= B < 2 ^ 60 ->
  forallb (fun p => within B (Project3DTo2D p width height 0 0))
          (orbit_from (Z.to_nat (1000 + 10 * frames)) (mkPoint3D 1 1 1)) = true ->
  Z.max (Z.max (Z.max width height) (Z.max 2000 (4 * B + 7))) frames < Z.of_nat fuel ->
  exists images,
    CreateLorenzAnimation_frames fuel width height frames
      = Value (images, replicate (Z.to_nat frames) 1) /\
    len images = frames /\ Forall (titled width height) images.
Proof.
  intros Hw Hh Hwh Hframes HB Horbit Hfuel.
  apply (animation_frames width height frames B fuel); try done; lia.
Qed.

(** The run [main] asks for: 3600 frames of 800 by 600. *)
Lemma X21_witness :
  exists images,
    CreateLorenzAnimation_frames (Z.to_nat (2 ^ 20)) 800 600 3600
      = Value (images, replicate (Z.to_nat 3600) 1) /\
    len images = 3600 /\ Forall (titled 800 600) images.
Proof.
  apply (X21_animation_gets_all_its_frames (Z.to_nat (2 ^ 20)) 800 600 3600 (2 ^ 17));
    try (unfold max_int; lia).
  vm_compute. reflexivity.
Defined.
